(** * GameScene: animation orchestration and combat timing

    A shallow embedding of the [GameScene] view component
    (src/components/GameScene.tsx; the later revision of the same file adds
    the glowing-orb pickup and is the one embedded here, the earlier one is
    this model without [checkOrbProximity], [pickupOrb] and the prompt).

    The component keeps its state in React refs and in a few closure
    variables of the mount effect; every handler reads and writes them in
    place.  Here the refs are the fields of one [State] record that each
    handler threads through.  The browser is the environment: it delivers
    key, mouse, animation-frame and asset-load events, and it runs the
    callbacks registered with [setTimeout].  Numbers are IEEE-754 binary64
    values, as in JavaScript, so positions and distances are computed
    exactly the way the engine computes them.

    Rendering, lighting, the camera and the trees are presentation and stay
    outside the model; of the engine's objects only the fields that the
    component's calls set are kept.  The loading overlay is modelled apart
    from the scene, as a [Page] around it.

    [showPickupPrompt], [isLoading] and [loadingProgress] are React state.
    Once the component is unmounted React ignores their setters, while the
    frame loop and the loaders' callbacks, which nothing cancels, go on
    calling them; the model keeps writing the fields, so after an unmount
    they are what the setters were last called with and no longer what the
    component shows.  The theorems read them in mounted states only. *)

From Stdlib Require Import ZArith Lia List Sorted.
From Stdlib Require Import Floats.PrimFloat.
From Stdlib Require Uint63.
From stdpp Require Import base option list strings gmap.

#[local] Set Warnings "-inexact-float".
#[local] Open Scope string_scope.
#[local] Open Scope Z_scope.

(** ** The engine objects the component touches *)

(** [THREE.Vector3]: three doubles.  [distanceTo] is the engine's
    [Math.sqrt(this.distanceToSquared(v))]. *)
Module Vector3.

Record t := mk { x : float; y : float; z : float }.

Definition distanceToSquared (a b : t) : float :=
  let dx := (x a - x b)%float in
  let dy := (y a - y b)%float in
  let dz := (z a - z b)%float in
  (dx * dx + dy * dy + dz * dz)%float.

Definition distanceTo (a b : t) : float := sqrt (distanceToSquared a b).

End Vector3.

(** [THREE.AnimationAction]: the scheduling state of one clip on one
    mixer.  The pose itself is sampled by [mixer.update] and is not part of
    the model; what is kept is what the component's calls set: whether the
    action has been scheduled with [play], the fade last requested, the
    loop mode with its repetition count, and [clampWhenFinished]. *)
Module AnimationAction.

Inductive LoopMode := LoopOnce | LoopRepeat | LoopPingPong.
Inductive Repetitions := Infinity | Times (n : nat).
Inductive Fade := FadeIn (duration : float) | FadeOut (duration : float).

Record t := mk {
  scheduled : bool;
  fading : option Fade;
  loop : LoopMode;
  repetitions : Repetitions;
  clampWhenFinished : bool
}.

(** [mixer.clipAction(clip)] on a clip not seen before: the constructor's
    defaults. *)
Definition clipAction : t :=
  {| scheduled := false; fading := None; loop := LoopRepeat;
     repetitions := Infinity; clampWhenFinished := false |}.

Definition reset (a : t) : t :=
  {| scheduled := scheduled a; fading := None; loop := loop a;
     repetitions := repetitions a; clampWhenFinished := clampWhenFinished a |}.

Definition fadeIn (duration : float) (a : t) : t :=
  {| scheduled := scheduled a; fading := Some (FadeIn duration); loop := loop a;
     repetitions := repetitions a; clampWhenFinished := clampWhenFinished a |}.

Definition fadeOut (duration : float) (a : t) : t :=
  {| scheduled := scheduled a; fading := Some (FadeOut duration); loop := loop a;
     repetitions := repetitions a; clampWhenFinished := clampWhenFinished a |}.

Definition setLoop (mode : LoopMode) (n : Repetitions) (a : t) : t :=
  {| scheduled := scheduled a; fading := fading a; loop := mode;
     repetitions := n; clampWhenFinished := clampWhenFinished a |}.

Definition set_clampWhenFinished (b : bool) (a : t) : t :=
  {| scheduled := scheduled a; fading := fading a; loop := loop a;
     repetitions := repetitions a; clampWhenFinished := b |}.

Definition play (a : t) : t :=
  {| scheduled := true; fading := fading a; loop := loop a;
     repetitions := repetitions a; clampWhenFinished := clampWhenFinished a |}.

(** [stop()] deactivates the action and resets it. *)
Definition stop (a : t) : t :=
  reset {| scheduled := false; fading := fading a; loop := loop a;
           repetitions := repetitions a; clampWhenFinished := clampWhenFinished a |}.

(** What the engine does when an action reaches the end of its last
    repetition: with [clampWhenFinished] it pauses the action on its last
    frame; without, it disables the action, which then no longer
    contributes to the pose. *)
Definition holdsFinalPose (a : t) : bool := clampWhenFinished a.

End AnimationAction.

(** ** The component's state *)

(** [zombieStateRef] holds the string "alive" or "dead" and nothing else. *)
Inductive ZombieState := alive | dead.

(** The three closures handed to [setTimeout]: the hit check 300 ms into an
    attack, the return to idle 1000 ms after it started, and the orb that
    appears 2000 ms after the zombie died. *)
Inductive Callback := CheckHitTimeout | ReturnToIdleTimeout | CreateOrbTimeout.

#[global] Instance ZombieState_eq_dec : EqDecision ZombieState.
Proof. solve_decision. Defined.

#[global] Instance Callback_eq_dec : EqDecision Callback.
Proof. solve_decision. Defined.

(** An object reference holds the object's position, the one field of it
    that the handlers read or write, or nothing while it is null; a mixer
    reference says whether the mixer exists. *)
Record State := {
  (* the host: a millisecond clock, the pending timeouts ordered by due
     time, whether the window listeners are installed, and how many orb
     meshes the scene graph holds *)
  now : Z;
  timers : list (Z * Callback);
  listening : bool;
  (* refs and React state *)
  playerRef : option Vector3.t;
  keysRef : gmap string bool;
  mixerRef : bool;
  actionsRef : gmap string AnimationAction.t;
  currentActionRef : string;
  isAttackingRef : bool;
  zombieRef : option Vector3.t;
  zombieMixerRef : bool;
  zombieActionsRef : gmap string AnimationAction.t;
  zombieStateRef : ZombieState;
  glowingOrbRef : option Vector3.t;
  showPickupPrompt : bool;
  sceneOrbs : nat;
  (* closure variables of the loaders *)
  loadedAnimations : nat;
  animationClips : list string;
  loadedCount : nat;
  zombieAnimations : list string
}.

(** Field updates, one per field. *)
Definition set_now (v : Z) (s : State) : State :=
  {| now := v; timers := timers s; listening := listening s; playerRef := playerRef s;
     keysRef := keysRef s; mixerRef := mixerRef s; actionsRef := actionsRef s;
     currentActionRef := currentActionRef s; isAttackingRef := isAttackingRef s;
     zombieRef := zombieRef s; zombieMixerRef := zombieMixerRef s;
     zombieActionsRef := zombieActionsRef s; zombieStateRef := zombieStateRef s;
     glowingOrbRef := glowingOrbRef s; showPickupPrompt := showPickupPrompt s;
     sceneOrbs := sceneOrbs s; loadedAnimations := loadedAnimations s;
     animationClips := animationClips s; loadedCount := loadedCount s;
     zombieAnimations := zombieAnimations s |}.

Definition set_timers (v : list (Z * Callback)) (s : State) : State :=
  {| now := now s; timers := v; listening := listening s; playerRef := playerRef s;
     keysRef := keysRef s; mixerRef := mixerRef s; actionsRef := actionsRef s;
     currentActionRef := currentActionRef s; isAttackingRef := isAttackingRef s;
     zombieRef := zombieRef s; zombieMixerRef := zombieMixerRef s;
     zombieActionsRef := zombieActionsRef s; zombieStateRef := zombieStateRef s;
     glowingOrbRef := glowingOrbRef s; showPickupPrompt := showPickupPrompt s;
     sceneOrbs := sceneOrbs s; loadedAnimations := loadedAnimations s;
     animationClips := animationClips s; loadedCount := loadedCount s;
     zombieAnimations := zombieAnimations s |}.

Definition set_listening (v : bool) (s : State) : State :=
  {| now := now s; timers := timers s; listening := v; playerRef := playerRef s;
     keysRef := keysRef s; mixerRef := mixerRef s; actionsRef := actionsRef s;
     currentActionRef := currentActionRef s; isAttackingRef := isAttackingRef s;
     zombieRef := zombieRef s; zombieMixerRef := zombieMixerRef s;
     zombieActionsRef := zombieActionsRef s; zombieStateRef := zombieStateRef s;
     glowingOrbRef := glowingOrbRef s; showPickupPrompt := showPickupPrompt s;
     sceneOrbs := sceneOrbs s; loadedAnimations := loadedAnimations s;
     animationClips := animationClips s; loadedCount := loadedCount s;
     zombieAnimations := zombieAnimations s |}.

Definition set_playerRef (v : option Vector3.t) (s : State) : State :=
  {| now := now s; timers := timers s; listening := listening s; playerRef := v;
     keysRef := keysRef s; mixerRef := mixerRef s; actionsRef := actionsRef s;
     currentActionRef := currentActionRef s; isAttackingRef := isAttackingRef s;
     zombieRef := zombieRef s; zombieMixerRef := zombieMixerRef s;
     zombieActionsRef := zombieActionsRef s; zombieStateRef := zombieStateRef s;
     glowingOrbRef := glowingOrbRef s; showPickupPrompt := showPickupPrompt s;
     sceneOrbs := sceneOrbs s; loadedAnimations := loadedAnimations s;
     animationClips := animationClips s; loadedCount := loadedCount s;
     zombieAnimations := zombieAnimations s |}.

Definition set_keysRef (v : gmap string bool) (s : State) : State :=
  {| now := now s; timers := timers s; listening := listening s;
     playerRef := playerRef s; keysRef := v; mixerRef := mixerRef s;
     actionsRef := actionsRef s; currentActionRef := currentActionRef s;
     isAttackingRef := isAttackingRef s; zombieRef := zombieRef s;
     zombieMixerRef := zombieMixerRef s; zombieActionsRef := zombieActionsRef s;
     zombieStateRef := zombieStateRef s; glowingOrbRef := glowingOrbRef s;
     showPickupPrompt := showPickupPrompt s; sceneOrbs := sceneOrbs s;
     loadedAnimations := loadedAnimations s; animationClips := animationClips s;
     loadedCount := loadedCount s; zombieAnimations := zombieAnimations s |}.

Definition set_mixerRef (v : bool) (s : State) : State :=
  {| now := now s; timers := timers s; listening := listening s;
     playerRef := playerRef s; keysRef := keysRef s; mixerRef := v;
     actionsRef := actionsRef s; currentActionRef := currentActionRef s;
     isAttackingRef := isAttackingRef s; zombieRef := zombieRef s;
     zombieMixerRef := zombieMixerRef s; zombieActionsRef := zombieActionsRef s;
     zombieStateRef := zombieStateRef s; glowingOrbRef := glowingOrbRef s;
     showPickupPrompt := showPickupPrompt s; sceneOrbs := sceneOrbs s;
     loadedAnimations := loadedAnimations s; animationClips := animationClips s;
     loadedCount := loadedCount s; zombieAnimations := zombieAnimations s |}.

Definition set_actionsRef (v : gmap string AnimationAction.t) (s : State) : State :=
  {| now := now s; timers := timers s; listening := listening s;
     playerRef := playerRef s; keysRef := keysRef s; mixerRef := mixerRef s;
     actionsRef := v; currentActionRef := currentActionRef s;
     isAttackingRef := isAttackingRef s; zombieRef := zombieRef s;
     zombieMixerRef := zombieMixerRef s; zombieActionsRef := zombieActionsRef s;
     zombieStateRef := zombieStateRef s; glowingOrbRef := glowingOrbRef s;
     showPickupPrompt := showPickupPrompt s; sceneOrbs := sceneOrbs s;
     loadedAnimations := loadedAnimations s; animationClips := animationClips s;
     loadedCount := loadedCount s; zombieAnimations := zombieAnimations s |}.

Definition set_currentActionRef (v : string) (s : State) : State :=
  {| now := now s; timers := timers s; listening := listening s;
     playerRef := playerRef s; keysRef := keysRef s; mixerRef := mixerRef s;
     actionsRef := actionsRef s; currentActionRef := v;
     isAttackingRef := isAttackingRef s; zombieRef := zombieRef s;
     zombieMixerRef := zombieMixerRef s; zombieActionsRef := zombieActionsRef s;
     zombieStateRef := zombieStateRef s; glowingOrbRef := glowingOrbRef s;
     showPickupPrompt := showPickupPrompt s; sceneOrbs := sceneOrbs s;
     loadedAnimations := loadedAnimations s; animationClips := animationClips s;
     loadedCount := loadedCount s; zombieAnimations := zombieAnimations s |}.

Definition set_isAttackingRef (v : bool) (s : State) : State :=
  {| now := now s; timers := timers s; listening := listening s;
     playerRef := playerRef s; keysRef := keysRef s; mixerRef := mixerRef s;
     actionsRef := actionsRef s; currentActionRef := currentActionRef s;
     isAttackingRef := v; zombieRef := zombieRef s; zombieMixerRef := zombieMixerRef s;
     zombieActionsRef := zombieActionsRef s; zombieStateRef := zombieStateRef s;
     glowingOrbRef := glowingOrbRef s; showPickupPrompt := showPickupPrompt s;
     sceneOrbs := sceneOrbs s; loadedAnimations := loadedAnimations s;
     animationClips := animationClips s; loadedCount := loadedCount s;
     zombieAnimations := zombieAnimations s |}.

Definition set_zombieRef (v : option Vector3.t) (s : State) : State :=
  {| now := now s; timers := timers s; listening := listening s;
     playerRef := playerRef s; keysRef := keysRef s; mixerRef := mixerRef s;
     actionsRef := actionsRef s; currentActionRef := currentActionRef s;
     isAttackingRef := isAttackingRef s; zombieRef := v;
     zombieMixerRef := zombieMixerRef s; zombieActionsRef := zombieActionsRef s;
     zombieStateRef := zombieStateRef s; glowingOrbRef := glowingOrbRef s;
     showPickupPrompt := showPickupPrompt s; sceneOrbs := sceneOrbs s;
     loadedAnimations := loadedAnimations s; animationClips := animationClips s;
     loadedCount := loadedCount s; zombieAnimations := zombieAnimations s |}.

Definition set_zombieMixerRef (v : bool) (s : State) : State :=
  {| now := now s; timers := timers s; listening := listening s;
     playerRef := playerRef s; keysRef := keysRef s; mixerRef := mixerRef s;
     actionsRef := actionsRef s; currentActionRef := currentActionRef s;
     isAttackingRef := isAttackingRef s; zombieRef := zombieRef s; zombieMixerRef := v;
     zombieActionsRef := zombieActionsRef s; zombieStateRef := zombieStateRef s;
     glowingOrbRef := glowingOrbRef s; showPickupPrompt := showPickupPrompt s;
     sceneOrbs := sceneOrbs s; loadedAnimations := loadedAnimations s;
     animationClips := animationClips s; loadedCount := loadedCount s;
     zombieAnimations := zombieAnimations s |}.

Definition set_zombieActionsRef (v : gmap string AnimationAction.t) (s : State) : State :=
  {| now := now s; timers := timers s; listening := listening s;
     playerRef := playerRef s; keysRef := keysRef s; mixerRef := mixerRef s;
     actionsRef := actionsRef s; currentActionRef := currentActionRef s;
     isAttackingRef := isAttackingRef s; zombieRef := zombieRef s;
     zombieMixerRef := zombieMixerRef s; zombieActionsRef := v;
     zombieStateRef := zombieStateRef s; glowingOrbRef := glowingOrbRef s;
     showPickupPrompt := showPickupPrompt s; sceneOrbs := sceneOrbs s;
     loadedAnimations := loadedAnimations s; animationClips := animationClips s;
     loadedCount := loadedCount s; zombieAnimations := zombieAnimations s |}.

Definition set_zombieStateRef (v : ZombieState) (s : State) : State :=
  {| now := now s; timers := timers s; listening := listening s;
     playerRef := playerRef s; keysRef := keysRef s; mixerRef := mixerRef s;
     actionsRef := actionsRef s; currentActionRef := currentActionRef s;
     isAttackingRef := isAttackingRef s; zombieRef := zombieRef s;
     zombieMixerRef := zombieMixerRef s; zombieActionsRef := zombieActionsRef s;
     zombieStateRef := v; glowingOrbRef := glowingOrbRef s;
     showPickupPrompt := showPickupPrompt s; sceneOrbs := sceneOrbs s;
     loadedAnimations := loadedAnimations s; animationClips := animationClips s;
     loadedCount := loadedCount s; zombieAnimations := zombieAnimations s |}.

Definition set_glowingOrbRef (v : option Vector3.t) (s : State) : State :=
  {| now := now s; timers := timers s; listening := listening s;
     playerRef := playerRef s; keysRef := keysRef s; mixerRef := mixerRef s;
     actionsRef := actionsRef s; currentActionRef := currentActionRef s;
     isAttackingRef := isAttackingRef s; zombieRef := zombieRef s;
     zombieMixerRef := zombieMixerRef s; zombieActionsRef := zombieActionsRef s;
     zombieStateRef := zombieStateRef s; glowingOrbRef := v;
     showPickupPrompt := showPickupPrompt s; sceneOrbs := sceneOrbs s;
     loadedAnimations := loadedAnimations s; animationClips := animationClips s;
     loadedCount := loadedCount s; zombieAnimations := zombieAnimations s |}.

Definition set_showPickupPrompt (v : bool) (s : State) : State :=
  {| now := now s; timers := timers s; listening := listening s;
     playerRef := playerRef s; keysRef := keysRef s; mixerRef := mixerRef s;
     actionsRef := actionsRef s; currentActionRef := currentActionRef s;
     isAttackingRef := isAttackingRef s; zombieRef := zombieRef s;
     zombieMixerRef := zombieMixerRef s; zombieActionsRef := zombieActionsRef s;
     zombieStateRef := zombieStateRef s; glowingOrbRef := glowingOrbRef s;
     showPickupPrompt := v; sceneOrbs := sceneOrbs s;
     loadedAnimations := loadedAnimations s; animationClips := animationClips s;
     loadedCount := loadedCount s; zombieAnimations := zombieAnimations s |}.

Definition set_sceneOrbs (v : nat) (s : State) : State :=
  {| now := now s; timers := timers s; listening := listening s;
     playerRef := playerRef s; keysRef := keysRef s; mixerRef := mixerRef s;
     actionsRef := actionsRef s; currentActionRef := currentActionRef s;
     isAttackingRef := isAttackingRef s; zombieRef := zombieRef s;
     zombieMixerRef := zombieMixerRef s; zombieActionsRef := zombieActionsRef s;
     zombieStateRef := zombieStateRef s; glowingOrbRef := glowingOrbRef s;
     showPickupPrompt := showPickupPrompt s; sceneOrbs := v;
     loadedAnimations := loadedAnimations s; animationClips := animationClips s;
     loadedCount := loadedCount s; zombieAnimations := zombieAnimations s |}.

Definition set_loadedAnimations (v : nat) (s : State) : State :=
  {| now := now s; timers := timers s; listening := listening s;
     playerRef := playerRef s; keysRef := keysRef s; mixerRef := mixerRef s;
     actionsRef := actionsRef s; currentActionRef := currentActionRef s;
     isAttackingRef := isAttackingRef s; zombieRef := zombieRef s;
     zombieMixerRef := zombieMixerRef s; zombieActionsRef := zombieActionsRef s;
     zombieStateRef := zombieStateRef s; glowingOrbRef := glowingOrbRef s;
     showPickupPrompt := showPickupPrompt s; sceneOrbs := sceneOrbs s;
     loadedAnimations := v; animationClips := animationClips s;
     loadedCount := loadedCount s; zombieAnimations := zombieAnimations s |}.

Definition set_animationClips (v : list string) (s : State) : State :=
  {| now := now s; timers := timers s; listening := listening s;
     playerRef := playerRef s; keysRef := keysRef s; mixerRef := mixerRef s;
     actionsRef := actionsRef s; currentActionRef := currentActionRef s;
     isAttackingRef := isAttackingRef s; zombieRef := zombieRef s;
     zombieMixerRef := zombieMixerRef s; zombieActionsRef := zombieActionsRef s;
     zombieStateRef := zombieStateRef s; glowingOrbRef := glowingOrbRef s;
     showPickupPrompt := showPickupPrompt s; sceneOrbs := sceneOrbs s;
     loadedAnimations := loadedAnimations s; animationClips := v;
     loadedCount := loadedCount s; zombieAnimations := zombieAnimations s |}.

Definition set_loadedCount (v : nat) (s : State) : State :=
  {| now := now s; timers := timers s; listening := listening s;
     playerRef := playerRef s; keysRef := keysRef s; mixerRef := mixerRef s;
     actionsRef := actionsRef s; currentActionRef := currentActionRef s;
     isAttackingRef := isAttackingRef s; zombieRef := zombieRef s;
     zombieMixerRef := zombieMixerRef s; zombieActionsRef := zombieActionsRef s;
     zombieStateRef := zombieStateRef s; glowingOrbRef := glowingOrbRef s;
     showPickupPrompt := showPickupPrompt s; sceneOrbs := sceneOrbs s;
     loadedAnimations := loadedAnimations s; animationClips := animationClips s;
     loadedCount := v; zombieAnimations := zombieAnimations s |}.

Definition set_zombieAnimations (v : list string) (s : State) : State :=
  {| now := now s; timers := timers s; listening := listening s;
     playerRef := playerRef s; keysRef := keysRef s; mixerRef := mixerRef s;
     actionsRef := actionsRef s; currentActionRef := currentActionRef s;
     isAttackingRef := isAttackingRef s; zombieRef := zombieRef s;
     zombieMixerRef := zombieMixerRef s; zombieActionsRef := zombieActionsRef s;
     zombieStateRef := zombieStateRef s; glowingOrbRef := glowingOrbRef s;
     showPickupPrompt := showPickupPrompt s; sceneOrbs := sceneOrbs s;
     loadedAnimations := loadedAnimations s; animationClips := animationClips s;
     loadedCount := loadedCount s; zombieAnimations := v |}.

(** ** The host's timer queue *)

(** Pending timeouts are kept in the order in which they will run: by due
    time, and among equal due times in the order of registration. *)
Fixpoint enqueue (t : Z * Callback) (q : list (Z * Callback)) : list (Z * Callback) :=
  match q with
  | [] => [t]
  | u :: q' => if t.1 <? u.1 then t :: q else u :: enqueue t q'
  end.

Definition setTimeout (cb : Callback) (delay : Z) (s : State) : State :=
  set_timers (enqueue (now s + delay, cb) (timers s)) s.

(** ** The animation system *)

(** [setupAnimations]: a fresh mixer, one action per clip under the clip's
    name, and the idle action started when there is one. *)
Definition setupAnimations (animations : list string) (s : State) : State :=
  let actions :=
    foldl (λ acc name, <[name := AnimationAction.clipAction]> acc) ∅ animations in
  let s := set_actionsRef actions (set_mixerRef true s) in
  if bool_decide (is_Some (actions !! "idle")) then
    set_currentActionRef "idle"
      (set_actionsRef (alter AnimationAction.play "idle" actions) s)
  else s.

(** [playAnimation(animationName, loop = true)]. *)
Definition playAnimation (animationName : string) (loop : bool) (s : State) : State :=
  let actions := actionsRef s in
  let currentAction := currentActionRef s in
  if bool_decide (is_Some (actions !! animationName))
     && bool_decide (currentAction ≠ animationName) then
    (* fade out the current animation, if it has an action *)
    let actions := alter (AnimationAction.fadeOut 0.2) currentAction actions in
    (* fade in the new one *)
    let actions :=
      alter (λ a, AnimationAction.play
                    (AnimationAction.setLoop
                       (if loop then AnimationAction.LoopRepeat
                        else AnimationAction.LoopOnce)
                       AnimationAction.Infinity
                       (AnimationAction.fadeIn 0.2 (AnimationAction.reset a))))
            animationName actions in
    set_currentActionRef animationName (set_actionsRef actions s)
  else s.

(** ** Asset loading *)

(** The six [loadAnimation] calls of the player, by file. *)
Inductive PlayerAsset :=
  SSIdle | SSAttack | SSWalkForward | SSWalkBack | SSStrafeLeft | SSStrafeRight.

Definition animationName (a : PlayerAsset) : string :=
  match a with
  | SSIdle => "idle"
  | SSAttack => "attack"
  | SSWalkForward => "walkForward"
  | SSWalkBack => "walkBack"
  | SSStrafeLeft => "strafeLeft"
  | SSStrafeRight => "strafeRight"
  end.

Definition totalAnimations : nat := 6.

(** The success callback of [loadAnimation]; [hasClip] says whether the
    file came with at least one animation.  The base model is one of the
    six files, so it is in the player group when the sixth callback hands
    it to [setupAnimations] as the mixer's root; the scene graph itself is
    not modelled. *)
Definition loadAnimation (a : PlayerAsset) (hasClip : bool) (s : State) : State :=
  let s := if hasClip
           then set_animationClips (animationClips s ++ [animationName a]) s
           else s in
  let s := set_loadedAnimations (S (loadedAnimations s)) s in
  if bool_decide (loadedAnimations s = totalAnimations)
  then setupAnimations (animationClips s) s
  else s.

Definition totalZombieAnimations : nat := 2.

(** [setupZombieAnimations]; the closure variable [zombieModel] is assigned
    together with [zombieRef]. *)
Definition setupZombieAnimations (s : State) : State :=
  if bool_decide (loadedCount s = totalZombieAnimations)
     && bool_decide (is_Some (zombieRef s)) then
    let actions :=
      foldl (λ acc name, <[name := AnimationAction.clipAction]> acc) ∅
            (zombieAnimations s) in
    set_zombieActionsRef (alter AnimationAction.play "zombieIdle" actions)
      (set_zombieMixerRef true s)
  else s.

(** The zombie's base model: placed at (-5, 0, -5) and published in
    [zombieRef]. *)
Definition zombieIdleLoaded (hasClip : bool) (s : State) : State :=
  let s := if hasClip
           then set_zombieAnimations (zombieAnimations s ++ ["zombieIdle"]) s
           else s in
  let s := set_zombieRef (Some (Vector3.mk (-5) 0 (-5))) s in
  let s := set_loadedCount (S (loadedCount s)) s in
  setupZombieAnimations s.

Definition zombieDeathLoaded (hasClip : bool) (s : State) : State :=
  let s := if hasClip
           then set_zombieAnimations (zombieAnimations s ++ ["zombieDeath"]) s
           else s in
  let s := set_loadedCount (S (loadedCount s)) s in
  setupZombieAnimations s.

(** ** Combat *)

Definition hitRange : float := 3.0.

(** [checkHit]: the hit detection function. *)
Definition checkHit (s : State) : bool :=
  match playerRef s, zombieRef s, zombieStateRef s with
  | Some playerPosition, Some zombiePosition, alive =>
      (Vector3.distanceTo playerPosition zombiePosition <=? hitRange)%float
  | _, _, _ => false
  end.

(** [createGlowingOrb(position)]: a mesh at [position], one unit higher,
    added to the scene and published in [glowingOrbRef]. *)
Definition createGlowingOrb (position : Vector3.t) (s : State) : State :=
  let orb := Vector3.mk (Vector3.x position)
                        (Vector3.y position + 1)%float
                        (Vector3.z position) in
  set_glowingOrbRef (Some orb) (set_sceneOrbs (S (sceneOrbs s)) s).

(** [killZombie]: plays the death animation and schedules the orb. *)
Definition killZombie (s : State) : State :=
  match zombieStateRef s with
  | dead => s
  | alive =>
      let s := set_zombieStateRef dead s in
      let actions := zombieActionsRef s in
      let actions := alter (AnimationAction.fadeOut 0.2) "zombieIdle" actions in
      let actions :=
        alter (λ a, AnimationAction.play
                      (AnimationAction.set_clampWhenFinished true
                         (AnimationAction.setLoop AnimationAction.LoopOnce
                            (AnimationAction.Times 1)
                            (AnimationAction.fadeIn 0.2 (AnimationAction.reset a)))))
              "zombieDeath" actions in
      let s := set_zombieActionsRef actions s in
      match zombieRef s with
      | Some _ => setTimeout CreateOrbTimeout 2000 s
      | None => s
      end
  end.

(** ** The pickup *)

Definition interactionRange : float := 2.5.

Definition checkOrbProximity (s : State) : bool :=
  match playerRef s, glowingOrbRef s with
  | Some playerPosition, Some orbPosition =>
      (Vector3.distanceTo playerPosition orbPosition <=? interactionRange)%float
  | _, _ => false
  end.

(** [pickupOrb]; [sceneRef] is assigned when the effect starts and never
    cleared, so only the orb is tested. *)
Definition pickupOrb (s : State) : State :=
  match glowingOrbRef s with
  | Some _ =>
      set_showPickupPrompt false
        (set_glowingOrbRef None (set_sceneOrbs (Nat.pred (sceneOrbs s)) s))
  | None => s
  end.

(** ** Input *)

(** [keysRef.current[code]] read as a condition: a code never seen is
    [undefined], which is falsy. *)
Definition held (code : string) (s : State) : bool :=
  default false (keysRef s !! code).

Definition handleKeyDown (code : string) (s : State) : State :=
  let s := set_keysRef (<[code := true]> (keysRef s)) s in
  (* E picks the orb up *)
  if bool_decide (code = "KeyE") && checkOrbProximity s then pickupOrb s else s.

Definition handleKeyUp (code : string) (s : State) : State :=
  set_keysRef (<[code := false]> (keysRef s)) s.

(** The closure that [handleMouseClick] schedules 300 ms into the attack. *)
Definition checkHitTimeout (s : State) : State :=
  if checkHit s then killZombie s else s.

(** The closure that [handleMouseClick] schedules 1000 ms after the click:
    it ends the attack and picks the animation to return to. *)
Definition returnToIdleTimeout (s : State) : State :=
  let s := set_isAttackingRef false s in
  let isMoving :=
    held "KeyW" s || held "KeyS" s || held "KeyA" s || held "KeyD" s
    || held "ArrowUp" s || held "ArrowDown" s || held "ArrowLeft" s
    || held "ArrowRight" s in
  if isMoving then
    if held "KeyW" s || held "ArrowUp" s then playAnimation "walkForward" true s
    else if held "KeyS" s || held "ArrowDown" s then playAnimation "walkBack" true s
    else if held "KeyA" s || held "ArrowLeft" s then playAnimation "strafeLeft" true s
    else if held "KeyD" s || held "ArrowRight" s then playAnimation "strafeRight" true s
    else playAnimation "idle" true s
  else playAnimation "idle" true s.

(** The closure that [killZombie] schedules.  It reads
    [zombieRef.current!.position] without a test of its own; on an absent
    reference the read raises a TypeError, rendered as [None]. *)
Definition createOrbTimeout (s : State) : option State :=
  match zombieRef s with
  | Some position => Some (createGlowingOrb position s)
  | None => None
  end.

Definition handleMouseClick (button : Z) (s : State) : State :=
  if bool_decide (button = 0) && negb (isAttackingRef s) then
    (* left click, and not already attacking *)
    let s := set_isAttackingRef true s in
    let s := playAnimation "attack" false s in
    let s := setTimeout CheckHitTimeout 300 s in
    setTimeout ReturnToIdleTimeout 1000 s
  else s.

(** ** The animation loop *)

Definition moveSpeed : float := 0.1.

(** The three locals of the movement block of [animate]. *)
Record Movement := {
  position : Vector3.t;
  moved : bool;
  currentMovement : string
}.

(** One of the four [if (key) { position.axis op= moveSpeed; moved = true;
    currentMovement = name; }] statements. *)
Definition moveIf (pressed : bool) (go : Vector3.t → Vector3.t) (name : string)
    (m : Movement) : Movement :=
  if pressed
  then {| position := go (position m); moved := true; currentMovement := name |}
  else m.

Definition movement (player : Vector3.t) (s : State) : Movement :=
  let m := {| position := player; moved := false; currentMovement := "" |} in
  if negb (isAttackingRef s) then
    let m := moveIf (held "KeyW" s || held "ArrowUp" s)
               (λ p, Vector3.mk (Vector3.x p) (Vector3.y p) (Vector3.z p - moveSpeed)%float)
               "walkForward" m in
    let m := moveIf (held "KeyS" s || held "ArrowDown" s)
               (λ p, Vector3.mk (Vector3.x p) (Vector3.y p) (Vector3.z p + moveSpeed)%float)
               "walkBack" m in
    let m := moveIf (held "KeyA" s || held "ArrowLeft" s)
               (λ p, Vector3.mk (Vector3.x p - moveSpeed)%float (Vector3.y p) (Vector3.z p))
               "strafeLeft" m in
    let m := moveIf (held "KeyD" s || held "ArrowRight" s)
               (λ p, Vector3.mk (Vector3.x p + moveSpeed)%float (Vector3.y p) (Vector3.z p))
               "strafeRight" m in
    m
  else m.

(** [animate]: one run of the frame callback.  [sinTime] is the value of
    [Math.sin(Date.now() * 0.003)] for this frame.  The last line is the
    call of [setShowPickupPrompt], which React ignores once the component
    is unmounted. *)
Definition animate (sinTime : float) (s : State) : State :=
  (* the orb floats *)
  let s :=
    match glowingOrbRef s with
    | Some orb =>
        set_glowingOrbRef
          (Some (Vector3.mk (Vector3.x orb)
                            (Vector3.y orb + sinTime * 0.002)%float
                            (Vector3.z orb))) s
    | None => s
    end in
  match playerRef s with
  | Some player =>
      let currentAction := currentActionRef s in
      let m := movement player s in
      let s := set_playerRef (Some (position m)) s in
      let s :=
        if negb (isAttackingRef s) then
          if moved m && bool_decide (currentAction ≠ "attack") then
            if bool_decide (currentAction ≠ currentMovement m)
            then playAnimation (currentMovement m) true s
            else s
          else if negb (moved m) && bool_decide (currentAction ≠ "attack") then
            if bool_decide (currentAction ≠ "idle")
            then playAnimation "idle" true s
            else s
          else s
        else s in
      set_showPickupPrompt (checkOrbProximity s) s
  | None => s
  end.

(** The effect's cleanup: the window listeners go, the mixers stop their
    actions.  Pending timeouts are not cancelled and the frame loop is not
    stopped. *)
Definition cleanup (s : State) : State :=
  let s := set_listening false s in
  let s := if mixerRef s
           then set_actionsRef (AnimationAction.stop <$> actionsRef s) s
           else s in
  if zombieMixerRef s
  then set_zombieActionsRef (AnimationAction.stop <$> zombieActionsRef s) s
  else s.

(** ** The event loop *)

Inductive Event :=
| KeyDown (code : string)
| KeyUp (code : string)
| MouseDown (button : Z)
| AnimationFrame (sinTime : float)
| AnimationLoaded (a : PlayerAsset) (hasClip : bool)
| ZombieIdleLoaded (hasClip : bool)
| ZombieDeathLoaded (hasClip : bool)
| Unmount.

(** Key and mouse events reach their handlers while the listeners are
    installed. *)
Definition dispatch (e : Event) (s : State) : State :=
  match e with
  | KeyDown code => if listening s then handleKeyDown code s else s
  | KeyUp code => if listening s then handleKeyUp code s else s
  | MouseDown button => if listening s then handleMouseClick button s else s
  | AnimationFrame sinTime => animate sinTime s
  | AnimationLoaded a hasClip => loadAnimation a hasClip s
  | ZombieIdleLoaded hasClip => zombieIdleLoaded hasClip s
  | ZombieDeathLoaded hasClip => zombieDeathLoaded hasClip s
  | Unmount => cleanup s
  end.

Definition callback (cb : Callback) (s : State) : option State :=
  match cb with
  | CheckHitTimeout => Some (checkHitTimeout s)
  | ReturnToIdleTimeout => Some (returnToIdleTimeout s)
  | CreateOrbTimeout => createOrbTimeout s
  end.

(** A step of the loop: either the first pending timeout expires and its
    callback runs, at its due time or, when the clock is already past it,
    late; or the host delivers an event at time [t].  [None] is an uncaught
    TypeError. *)
Inductive Step :=
| Expire
| Deliver (t : Z) (e : Event).

Definition step (s : State) (st : Step) : option State :=
  match st with
  | Expire =>
      match timers s with
      | [] => Some s
      | (due, cb) :: rest =>
          callback cb (set_now (Z.max (now s) due) (set_timers rest s))
      end
  | Deliver t e => Some (dispatch e (set_now (Z.max (now s) t) s))
  end.

(** The host's discipline: a timeout runs when it is due, so an event at
    time [t] is delivered only when every timeout due by [t] has run. *)
Definition step_ok (s : State) (st : Step) : bool :=
  match st with
  | Expire => bool_decide (timers s ≠ [])
  | Deliver t e => (now s <=? t) && forallb (λ tm, t <? tm.1) (timers s)
  end.

Fixpoint run (s : State) (steps : list Step) : option State :=
  match steps with
  | [] => Some s
  | st :: steps => s' ← step s st; run s' steps
  end.

Fixpoint run_ok (s : State) (steps : list Step) : bool :=
  match steps with
  | [] => true
  | st :: steps =>
      step_ok s st && match step s st with
                      | Some s' => run_ok s' steps
                      | None => false
                      end
  end.

(** The state when the effect has run: the player group stands at the
    origin (its model may still be loading), nothing else is loaded. *)
Definition init : State :=
  {| now := 0; timers := []; listening := true;
     playerRef := Some (Vector3.mk 0 0 0); keysRef := ∅;
     mixerRef := false; actionsRef := ∅; currentActionRef := "idle";
     isAttackingRef := false;
     zombieRef := None; zombieMixerRef := false; zombieActionsRef := ∅;
     zombieStateRef := alive;
     glowingOrbRef := None; showPickupPrompt := false; sceneOrbs := 0;
     loadedAnimations := 0; animationClips := [];
     loadedCount := 0; zombieAnimations := [] |}.

(** The successive states of a run, up to the first uncaught error. *)
Fixpoint states (s : State) (steps : list Step) : list State :=
  match steps with
  | [] => []
  | st :: steps =>
      match step s st with
      | Some s' => s' :: states s' steps
      | None => []
      end
  end.

(** ** Observations of a run *)

(** The changes of the zombie's state along a sequence of observations:
    every adjacent pair that differs, in order. *)
Definition changed (a b : ZombieState) : bool :=
  match a, b with
  | alive, alive | dead, dead => false
  | _, _ => true
  end.

Fixpoint transitions (l : list ZombieState) : list (ZombieState * ZombieState) :=
  match l with
  | [] => []
  | a :: l' =>
      match l' with
      | [] => []
      | b :: _ => if changed a b then (a, b) :: transitions l' else transitions l'
      end
  end.

(** Due times of the pending orb timeouts. *)
Fixpoint orbDues (q : list (Z * Callback)) : list Z :=
  match q with
  | [] => []
  | (due, CreateOrbTimeout) :: q => due :: orbDues q
  | _ :: q => orbDues q
  end.

(** Due times of the pending return-to-idle timeouts. *)
Fixpoint resumeDues (q : list (Z * Callback)) : list Z :=
  match q with
  | [] => []
  | (due, ReturnToIdleTimeout) :: q => due :: resumeDues q
  | _ :: q => resumeDues q
  end.

(** Where and when an orb mesh entered the scene during a run, and when
    one left it. *)
Fixpoint spawns (s : State) (steps : list Step) : list (Z * option Vector3.t) :=
  match steps with
  | [] => []
  | st :: steps =>
      match step s st with
      | Some s' =>
          (if (sceneOrbs s <? sceneOrbs s')%nat
           then [(now s', glowingOrbRef s')] else [])
          ++ spawns s' steps
      | None => []
      end
  end%list.

Fixpoint pickups (s : State) (steps : list Step) : list Z :=
  match steps with
  | [] => []
  | st :: steps =>
      match step s st with
      | Some s' =>
          (if (sceneOrbs s' <? sceneOrbs s)%nat then [now s'] else [])
          ++ pickups s' steps
      | None => []
      end
  end%list.

(** The player's collecting the orb: E goes down while the component is
    mounted and the orb is in reach.  This is read off the input, not off
    what [pickupOrb] does to the scene. *)
Definition collects (s : State) (st : Step) : bool :=
  match st with
  | Deliver _ (KeyDown code) =>
      bool_decide (code = "KeyE") && listening s && checkOrbProximity s
  | _ => false
  end.

(** When the player collected during a run. *)
Fixpoint collections (s : State) (steps : list Step) : list Z :=
  match steps with
  | [] => []
  | st :: steps =>
      match step s st with
      | Some s' => (if collects s st then [now s'] else []) ++ collections s' steps
      | None => []
      end
  end%list.

(** The steps that are input or a frame: keys, clicks, animation frames. *)
Definition inputOrFrame (st : Step) : bool :=
  match st with
  | Deliver _ (KeyDown _) | Deliver _ (KeyUp _) | Deliver _ (MouseDown _)
  | Deliver _ (AnimationFrame _) => true
  | _ => false
  end.

(** The timer queue is in running order. *)
Definition queued (q : list (Z * Callback)) : Prop :=
  StronglySorted (λ a b, a.1 ≤ b.1) q.

(** The resume rule in the words of the specification: the first held
    direction in the order Forward, Back, Left, Right, and Idle when none
    is held. *)
Definition forwardHeld (s : State) : bool := held "KeyW" s || held "ArrowUp" s.
Definition backHeld (s : State) : bool := held "KeyS" s || held "ArrowDown" s.
Definition leftHeld (s : State) : bool := held "KeyA" s || held "ArrowLeft" s.
Definition rightHeld (s : State) : bool := held "KeyD" s || held "ArrowRight" s.

Definition resumeState (s : State) : string :=
  if forwardHeld s then "walkForward"
  else if backHeld s then "walkBack"
  else if leftHeld s then "strafeLeft"
  else if rightHeld s then "strafeRight"
  else "idle".

(** What the movement block of [animate] leaves in [currentMovement]: the
    last held direction in the order Forward, Back, Left, Right. *)
Definition lastHeld (s : State) : string :=
  if rightHeld s then "strafeRight"
  else if leftHeld s then "strafeLeft"
  else if backHeld s then "walkBack"
  else if forwardHeld s then "walkForward"
  else "".

(** ** Sample states and runs *)

(** Every asset arrives with its clip. *)
Definition allLoaded : list Step :=
  [ Deliver 10 (ZombieIdleLoaded true); Deliver 11 (ZombieDeathLoaded true);
    Deliver 12 (AnimationLoaded SSIdle true);
    Deliver 13 (AnimationLoaded SSAttack true);
    Deliver 14 (AnimationLoaded SSWalkForward true);
    Deliver 15 (AnimationLoaded SSWalkBack true);
    Deliver 16 (AnimationLoaded SSStrafeLeft true);
    Deliver 17 (AnimationLoaded SSStrafeRight true) ].

Definition loaded : State := default init (run init allLoaded).

(** The zombie stands [d] units from the player along the x axis. *)
Definition facing (d : float) : State :=
  set_zombieRef (Some (Vector3.mk d 0 0)) init.

(** With W and A held the player walks thirty frames towards the zombie and
    lets go. *)
Definition approach : list Step :=
  ([ Deliver 20 (KeyDown "KeyW"); Deliver 20 (KeyDown "KeyA") ]
   ++ repeat (Deliver 30 (AnimationFrame 0)) 30
   ++ [ Deliver 40 (KeyUp "KeyW"); Deliver 40 (KeyUp "KeyA") ])%list.

(** Everything loads, the player walks up and attacks; the hit timeout
    finds the zombie in range. *)
Definition kill : list Step :=
  (allLoaded ++ approach ++ [ Deliver 1000 (MouseDown 0); Expire ])%list.

(** The same run up to the click: an attack is going on, the hit timeout
    is next. *)
Definition beforeDeath : State :=
  default init (run init (allLoaded ++ approach ++ [ Deliver 1000 (MouseDown 0) ])%list).

Definition killed : State := default init (step beforeDeath Expire).

(** After the death: the attack ends, the player walks ten more frames
    towards the zombie, the orb appears, and E collects it. *)
Definition afterDeath : list Step :=
  ([ Expire; Deliver 2100 (KeyDown "KeyW"); Deliver 2100 (KeyDown "KeyA") ]
   ++ repeat (Deliver 2200 (AnimationFrame 0)) 10
   ++ [ Expire; Deliver 3400 (AnimationFrame 0); Deliver 3500 (KeyDown "KeyE");
        Deliver 3600 (AnimationFrame 0) ])%list.

Definition collected : State := default init (run killed afterDeath).

(** Only the zombie's base model has arrived; the player group walks up
    to it and attacks. *)
Definition earlyKill : list Step :=
  (Deliver 10 (ZombieIdleLoaded true) :: approach
   ++ [ Deliver 1000 (MouseDown 0); Expire ])%list.

(** The component is unmounted while the orb is still on its way. *)
Definition tornDown : State :=
  default init (run init (kill ++ [ Expire; Deliver 2500 Unmount ])%list).

(** All tracks loaded, W and D held, no attack going on. *)
Definition diagonal : State :=
  handleKeyDown "KeyD" (handleKeyDown "KeyW" loaded).

(** ** The invariant of the reachable states *)

(** Reachable by any run, whether or not the host keeps to its discipline:
    a timeout that runs late is a run too. *)
Definition reachable (s : State) : Prop := ∃ steps, run init steps = Some s.

Definition zombieHome : Vector3.t := Vector3.mk (-5) 0 (-5).

(** No action of the table has its clamp flag set. *)
Definition unclamped (m : gmap string AnimationAction.t) : Prop :=
  map_Forall (λ _ a, AnimationAction.clampWhenFinished a = false) m.

Record Inv (s : State) : Prop := {
  (* the queue is in running order *)
  inv_queued : queued (timers s);
  (* the player group is there from the start *)
  inv_player : is_Some (playerRef s);
  (* the zombie never leaves the place it was loaded at *)
  inv_home : ∀ p, zombieRef s = Some p → p = zombieHome;
  (* only a loaded zombie dies *)
  inv_dead : zombieStateRef s = dead → is_Some (zombieRef s);
  (* no orb, and none on its way, while the zombie lives *)
  inv_alive : zombieStateRef s = alive →
              glowingOrbRef s = None ∧ sceneOrbs s = 0%nat ∧ orbDues (timers s) = [];
  (* an orb on its way means a dead zombie, and one orb at most *)
  inv_orb : (length (orbDues (timers s)) + sceneOrbs s ≤ 1)%nat
            ∧ (sceneOrbs s = 0%nat ↔ glowingOrbRef s = None);
  (* one return-to-idle timeout is pending during an attack, none outside *)
  inv_attack : length (resumeDues (timers s))
               = if isAttackingRef s then 1%nat else 0%nat;
  (* until the sixth animation file arrives there are no actions *)
  inv_loading : (loadedAnimations s < totalAnimations)%nat →
                actionsRef s = ∅ ∧ currentActionRef s = "idle";
  (* nothing sets the clamp flag of a player action *)
  inv_clamp : unclamped (actionsRef s)
}.

(** ** The orb after the zombie's death

    The stages a state can be in once the zombie has died at time [T]: the
    orb is on its way, it floats in the scene, it has been collected. *)

Record Awaited (T : Z) (s : State) : Prop := {
  aw_dues : orbDues (timers s) = [T + 2000];
  aw_orb : glowingOrbRef s = None;
  aw_scene : sceneOrbs s = 0%nat
}.

Record Present (T : Z) (s : State) : Prop := {
  pr_dues : orbDues (timers s) = [];
  pr_now : T + 2000 ≤ now s;
  pr_orb : is_Some (glowingOrbRef s);
  pr_scene : sceneOrbs s = 1%nat
}.

Record Collected (T : Z) (s : State) : Prop := {
  co_dues : orbDues (timers s) = [];
  co_now : T + 2000 ≤ now s;
  co_orb : glowingOrbRef s = None;
  co_scene : sceneOrbs s = 0%nat
}.

(** What a run that starts with the zombie's death at time [T] has seen of
    the orb when it ends in [s]: [sp] lists the orbs that entered the scene,
    with the time at which each did, and [pk] the times at which the player
    collected.  The orb enters at [t], not before [T + 2000]; a host that
    runs its timeouts late makes [t] later. *)
Inductive OrbHistory (T : Z) (place : Vector3.t)
    (sp : list (Z * option Vector3.t)) (pk : list Z) (s : State) : Prop :=
| OnItsWay :
    sp = [] → pk = [] → Awaited T s → OrbHistory T place sp pk s
| InTheScene (t : Z) :
    sp = [(t, Some place)] → T + 2000 ≤ t → pk = [] → Present T s →
    OrbHistory T place sp pk s
| PickedUp (t t' : Z) :
    sp = [(t, Some place)] → T + 2000 ≤ t → pk = [t'] → t ≤ t' → Collected T s →
    OrbHistory T place sp pk s.

(** The orb's place: the zombie's, one unit higher. *)
Definition above (p : Vector3.t) : Vector3.t :=
  Vector3.mk (Vector3.x p) (Vector3.y p + 1)%float (Vector3.z p).

(** ** The player's files, in the order they arrive *)

#[global] Instance PlayerAsset_eq_dec : EqDecision PlayerAsset.
Proof. solve_decision. Defined.

(** The success callbacks of [loadAnimation] for [files], run one after the
    other; each file comes with or without a clip. *)
Definition loadAll (files : list (PlayerAsset * bool)) (s : State) : State :=
  foldl (λ s f, loadAnimation f.1 f.2 s) s files.

(** The names that [files] push on [animationClips]. *)
Fixpoint clipNames (files : list (PlayerAsset * bool)) : list string :=
  match files with
  | [] => []
  | (a, true) :: files => animationName a :: clipNames files
  | (_, false) :: files => clipNames files
  end.

(** ** What the handlers keep *)

(** The last fade requested of an action is a fade-out. *)
Definition fadingOut (a : AnimationAction.t) : bool :=
  match AnimationAction.fading a with
  | Some (AnimationAction.FadeOut _) => true
  | _ => false
  end.

(** One track at a time: the action under the current name has been
    started and is not fading out; every other action either was never
    started or is fading out. *)
Definition OneTrack (current : string) (m : gmap string AnimationAction.t) : Prop :=
  ∀ name a, m !! name = Some a →
    if decide (name = current)
    then AnimationAction.scheduled a = true ∧ fadingOut a = false
    else AnimationAction.scheduled a = false ∨ fadingOut a = true.

(** Straight above or below the zombie's place. *)
Definition aboveHome (o : Vector3.t) : Prop :=
  Vector3.x o = Vector3.x zombieHome ∧ Vector3.z o = Vector3.z zombieHome.

Record Kept (s : State) : Prop := {
  (* no mixer before the sixth animation file *)
  kept_mixer : (loadedAnimations s < totalAnimations)%nat → mixerRef s = false;
  (* no zombie mixer and no zombie action before both of its files *)
  kept_zombie : (loadedCount s < totalZombieAnimations)%nat ∨ zombieRef s = None →
                zombieActionsRef s = ∅ ∧ zombieMixerRef s = false;
  (* one track at a time, while the component is mounted *)
  kept_track : listening s = true → OneTrack (currentActionRef s) (actionsRef s);
  (* the prompt is shown only with the orb in reach *)
  kept_prompt : showPickupPrompt s = true → checkOrbProximity s = true;
  (* the player walks on the plane y = 0 *)
  kept_ground : ∀ p, playerRef s = Some p → Vector3.y p = 0%float;
  (* the orb floats straight above the zombie's place *)
  kept_column : ∀ o, glowingOrbRef s = Some o → aboveHome o
}.

(** The pending timeouts of an attack, in the order in which they will
    run. *)
Fixpoint attackCalls (q : list (Z * Callback)) : list Callback :=
  match q with
  | [] => []
  | (_, CreateOrbTimeout) :: q => attackCalls q
  | (_, cb) :: q => cb :: attackCalls q
  end.

(** During an attack its hit check and its return to idle are pending, the
    hit check first, or the return to idle alone; outside an attack
    neither. *)
Definition Armed (s : State) : Prop :=
  if isAttackingRef s
  then attackCalls (timers s) = [CheckHitTimeout; ReturnToIdleTimeout]
       ∨ attackCalls (timers s) = [ReturnToIdleTimeout]
  else attackCalls (timers s) = [].

(** ** The loading overlay

    The component's React state [isLoading] and [loadingProgress], the
    closure variable [loadedAssets], and the pending
    [() => setIsLoading(false)] timeouts by due time, around the scene. *)

Definition totalAssets : nat := 9.

Record Page := {
  scene : State;
  loadedAssets : nat;
  loadingProgress : float;
  isLoading : bool;
  hideTimers : list Z
}.

(** A counter read as a JavaScript number. *)
Definition toNumber (n : nat) : float := of_uint63 (Uint63.of_Z (Z.of_nat n)).

(** [(loadedAssets / totalAssets) * 100]. *)
Definition progressOf (n : nat) : float :=
  (toNumber n / toNumber totalAssets * 100)%float.

(** [updateLoadingProgress]; React ignores [setLoadingProgress] once the
    component is unmounted. *)
Definition updateLoadingProgress (p : Page) : Page :=
  let n := S (loadedAssets p) in
  {| scene := scene p;
     loadedAssets := n;
     loadingProgress := progressOf n;
     isLoading := isLoading p;
     hideTimers := if (totalAssets <=? n)%nat
                   then hideTimers p ++ [now (scene p) + 500]
                   else hideTimers p |}.

(** The scene's success callbacks that end with a call of
    [updateLoadingProgress]: the player's six files and the zombie's base
    model.  The zombie's death file does not report. *)
Definition reports (st : Step) : bool :=
  match st with
  | Deliver _ (AnimationLoaded _ _) => true
  | Deliver _ (ZombieIdleLoaded _) => true
  | _ => false
  end.

(** A step of the page: a step of the scene; the skybox arriving or
    failing, which both report; the oak trees arriving, which report; the
    pine trees arriving, which do not; or the first pending hide timeout
    expiring.  What the skybox and the trees do to the scene graph is
    presentation. *)
Inductive PageStep :=
| InScene (st : Step)
| SkyboxLoaded (t : Z)
| SkyboxFailed (t : Z)
| OakTreesLoaded (t : Z)
| PineTreesLoaded (t : Z)
| HideOverlay.

Definition at_time (t : Z) (p : Page) : Page :=
  {| scene := set_now (Z.max (now (scene p)) t) (scene p);
     loadedAssets := loadedAssets p;
     loadingProgress := loadingProgress p;
     isLoading := isLoading p;
     hideTimers := hideTimers p |}.

Definition pageStep (p : Page) (st : PageStep) : option Page :=
  match st with
  | InScene st =>
      s' ← step (scene p) st;
      let p' := {| scene := s'; loadedAssets := loadedAssets p;
                   loadingProgress := loadingProgress p;
                   isLoading := isLoading p; hideTimers := hideTimers p |} in
      Some (if reports st then updateLoadingProgress p' else p')
  | SkyboxLoaded t => Some (updateLoadingProgress (at_time t p))
  | SkyboxFailed t => Some (updateLoadingProgress (at_time t p))
  | OakTreesLoaded t => Some (updateLoadingProgress (at_time t p))
  | PineTreesLoaded t => Some (at_time t p)
  | HideOverlay =>
      match hideTimers p with
      | [] => Some p
      | due :: rest =>
          Some {| scene := set_now (Z.max (now (scene p)) due) (scene p);
                  loadedAssets := loadedAssets p;
                  loadingProgress := loadingProgress p;
                  isLoading := false;
                  hideTimers := rest |}
      end
  end.

Fixpoint pageRun (p : Page) (steps : list PageStep) : option Page :=
  match steps with
  | [] => Some p
  | st :: steps => p' ← pageStep p st; pageRun p' steps
  end.





(** ** More sample states and runs *)

(** As [allLoaded], but the idle file comes without a clip. *)
Definition noIdle : list Step :=
  [ Deliver 10 (ZombieIdleLoaded true); Deliver 11 (ZombieDeathLoaded true);
    Deliver 12 (AnimationLoaded SSIdle false);
    Deliver 13 (AnimationLoaded SSAttack true);
    Deliver 14 (AnimationLoaded SSWalkForward true);
    Deliver 15 (AnimationLoaded SSWalkBack true);
    Deliver 16 (AnimationLoaded SSStrafeLeft true);
    Deliver 17 (AnimationLoaded SSStrafeRight true) ].

(** In that scene, an attack from the click to the return to idle. *)
Definition stuck : State :=
  default init (run init (noIdle ++ [ Deliver 1000 (MouseDown 0); Expire; Expire ])%list).

(** The six files of the player, in the order of the [loadAnimation] calls
    and in another. *)
Definition sixFiles : list (PlayerAsset * bool) :=
  [ (SSIdle, true); (SSAttack, true); (SSWalkForward, true);
    (SSWalkBack, false); (SSStrafeLeft, true); (SSStrafeRight, true) ].

Definition sixFiles' : list (PlayerAsset * bool) :=
  [ (SSStrafeRight, true); (SSWalkBack, false); (SSAttack, true);
    (SSIdle, true); (SSStrafeLeft, true); (SSWalkForward, true) ].

(** The orb floats in the scene and the player stands next to it. *)
Definition nearOrb : State :=
  default init (run killed [ Expire; Deliver 2100 (KeyDown "KeyW");
                             Deliver 2100 (KeyDown "KeyA") ]
                ≫= λ s, run s (repeat (Deliver 2200 (AnimationFrame 0)) 10
                               ++ [ Expire; Deliver 3400 (AnimationFrame 0) ])%list).


(** Only the zombie's base model has arrived; the player group has walked
    up to it. *)
Definition zombieOnly : State :=
  default init (run init (Deliver 10 (ZombieIdleLoaded true) :: approach)).

(** In the scene without an idle clip, an attack is going on. *)
Definition midAttack : State :=
  default init (run init (noIdle ++ [ Deliver 1000 (MouseDown 0) ])%list).

(** What the host still delivers after the unmount of [tornDown]: keys, a
    click, a frame, and the orb's timeout. *)
Definition afterUnmount : list Step :=
  [ Deliver 2600 (KeyDown "KeyW"); Deliver 2700 (MouseDown 0);
    Deliver 2800 (AnimationFrame 0); Expire; Deliver 3400 (KeyDown "KeyE") ].

(** The host is late: a frame at 5000 comes before the two timeouts that
    were due at 2000 and 3300. *)
Definition lateOrb : list Step :=
  [ Deliver 5000 (AnimationFrame 0); Expire; Expire ].

(** An attack before any of the player's files has arrived, with W held. *)
Definition earlyAttack : list Step :=
  [ Deliver 100 (KeyDown "KeyW"); Deliver 200 (MouseDown 0); Expire; Expire ].

(** In the scene without an idle clip, after the attack of [stuck]: W goes
    down, two frames pass, the player clicks again, another frame. *)
Definition whileStuck : list Step :=
  [ Deliver 2100 (KeyDown "KeyW"); Deliver 2200 (AnimationFrame 0);
    Deliver 2300 (AnimationFrame 0); Deliver 2400 (MouseDown 0);
    Deliver 2500 (AnimationFrame 0) ].

(** How many of the four directions are held. *)
Definition heldDirections (s : State) : nat :=
  (Nat.b2n (forwardHeld s) + Nat.b2n (backHeld s)
   + Nat.b2n (leftHeld s) + Nat.b2n (rightHeld s))%nat.

(** ** Frame lemmas

    Each handler writes a few refs.  [stable f set] says that the
    observation [f] does not depend on the field written by [set]; a
    handler's frame lemma lists the fields it writes. *)

Definition stable {A V : Type} (f : State → A) (set : V → State → State) : Prop :=
  ∀ v s, f (set v s) = f s.

Ltac stable := solve [ intros ? ?; reflexivity | assumption ].

Section Frames.
Context {A : Type} (f : State → A).

Lemma setTimeout_frame cb delay s :
  stable f set_timers → f (setTimeout cb delay s) = f s.
Proof. intros H. apply H. Qed.

Lemma setupAnimations_frame clips s :
  stable f set_mixerRef → stable f set_actionsRef → stable f set_currentActionRef →
  f (setupAnimations clips s) = f s.
Proof.
  intros Hm Ha Hc. unfold setupAnimations.
  case_bool_decide; rewrite ?Hc, ?Ha, ?Hm; reflexivity.
Qed.

Lemma playAnimation_frame name loop s :
  stable f set_actionsRef → stable f set_currentActionRef →
  f (playAnimation name loop s) = f s.
Proof.
  intros Ha Hc. unfold playAnimation.
  destruct (_ && _); [rewrite Hc, Ha|]; reflexivity.
Qed.

Lemma loadAnimation_frame a hasClip s :
  stable f set_animationClips → stable f set_loadedAnimations →
  stable f set_mixerRef → stable f set_actionsRef → stable f set_currentActionRef →
  f (loadAnimation a hasClip s) = f s.
Proof.
  intros Hl Hn Hm Ha Hc. unfold loadAnimation.
  case_bool_decide; rewrite ?setupAnimations_frame by assumption;
    rewrite Hn; destruct hasClip; rewrite ?Hl; reflexivity.
Qed.

Lemma setupZombieAnimations_frame s :
  stable f set_zombieActionsRef → stable f set_zombieMixerRef →
  f (setupZombieAnimations s) = f s.
Proof.
  intros Ha Hm. unfold setupZombieAnimations.
  destruct (_ && _); [rewrite Ha, Hm|]; reflexivity.
Qed.

Lemma zombieIdleLoaded_frame hasClip s :
  stable f set_zombieAnimations → stable f set_zombieRef → stable f set_loadedCount →
  stable f set_zombieActionsRef → stable f set_zombieMixerRef →
  f (zombieIdleLoaded hasClip s) = f s.
Proof.
  intros Hz Hr Hn Ha Hm. unfold zombieIdleLoaded.
  rewrite setupZombieAnimations_frame, Hn, Hr by assumption.
  destruct hasClip; rewrite ?Hz; reflexivity.
Qed.

Lemma zombieDeathLoaded_frame hasClip s :
  stable f set_zombieAnimations → stable f set_loadedCount →
  stable f set_zombieActionsRef → stable f set_zombieMixerRef →
  f (zombieDeathLoaded hasClip s) = f s.
Proof.
  intros Hz Hn Ha Hm. unfold zombieDeathLoaded.
  rewrite setupZombieAnimations_frame, Hn by assumption.
  destruct hasClip; rewrite ?Hz; reflexivity.
Qed.

Lemma createGlowingOrb_frame p s :
  stable f set_glowingOrbRef → stable f set_sceneOrbs →
  f (createGlowingOrb p s) = f s.
Proof. intros Hg Hn. unfold createGlowingOrb. rewrite Hg, Hn. reflexivity. Qed.

Lemma killZombie_frame s :
  stable f set_zombieStateRef → stable f set_zombieActionsRef → stable f set_timers →
  f (killZombie s) = f s.
Proof.
  intros Hs Ha Ht. unfold killZombie.
  destruct (zombieStateRef s); [|reflexivity]. cbn.
  destruct (zombieRef s); rewrite ?setTimeout_frame by assumption;
    rewrite Ha, Hs; reflexivity.
Qed.

Lemma pickupOrb_frame s :
  stable f set_showPickupPrompt → stable f set_glowingOrbRef → stable f set_sceneOrbs →
  f (pickupOrb s) = f s.
Proof.
  intros Hp Hg Hn. unfold pickupOrb.
  destruct (glowingOrbRef s); [rewrite Hp, Hg, Hn|]; reflexivity.
Qed.

Lemma handleKeyDown_frame code s :
  stable f set_keysRef →
  stable f set_showPickupPrompt → stable f set_glowingOrbRef → stable f set_sceneOrbs →
  f (handleKeyDown code s) = f s.
Proof.
  intros Hk Hp Hg Hn. unfold handleKeyDown.
  destruct (_ && _); rewrite ?pickupOrb_frame by assumption; apply Hk.
Qed.

Lemma handleKeyUp_frame code s :
  stable f set_keysRef → f (handleKeyUp code s) = f s.
Proof. intros Hk. apply Hk. Qed.

Lemma checkHitTimeout_frame s :
  stable f set_zombieStateRef → stable f set_zombieActionsRef → stable f set_timers →
  f (checkHitTimeout s) = f s.
Proof.
  intros Hs Ha Ht. unfold checkHitTimeout.
  destruct (checkHit s); [apply killZombie_frame; assumption | reflexivity].
Qed.

Lemma returnToIdleTimeout_frame s :
  stable f set_isAttackingRef → stable f set_actionsRef → stable f set_currentActionRef →
  f (returnToIdleTimeout s) = f s.
Proof.
  intros Hi Ha Hc. unfold returnToIdleTimeout.
  repeat case_match; rewrite playAnimation_frame by assumption; apply Hi.
Qed.

Lemma handleMouseClick_frame button s :
  stable f set_isAttackingRef → stable f set_actionsRef → stable f set_currentActionRef →
  stable f set_timers →
  f (handleMouseClick button s) = f s.
Proof.
  intros Hi Ha Hc Ht. unfold handleMouseClick.
  destruct (_ && _); [|reflexivity].
  rewrite !setTimeout_frame, playAnimation_frame by assumption. apply Hi.
Qed.

Lemma animate_frame sinTime s :
  stable f set_glowingOrbRef → stable f set_playerRef →
  stable f set_actionsRef → stable f set_currentActionRef →
  stable f set_showPickupPrompt →
  f (animate sinTime s) = f s.
Proof.
  intros Hg Hp Ha Hc Hs. unfold animate.
  set (s1 := match glowingOrbRef s with Some _ => _ | None => s end).
  assert (H1 : f s1 = f s) by (subst s1; destruct (glowingOrbRef s); [apply Hg|reflexivity]).
  destruct (playerRef s1); [|assumption].
  rewrite Hs.
  repeat case_match; rewrite ?playAnimation_frame by assumption; rewrite Hp; assumption.
Qed.

Lemma cleanup_frame s :
  stable f set_listening → stable f set_actionsRef → stable f set_zombieActionsRef →
  f (cleanup s) = f s.
Proof.
  intros Hl Ha Hz. unfold cleanup.
  repeat case_match; rewrite ?Hz, ?Ha; apply Hl.
Qed.

End Frames.

(** ** The combat resolver *)

(** C1.  With both objects present, [checkHit] answers true exactly when
    the Euclidean distance between the two positions, the square root of
    the sum of the squared coordinate differences, is at most 3.0 and the
    zombie is alive; once the zombie is dead it answers false whatever the
    distance. *)
Theorem checkHit_spec (s : State) (p z : Vector3.t) :
  playerRef s = Some p →
  zombieRef s = Some z →
  (checkHit s = true ↔
     (sqrt ((Vector3.x p - Vector3.x z) * (Vector3.x p - Vector3.x z)
            + (Vector3.y p - Vector3.y z) * (Vector3.y p - Vector3.y z)
            + (Vector3.z p - Vector3.z z) * (Vector3.z p - Vector3.z z))
      <=? 3)%float = true
     ∧ zombieStateRef s = alive)
  ∧ (zombieStateRef s = dead → checkHit s = false).
Proof.
  intros Hp Hz. unfold checkHit, hitRange. rewrite Hp, Hz.
  change (Vector3.distanceTo p z)
    with (sqrt ((Vector3.x p - Vector3.x z) * (Vector3.x p - Vector3.x z)
                + (Vector3.y p - Vector3.y z) * (Vector3.y p - Vector3.y z)
                + (Vector3.z p - Vector3.z z) * (Vector3.z p - Vector3.z z)))%float.
  destruct (zombieStateRef s); split.
  - split; [intros H; split; [exact H | reflexivity] | intros [H _]; exact H].
  - discriminate.
  - split; [discriminate | intros [_ H]; discriminate H].
  - reflexivity.
Qed.

Lemma checkHit_spec_witness :
  (checkHit (facing 2) = true ↔
     (sqrt ((0 - 2) * (0 - 2) + (0 - 0) * (0 - 0) + (0 - 0) * (0 - 0)) <=? 3)%float = true
     ∧ zombieStateRef (facing 2) = alive)
  ∧ (zombieStateRef (facing 2) = dead → checkHit (facing 2) = false).
Proof.
  apply (checkHit_spec (facing 2) (Vector3.mk 0 0 0) (Vector3.mk 2 0 0));
    reflexivity.
Defined.

(** Scenarios A and B of the specification, and the boundary. *)
Example checkHit_at_2 : checkHit (facing 2) = true.
Proof. reflexivity. Qed.

Example checkHit_at_5 : checkHit (facing 5) = false.
Proof. reflexivity. Qed.

Example checkHit_at_3 : checkHit (facing 3) = true.
Proof. reflexivity. Qed.

Example checkHit_dead_at_2 : checkHit (set_zombieStateRef dead (facing 2)) = false.
Proof. reflexivity. Qed.

Lemma checkHit_absent (s : State) :
  playerRef s = None ∨ zombieRef s = None → checkHit s = false.
Proof.
  unfold checkHit. intros [H | H]; rewrite H; [reflexivity|].
  destruct (playerRef s); reflexivity.
Qed.

(** ** The animation track player *)

Lemma playAnimation_absent (name : string) (loop : bool) (s : State) :
  actionsRef s !! name = None → playAnimation name loop s = s.
Proof.
  intros H. unfold playAnimation.
  rewrite bool_decide_eq_false_2; [reflexivity|].
  rewrite H. intros [a Ha]. discriminate Ha.
Qed.

Lemma playAnimation_same (loop : bool) (s : State) :
  playAnimation (currentActionRef s) loop s = s.
Proof.
  unfold playAnimation.
  rewrite (bool_decide_eq_false_2 (currentActionRef s ≠ currentActionRef s)).
  - rewrite andb_false_r. reflexivity.
  - intros H. apply H. reflexivity.
Qed.

(** When the requested track exists it becomes the current one. *)
Lemma playAnimation_current (name : string) (loop : bool) (s : State) :
  is_Some (actionsRef s !! name) →
  currentActionRef (playAnimation name loop s) = name.
Proof.
  intros H. unfold playAnimation.
  rewrite (bool_decide_eq_true_2 _ H). cbn.
  case_bool_decide as Hne; cbn; [reflexivity|].
  destruct (decide (currentActionRef s = name)) as [E|E]; [exact E|].
  contradiction.
Qed.

(** C6.  [playAnimation] with the name of the current animation changes
    nothing, whatever the name and the loop flag: the state, and with it
    every action's fade, is the same afterwards.  Hence playing a name twice
    is the same as playing it once. *)
Theorem playAnimation_idempotent :
  (∀ (loop : bool) (s : State), playAnimation (currentActionRef s) loop s = s)
  ∧ (∀ (name : string) (loop loop' : bool) (s : State),
       playAnimation name loop' (playAnimation name loop s)
       = playAnimation name loop s).
Proof.
  split; [exact playAnimation_same|].
  intros name loop loop' s.
  destruct (actionsRef s !! name) as [a|] eqn:Ha.
  - destruct (decide (currentActionRef s = name)) as [E|E].
    + subst name. rewrite !playAnimation_same. reflexivity.
    + assert (Hc : currentActionRef (playAnimation name loop s) = name)
        by (apply playAnimation_current; rewrite Ha; eauto).
      rewrite <- Hc at 1. apply playAnimation_same.
  - rewrite (playAnimation_absent name loop s) by assumption.
    apply playAnimation_absent. assumption.
Qed.

(** C7.  A request for a name without an action in the table does
    nothing: no fade starts and the current animation stays. *)
Theorem playAnimation_missing_track (name : string) (loop : bool) (s : State) :
  actionsRef s !! name = None →
  playAnimation name loop s = s
  ∧ currentActionRef (playAnimation name loop s) = currentActionRef s
  ∧ actionsRef (playAnimation name loop s) = actionsRef s.
Proof.
  intros H. rewrite playAnimation_absent by assumption. auto.
Qed.

Lemma playAnimation_missing_track_witness :
  playAnimation "walkForward" true init = init
  ∧ currentActionRef (playAnimation "walkForward" true init) = currentActionRef init
  ∧ actionsRef (playAnimation "walkForward" true init) = actionsRef init.
Proof.
  apply (playAnimation_missing_track "walkForward" true init). reflexivity.
Defined.

(** ** What a step can change *)

Ltac frame :=
  first
    [ reflexivity
    | apply handleKeyDown_frame; stable
    | apply handleKeyUp_frame; stable
    | apply handleMouseClick_frame; stable
    | apply animate_frame; stable
    | apply loadAnimation_frame; stable
    | apply zombieIdleLoaded_frame; stable
    | apply zombieDeathLoaded_frame; stable
    | apply cleanup_frame; stable
    | apply checkHitTimeout_frame; stable
    | apply returnToIdleTimeout_frame; stable
    | apply createGlowingOrb_frame; stable
    | apply killZombie_frame; stable
    | apply playAnimation_frame; stable
    | apply pickupOrb_frame; stable
    | apply setTimeout_frame; stable ].

Ltac if_listening :=
  try match goal with
      | |- context [if listening ?s then _ else _] => destruct (listening s)
      end.

Ltac by_event e := destruct e; cbn [dispatch]; if_listening; try frame.

(** Events never touch the zombie's state; only the hit timeout does. *)
Lemma dispatch_zombieStateRef (e : Event) (s : State) :
  zombieStateRef (dispatch e s) = zombieStateRef s.
Proof. by_event e. Qed.

Lemma dispatch_now (e : Event) (s : State) : now (dispatch e s) = now s.
Proof. by_event e. Qed.

Lemma killZombie_zombieStateRef (s : State) : zombieStateRef (killZombie s) = dead.
Proof.
  unfold killZombie. destruct (zombieStateRef s) eqn:E; [|exact E].
  cbn. destruct (zombieRef s); reflexivity.
Qed.

Lemma callback_zombieStateRef (cb : Callback) (s s' : State) :
  callback cb s = Some s' →
  zombieStateRef s' = zombieStateRef s
  ∨ (cb = CheckHitTimeout ∧ checkHit s = true
     ∧ zombieStateRef s = alive ∧ s' = killZombie s).
Proof.
  destruct cb; cbn; intros H.
  - injection H as <-. unfold checkHitTimeout.
    destruct (checkHit s) eqn:E; [|left; reflexivity].
    right. repeat split; try reflexivity.
    unfold checkHit in E. destruct (playerRef s), (zombieRef s), (zombieStateRef s);
      first [reflexivity | discriminate E].
  - injection H as <-. left. frame.
  - unfold createOrbTimeout in H. destruct (zombieRef s); [|discriminate H].
    injection H as <-. left. frame.
Qed.

(** A step either keeps the zombie's state or is the expiry of a hit
    timeout that found the living zombie in range. *)
Lemma step_zombieStateRef (s s' : State) (st : Step) :
  step s st = Some s' →
  zombieStateRef s' = zombieStateRef s
  ∨ (zombieStateRef s = alive ∧ zombieStateRef s' = dead
     ∧ ∃ due rest, st = Expire ∧ timers s = (due, CheckHitTimeout) :: rest
        ∧ s' = killZombie (set_now (Z.max (now s) due) (set_timers rest s))
        ∧ checkHit s = true).
Proof.
  destruct st as [|t e]; cbn.
  - destruct (timers s) as [|[due cb] rest] eqn:Ht.
    + intros [= <-]. left. reflexivity.
    + intros H. apply callback_zombieStateRef in H as [H | (-> & Hc & Ha & ->)].
      * left. exact H.
      * right. cbn in Ha. split; [exact Ha|]. split; [apply killZombie_zombieStateRef|].
        exists due, rest. repeat split. exact Hc.
  - intros [= <-]. left. rewrite dispatch_zombieStateRef. reflexivity.
Qed.

(** *** The timer queue *)

Lemma enqueue_queued (t : Z * Callback) (q : list (Z * Callback)) :
  queued q → queued (enqueue t q).
Proof.
  unfold queued. induction q as [|u q IH]; intros Hq; cbn.
  - repeat constructor.
  - inversion Hq as [|? ? Hq' Hu]; subst.
    destruct (Z.ltb_spec (t.1) (u.1)) as [Hlt|Hge].
    + constructor; [exact Hq|]. constructor; [lia|].
      eapply Forall_impl; [exact Hu|]. cbn. intros; lia.
    + constructor; [apply IH; exact Hq'|].
      clear IH Hq Hq'. induction q as [|v q IH]; cbn.
      * constructor; [lia | constructor].
      * inversion Hu; subst. destruct (t.1 <? v.1); repeat constructor; auto.
Qed.

Lemma orbDues_enqueue_other (due : Z) (cb : Callback) (q : list (Z * Callback)) :
  cb ≠ CreateOrbTimeout → orbDues (enqueue (due, cb) q) = orbDues q.
Proof.
  intros Hcb. induction q as [|[d c] q IH]; cbn.
  - destruct cb; congruence.
  - destruct (due <? d); cbn.
    + destruct cb; congruence.
    + destruct c; rewrite IH; reflexivity.
Qed.

Lemma orbDues_enqueue_orb (due : Z) (q : list (Z * Callback)) :
  orbDues q = [] → orbDues (enqueue (due, CreateOrbTimeout) q) = [due].
Proof.
  induction q as [|[d c] q IH]; cbn; [reflexivity|].
  intros H. destruct (due <? d); cbn.
  - rewrite H. reflexivity.
  - destruct c; first [apply IH; exact H | discriminate H].
Qed.

Lemma resumeDues_enqueue_other (due : Z) (cb : Callback) (q : list (Z * Callback)) :
  cb ≠ ReturnToIdleTimeout → resumeDues (enqueue (due, cb) q) = resumeDues q.
Proof.
  intros Hcb. induction q as [|[d c] q IH]; cbn.
  - destruct cb; congruence.
  - destruct (due <? d); cbn.
    + destruct cb; congruence.
    + destruct c; rewrite IH; reflexivity.
Qed.

Lemma resumeDues_enqueue_resume (due : Z) (q : list (Z * Callback)) :
  length (resumeDues (enqueue (due, ReturnToIdleTimeout) q))
  = S (length (resumeDues q)).
Proof.
  induction q as [|[d c] q IH]; cbn; [reflexivity|].
  destruct (due <? d); cbn; [reflexivity|].
  destruct c; cbn; rewrite IH; reflexivity.
Qed.

Lemma handleMouseClick_timers (button : Z) (s : State) :
  timers (handleMouseClick button s)
  = if bool_decide (button = 0) && negb (isAttackingRef s)
    then enqueue (now s + 1000, ReturnToIdleTimeout)
           (enqueue (now s + 300, CheckHitTimeout) (timers s))
    else timers s.
Proof.
  unfold handleMouseClick. destruct (_ && _); [|reflexivity].
  unfold setTimeout at 1. cbn [timers set_timers].
  rewrite (setTimeout_frame now) by stable.
  unfold setTimeout. cbn [timers set_timers].
  rewrite (playAnimation_frame now), (playAnimation_frame timers) by stable.
  reflexivity.
Qed.

Lemma dispatch_queued (e : Event) (s : State) :
  queued (timers s) → queued (timers (dispatch e s)).
Proof.
  intros Hq.
  destruct e; cbn [dispatch]; if_listening;
    try (replace (timers _) with (timers s) by (symmetry; frame); exact Hq).
  rewrite handleMouseClick_timers.
  destruct (_ && _); [|exact Hq]. do 2 apply enqueue_queued. exact Hq.
Qed.

Lemma dispatch_orbDues (e : Event) (s : State) :
  orbDues (timers (dispatch e s)) = orbDues (timers s).
Proof.
  destruct e; cbn [dispatch]; if_listening;
    try (replace (timers _) with (timers s) by (symmetry; frame); reflexivity).
  rewrite handleMouseClick_timers.
  destruct (_ && _); [|reflexivity].
  rewrite !orbDues_enqueue_other by discriminate. reflexivity.
Qed.

Lemma killZombie_timers (s : State) :
  timers (killZombie s)
  = match zombieStateRef s, zombieRef s with
    | alive, Some _ => enqueue (now s + 2000, CreateOrbTimeout) (timers s)
    | _, _ => timers s
    end.
Proof.
  unfold killZombie. destruct (zombieStateRef s); [|reflexivity].
  cbn. destruct (zombieRef s); reflexivity.
Qed.

Lemma callback_queued (cb : Callback) (s s' : State) :
  callback cb s = Some s' → queued (timers s) → queued (timers s').
Proof.
  destruct cb; cbn; intros H Hq.
  - injection H as <-. unfold checkHitTimeout. destruct (checkHit s); [|exact Hq].
    rewrite killZombie_timers. repeat case_match; try exact Hq.
    apply enqueue_queued. exact Hq.
  - injection H as <-. replace (timers _) with (timers s) by (symmetry; frame). exact Hq.
  - unfold createOrbTimeout in H. destruct (zombieRef s); [|discriminate H].
    injection H as <-. exact Hq.
Qed.

Lemma step_queued (s s' : State) (st : Step) :
  step s st = Some s' → queued (timers s) → queued (timers s').
Proof.
  destruct st as [|t e]; cbn.
  - destruct (timers s) as [|[due cb] rest] eqn:Ht.
    + intros [= <-] Hq. rewrite Ht. exact Hq.
    + intros H Hq. eapply callback_queued; [exact H|]. cbn.
      inversion Hq; assumption.
  - intros [= <-] Hq. apply dispatch_queued. exact Hq.
Qed.

(** *** The object references *)

Lemma dispatch_zombieRef (e : Event) (s : State) :
  zombieRef (dispatch e s)
  = match e with
    | ZombieIdleLoaded _ => Some zombieHome
    | _ => zombieRef s
    end.
Proof.
  by_event e.
  unfold zombieIdleLoaded.
  rewrite (setupZombieAnimations_frame zombieRef) by stable. reflexivity.
Qed.

Lemma callback_zombieRef (cb : Callback) (s s' : State) :
  callback cb s = Some s' → zombieRef s' = zombieRef s.
Proof.
  destruct cb; cbn.
  - intros [= <-]. frame.
  - intros [= <-]. frame.
  - unfold createOrbTimeout. destruct (zombieRef s) eqn:E; [|discriminate].
    intros [= <-]. rewrite (createGlowingOrb_frame zombieRef) by stable. exact E.
Qed.

Lemma step_zombieRef (s s' : State) (st : Step) :
  step s st = Some s' →
  zombieRef s' = zombieRef s ∨ zombieRef s' = Some zombieHome.
Proof.
  destruct st as [|t e]; cbn.
  - destruct (timers s) as [|[due cb] rest].
    + intros [= <-]. left. reflexivity.
    + intros H. left. apply callback_zombieRef in H. exact H.
  - intros [= <-]. rewrite dispatch_zombieRef. destruct e; auto.
Qed.

Lemma movement_frame (player : Vector3.t) (s s' : State) :
  isAttackingRef s' = isAttackingRef s → keysRef s' = keysRef s →
  movement player s' = movement player s.
Proof. intros Ha Hk. unfold movement, held. rewrite Ha, Hk. reflexivity. Qed.

Lemma animate_playerRef (sinTime : float) (s : State) :
  playerRef (animate sinTime s)
  = match playerRef s with
    | Some player => Some (position (movement player s))
    | None => None
    end.
Proof.
  unfold animate.
  set (s1 := match glowingOrbRef s with Some _ => _ | None => s end).
  assert (Hp : playerRef s1 = playerRef s) by (subst s1; destruct (glowingOrbRef s); reflexivity).
  assert (Ha : isAttackingRef s1 = isAttackingRef s)
    by (subst s1; destruct (glowingOrbRef s); reflexivity).
  assert (Hk : keysRef s1 = keysRef s) by (subst s1; destruct (glowingOrbRef s); reflexivity).
  rewrite Hp. destruct (playerRef s) as [player|] eqn:E; [|exact Hp].
  rewrite <- (movement_frame player s s1) by assumption.
  cbn [showPickupPrompt set_showPickupPrompt playerRef].
  repeat case_match; rewrite ?(playAnimation_frame playerRef) by stable; reflexivity.
Qed.

Lemma dispatch_playerRef (e : Event) (s : State) :
  is_Some (playerRef s) → is_Some (playerRef (dispatch e s)).
Proof.
  intros Hp.
  destruct e; cbn [dispatch]; if_listening;
    try (replace (playerRef _) with (playerRef s) by (symmetry; frame); exact Hp).
  rewrite animate_playerRef. destruct (playerRef s); [eauto | exact Hp].
Qed.

Lemma callback_playerRef (cb : Callback) (s s' : State) :
  callback cb s = Some s' → playerRef s' = playerRef s.
Proof.
  destruct cb; cbn.
  - intros [= <-]. frame.
  - intros [= <-]. frame.
  - unfold createOrbTimeout. destruct (zombieRef s); [|discriminate].
    intros [= <-]. frame.
Qed.

(** *** The range test *)

Lemma checkOrbProximity_frame (s s' : State) :
  playerRef s' = playerRef s → glowingOrbRef s' = glowingOrbRef s →
  checkOrbProximity s' = checkOrbProximity s.
Proof. intros Hp Ho. unfold checkOrbProximity. rewrite Hp, Ho. reflexivity. Qed.

Lemma checkOrbProximity_orb (s : State) :
  checkOrbProximity s = true → is_Some (glowingOrbRef s).
Proof.
  unfold checkOrbProximity. destruct (playerRef s), (glowingOrbRef s); eauto; discriminate.
Qed.

Lemma handleKeyDown_pickup (code : string) (s : State) :
  handleKeyDown code s
  = let s' := set_keysRef (<[code := true]> (keysRef s)) s in
    if bool_decide (code = "KeyE") && checkOrbProximity s then pickupOrb s' else s'.
Proof.
  unfold handleKeyDown. cbn zeta.
  rewrite (checkOrbProximity_frame s (set_keysRef _ s)) by reflexivity. reflexivity.
Qed.

(** *** The orb *)

Lemma animate_glowingOrbRef (sinTime : float) (s : State) :
  glowingOrbRef (animate sinTime s)
  = match glowingOrbRef s with
    | Some orb =>
        Some (Vector3.mk (Vector3.x orb)
                         (Vector3.y orb + sinTime * 0.002)%float
                         (Vector3.z orb))
    | None => None
    end.
Proof.
  unfold animate.
  set (s1 := match glowingOrbRef s with Some _ => _ | None => s end).
  assert (H1 : glowingOrbRef s1 = match glowingOrbRef s with
                                   | Some orb =>
                                       Some (Vector3.mk (Vector3.x orb)
                                               (Vector3.y orb + sinTime * 0.002)%float
                                               (Vector3.z orb))
                                   | None => None
                                   end)
    by (subst s1; destruct (glowingOrbRef s) eqn:E; [reflexivity | exact E]).
  rewrite <- H1. destruct (playerRef s1); [|reflexivity].
  cbn [glowingOrbRef set_showPickupPrompt].
  repeat case_match; rewrite ?(playAnimation_frame glowingOrbRef) by stable; reflexivity.
Qed.

(** An event leaves the number of orbs in the scene alone, or it is the E
    key collecting the orb. *)
Lemma dispatch_orb (e : Event) (s : State) :
  (sceneOrbs (dispatch e s) = sceneOrbs s
   ∧ (glowingOrbRef (dispatch e s) = None ↔ glowingOrbRef s = None))
  ∨ (is_Some (glowingOrbRef s) ∧ glowingOrbRef (dispatch e s) = None
     ∧ sceneOrbs (dispatch e s) = Nat.pred (sceneOrbs s)
     ∧ e = KeyDown "KeyE").
Proof.
  destruct e; cbn [dispatch]; if_listening;
    try (left; split;
         [ frame | replace (glowingOrbRef _) with (glowingOrbRef s) by (symmetry; frame);
                   reflexivity ]).
  - unfold handleKeyDown. case_bool_decide as Hc; cbn [andb].
    + destruct (checkOrbProximity _) eqn:Hn.
      * unfold checkOrbProximity in Hn. cbn in Hn.
        unfold pickupOrb. cbn.
        destruct (glowingOrbRef s) eqn:Hg; [|destruct (playerRef s); discriminate Hn].
        right. subst code. cbn. eauto.
      * left. cbn. split; reflexivity.
    + left. cbn. split; reflexivity.
  - left. split; [frame|]. rewrite animate_glowingOrbRef.
    destruct (glowingOrbRef s); split; congruence.
Qed.

Lemma callback_orb (cb : Callback) (s s' : State) :
  callback cb s = Some s' →
  match cb with
  | CreateOrbTimeout =>
      ∃ p, zombieRef s = Some p
           ∧ glowingOrbRef s'
             = Some (Vector3.mk (Vector3.x p) (Vector3.y p + 1)%float (Vector3.z p))
           ∧ sceneOrbs s' = S (sceneOrbs s)
  | _ => glowingOrbRef s' = glowingOrbRef s ∧ sceneOrbs s' = sceneOrbs s
  end.
Proof.
  destruct cb; cbn.
  - intros [= <-]. split; frame.
  - intros [= <-]. split; frame.
  - unfold createOrbTimeout. destruct (zombieRef s) as [p|]; [|discriminate].
    intros [= <-]. exists p. repeat split.
Qed.

(** *** The player's action table *)

Lemma playAnimation_empty (name : string) (loop : bool) (s : State) :
  actionsRef s = ∅ → playAnimation name loop s = s.
Proof. intros H. apply playAnimation_absent. rewrite H. apply lookup_empty. Qed.

Lemma returnToIdleTimeout_isAttackingRef (s : State) :
  isAttackingRef (returnToIdleTimeout s) = false.
Proof.
  unfold returnToIdleTimeout.
  repeat case_match; rewrite (playAnimation_frame isAttackingRef) by stable; reflexivity.
Qed.

(** The return-to-idle timeout ends the attack and asks the track player
    for the animation the resume rule names. *)
Lemma returnToIdleTimeout_request (s : State) :
  returnToIdleTimeout s
  = playAnimation (resumeState s) true (set_isAttackingRef false s).
Proof.
  unfold returnToIdleTimeout, resumeState, forwardHeld, backHeld, leftHeld, rightHeld.
  change (held ?k (set_isAttackingRef false s)) with (held k s).
  destruct (held "KeyW" s), (held "ArrowUp" s), (held "KeyS" s), (held "ArrowDown" s),
    (held "KeyA" s), (held "ArrowLeft" s), (held "KeyD" s), (held "ArrowRight" s);
    reflexivity.
Qed.

Lemma returnToIdleTimeout_resume (s : State) :
  is_Some (actionsRef s !! resumeState s) →
  currentActionRef (returnToIdleTimeout s) = resumeState s.
Proof.
  intros Hs. rewrite returnToIdleTimeout_request.
  apply playAnimation_current. exact Hs.
Qed.

Lemma returnToIdleTimeout_empty (s : State) :
  actionsRef s = ∅ → returnToIdleTimeout s = set_isAttackingRef false s.
Proof.
  intros H. unfold returnToIdleTimeout.
  repeat case_match; apply playAnimation_empty; exact H.
Qed.

Lemma handleMouseClick_empty (button : Z) (s : State) :
  actionsRef s = ∅ →
  actionsRef (handleMouseClick button s) = ∅
  ∧ currentActionRef (handleMouseClick button s) = currentActionRef s.
Proof.
  intros H. unfold handleMouseClick. destruct (_ && _); [|auto].
  rewrite !(setTimeout_frame actionsRef), !(setTimeout_frame currentActionRef) by stable.
  rewrite playAnimation_empty by exact H. auto.
Qed.

Lemma animate_empty (sinTime : float) (s : State) :
  actionsRef s = ∅ →
  actionsRef (animate sinTime s) = ∅
  ∧ currentActionRef (animate sinTime s) = currentActionRef s.
Proof.
  intros H. unfold animate.
  set (s1 := match glowingOrbRef s with Some _ => _ | None => s end).
  assert (H1 : actionsRef s1 = ∅) by (subst s1; destruct (glowingOrbRef s); exact H).
  assert (H2 : currentActionRef s1 = currentActionRef s)
    by (subst s1; destruct (glowingOrbRef s); reflexivity).
  rewrite <- H2. clearbody s1. clear H H2.
  destruct (playerRef s1); [|auto].
  cbn [actionsRef currentActionRef set_showPickupPrompt].
  repeat case_match; rewrite ?playAnimation_empty by exact H1; auto.
Qed.

Lemma loadAnimation_loadedAnimations (a : PlayerAsset) (hasClip : bool) (s : State) :
  loadedAnimations (loadAnimation a hasClip s) = S (loadedAnimations s).
Proof.
  unfold loadAnimation.
  case_bool_decide; rewrite ?(setupAnimations_frame loadedAnimations) by stable;
    destruct hasClip; reflexivity.
Qed.

Lemma loadAnimation_early (a : PlayerAsset) (hasClip : bool) (s : State) :
  S (loadedAnimations s) ≠ totalAnimations →
  actionsRef (loadAnimation a hasClip s) = actionsRef s
  ∧ currentActionRef (loadAnimation a hasClip s) = currentActionRef s.
Proof.
  intros H. unfold loadAnimation.
  rewrite bool_decide_eq_false_2; [destruct hasClip; auto|].
  destruct hasClip; exact H.
Qed.

Lemma dispatch_loading (e : Event) (s : State) :
  ((loadedAnimations s < totalAnimations)%nat →
   actionsRef s = ∅ ∧ currentActionRef s = "idle") →
  (loadedAnimations (dispatch e s) < totalAnimations)%nat →
  actionsRef (dispatch e s) = ∅ ∧ currentActionRef (dispatch e s) = "idle".
Proof.
  intros IH.
  destruct e; cbn [dispatch]; if_listening;
    try (replace (loadedAnimations _) with (loadedAnimations s) by (symmetry; frame);
         intros Hn; destruct (IH Hn) as [Ha Hc]).
  all: try (replace (actionsRef _) with (actionsRef s) by (symmetry; frame);
            replace (currentActionRef _) with (currentActionRef s) by (symmetry; frame);
            auto; fail).
  - destruct (handleMouseClick_empty button s Ha) as [-> ->]. auto.
  - destruct (animate_empty sinTime s Ha) as [-> ->]. auto.
  - rewrite loadAnimation_loadedAnimations. intros Hn.
    destruct (loadAnimation_early a hasClip s) as [-> ->]; [lia|].
    apply IH. lia.
  - unfold cleanup. cbn [mixerRef set_listening].
    destruct (mixerRef s); destruct (zombieMixerRef _); cbn; rewrite ?Ha, ?fmap_empty; auto.
Qed.

Lemma callback_loading (cb : Callback) (s s' : State) :
  callback cb s = Some s' →
  ((loadedAnimations s < totalAnimations)%nat →
   actionsRef s = ∅ ∧ currentActionRef s = "idle") →
  (loadedAnimations s' < totalAnimations)%nat →
  actionsRef s' = ∅ ∧ currentActionRef s' = "idle".
Proof.
  destruct cb; cbn.
  - intros [= <-] IH.
    rewrite (checkHitTimeout_frame loadedAnimations), (checkHitTimeout_frame actionsRef),
      (checkHitTimeout_frame currentActionRef) by stable. exact IH.
  - intros [= <-] IH.
    rewrite (returnToIdleTimeout_frame loadedAnimations) by stable.
    intros Hn. destruct (IH Hn) as [Ha Hc].
    rewrite returnToIdleTimeout_empty by exact Ha. auto.
  - unfold createOrbTimeout. destruct (zombieRef s); [|discriminate].
    intros [= <-] IH. exact IH.
Qed.

Lemma unclamped_alter (f : AnimationAction.t → AnimationAction.t) (name : string)
    (m : gmap string AnimationAction.t) :
  (∀ a, AnimationAction.clampWhenFinished (f a) = AnimationAction.clampWhenFinished a) →
  unclamped m → unclamped (alter f name m).
Proof.
  intros Hf Hm n a H. apply lookup_alter_Some in H as [(-> & x & Hx & ->) | (_ & H)].
  - rewrite Hf. exact (Hm _ _ Hx).
  - exact (Hm _ _ H).
Qed.

Lemma unclamped_fresh (clips : list string) (m : gmap string AnimationAction.t) :
  unclamped m →
  unclamped (foldl (λ acc name, <[name := AnimationAction.clipAction]> acc) m clips).
Proof.
  revert m. induction clips as [|c clips IH]; intros m Hm; cbn; [exact Hm|].
  apply IH. apply map_Forall_insert_2; [reflexivity | exact Hm].
Qed.

Lemma playAnimation_unclamped (name : string) (loop : bool) (s : State) :
  unclamped (actionsRef s) → unclamped (actionsRef (playAnimation name loop s)).
Proof.
  intros H. unfold playAnimation. destruct (_ && _); [|exact H].
  cbn. apply unclamped_alter; [reflexivity|].
  apply unclamped_alter; [reflexivity | exact H].
Qed.

Lemma setupAnimations_unclamped (clips : list string) (s : State) :
  unclamped (actionsRef (setupAnimations clips s)).
Proof.
  unfold setupAnimations. case_bool_decide; cbn.
  - apply unclamped_alter; [reflexivity|]. apply unclamped_fresh, map_Forall_empty.
  - apply unclamped_fresh, map_Forall_empty.
Qed.

Lemma dispatch_unclamped (e : Event) (s : State) :
  unclamped (actionsRef s) → unclamped (actionsRef (dispatch e s)).
Proof.
  intros H.
  destruct e; cbn [dispatch]; if_listening;
    try (replace (actionsRef _) with (actionsRef s) by (symmetry; frame); exact H).
  - unfold handleMouseClick. destruct (_ && _); [|exact H].
    rewrite !(setTimeout_frame actionsRef) by stable.
    apply playAnimation_unclamped. exact H.
  - unfold animate.
    set (s1 := match glowingOrbRef s with Some _ => _ | None => s end).
    assert (H1 : unclamped (actionsRef s1)) by (subst s1; destruct (glowingOrbRef s); exact H).
    clearbody s1. destruct (playerRef s1); [|exact H1].
    cbn [actionsRef set_showPickupPrompt].
    repeat case_match; try apply playAnimation_unclamped; exact H1.
  - unfold loadAnimation. case_bool_decide.
    + apply setupAnimations_unclamped.
    + destruct hasClip; exact H.
  - unfold cleanup. cbn [mixerRef set_listening zombieMixerRef].
    assert (H' : unclamped (AnimationAction.stop <$> actionsRef s)).
    { apply map_Forall_fmap. intros n a Ha. cbn. exact (H _ _ Ha). }
    destruct (mixerRef s); destruct (zombieMixerRef _); cbn; assumption.
Qed.

Lemma callback_unclamped (cb : Callback) (s s' : State) :
  callback cb s = Some s' → unclamped (actionsRef s) → unclamped (actionsRef s').
Proof.
  destruct cb; cbn.
  - intros [= <-] H. rewrite (checkHitTimeout_frame actionsRef) by stable. exact H.
  - intros [= <-] H. unfold returnToIdleTimeout.
    repeat case_match; apply playAnimation_unclamped; exact H.
  - unfold createOrbTimeout. destruct (zombieRef s); [|discriminate].
    intros [= <-] H. exact H.
Qed.

(** ** The invariant holds in every reachable state *)

Lemma Inv_init : Inv init.
Proof.
  split; cbn.
  - constructor.
  - eauto.
  - discriminate.
  - discriminate.
  - auto.
  - split; [lia | tauto].
  - reflexivity.
  - auto.
  - apply map_Forall_empty.
Qed.

Lemma dispatch_attack (e : Event) (s : State) :
  length (resumeDues (timers s)) = (if isAttackingRef s then 1%nat else 0%nat) →
  length (resumeDues (timers (dispatch e s)))
  = if isAttackingRef (dispatch e s) then 1%nat else 0%nat.
Proof.
  intros H.
  destruct e; cbn [dispatch]; if_listening;
    try (replace (timers _) with (timers s) by (symmetry; frame);
         replace (isAttackingRef _) with (isAttackingRef s) by (symmetry; frame);
         exact H).
  rewrite handleMouseClick_timers. unfold handleMouseClick.
  destruct (bool_decide (button = 0) && negb (isAttackingRef s)) eqn:E; [|exact H].
  rewrite !(setTimeout_frame isAttackingRef) by stable.
  rewrite (playAnimation_frame isAttackingRef) by stable. cbn.
  rewrite resumeDues_enqueue_resume, resumeDues_enqueue_other by discriminate.
  apply andb_prop in E as [_ E]. destruct (isAttackingRef s); [discriminate E|].
  rewrite H. reflexivity.
Qed.

Lemma callback_attack (due : Z) (cb : Callback) (rest : list (Z * Callback))
    (s s' : State) :
  timers s = (due, cb) :: rest →
  callback cb (set_now (Z.max (now s) due) (set_timers rest s)) = Some s' →
  length (resumeDues (timers s)) = (if isAttackingRef s then 1%nat else 0%nat) →
  length (resumeDues (timers s')) = if isAttackingRef s' then 1%nat else 0%nat.
Proof.
  intros Ht Hcb H. rewrite Ht in H. destruct cb; cbn in Hcb, H.
  - injection Hcb as <-.
    rewrite (checkHitTimeout_frame isAttackingRef) by stable.
    unfold checkHitTimeout. destruct (checkHit _); [|exact H].
    rewrite killZombie_timers. cbn.
    destruct (zombieStateRef s), (zombieRef s);
      rewrite ?resumeDues_enqueue_other by discriminate; exact H.
  - injection Hcb as <-.
    rewrite (returnToIdleTimeout_frame timers) by stable.
    rewrite returnToIdleTimeout_isAttackingRef.
    cbn. destruct (isAttackingRef s); lia.
  - unfold createOrbTimeout in Hcb. cbn in Hcb.
    destruct (zombieRef s); [|discriminate]. injection Hcb as <-. exact H.
Qed.

Lemma Inv_dispatch (e : Event) (s : State) : Inv s → Inv (dispatch e s).
Proof.
  intros [Hq Hp Hh Hd Ha Ho Hat Hl Hc].
  pose proof (dispatch_orb e s) as Horb.
  split.
  - apply dispatch_queued. exact Hq.
  - apply dispatch_playerRef. exact Hp.
  - rewrite dispatch_zombieRef. destruct e; try exact Hh. congruence.
  - rewrite dispatch_zombieStateRef, dispatch_zombieRef. intros H.
    destruct e; eauto.
  - rewrite dispatch_zombieStateRef, dispatch_orbDues. intros H.
    destruct (Ha H) as (Hg & Hn & Ht).
    destruct Horb as [[-> Hiff] | (Hs & _)].
    + rewrite Hiff. auto.
    + rewrite Hg in Hs. destruct Hs as [? ?]. discriminate.
  - rewrite dispatch_orbDues. destruct Ho as [Hle Hiff].
    destruct Horb as [[-> Hi] | (Hs & -> & -> & _)].
    + rewrite Hi. auto.
    + split; [lia|]. split; [reflexivity|]. intros _.
      destruct (sceneOrbs s) as [|[|n]] eqn:En; [|reflexivity|].
      * destruct Hs as [o Ho]. destruct Hiff as [Hiff _].
        rewrite Hiff in Ho by reflexivity. discriminate.
      * cbn in Hle. lia.
  - apply dispatch_attack. exact Hat.
  - apply dispatch_loading. exact Hl.
  - apply dispatch_unclamped. exact Hc.
Qed.

Lemma checkHit_present (s : State) :
  checkHit s = true →
  is_Some (playerRef s) ∧ is_Some (zombieRef s) ∧ zombieStateRef s = alive.
Proof.
  unfold checkHit.
  destruct (playerRef s), (zombieRef s), (zombieStateRef s); try discriminate; eauto.
Qed.

Lemma killZombie_orb (s : State) :
  glowingOrbRef (killZombie s) = glowingOrbRef s
  ∧ sceneOrbs (killZombie s) = sceneOrbs s.
Proof. split; frame. Qed.

Lemma Inv_expire (s s' : State) (due : Z) (cb : Callback) (rest : list (Z * Callback)) :
  Inv s → timers s = (due, cb) :: rest →
  callback cb (set_now (Z.max (now s) due) (set_timers rest s)) = Some s' →
  Inv s'.
Proof.
  intros [Hq Hp Hh Hd Ha Ho Hat Hl Hc] Ht Hcb.
  pose proof (callback_attack due cb rest s s' Ht Hcb Hat) as Hat'.
  set (s0 := set_now (Z.max (now s) due) (set_timers rest s)) in *.
  assert (Hq0 : queued (timers s0)) by (rewrite Ht in Hq; inversion Hq; assumption).
  rewrite Ht in Ha, Ho.
  pose proof (callback_orb cb s0 s' Hcb) as Horb.
  pose proof (callback_zombieRef cb s0 s' Hcb) as Hzr. cbn in Hzr.
  pose proof (callback_zombieStateRef cb s0 s' Hcb) as Hzs. cbn in Hzs.
  split.
  - eapply callback_queued; eassumption.
  - rewrite (callback_playerRef cb s0 s' Hcb). exact Hp.
  - rewrite Hzr. exact Hh.
  - rewrite Hzr. destruct Hzs as [-> | (_ & Hhit & _)]; [exact Hd|].
    intros _. apply checkHit_present in Hhit. tauto.
  - intros Halive.
    destruct Hzs as [E | (_ & _ & _ & ->)];
      [|rewrite killZombie_zombieStateRef in Halive; discriminate].
    rewrite E in Halive. destruct (Ha Halive) as (Hg & Hn & Hdues).
    destruct cb; cbn in Hdues; try discriminate Hdues.
    + destruct Horb as [-> ->]. repeat split; try assumption.
      cbn in Hcb. injection Hcb as <-. unfold checkHitTimeout.
      destruct (checkHit s0) eqn:Ehit; [|exact Hdues].
      exfalso. unfold checkHitTimeout in E. rewrite Ehit in E.
      rewrite killZombie_zombieStateRef in E. cbn in E. congruence.
    + destruct Horb as [-> ->]. repeat split; try assumption.
      cbn in Hcb. injection Hcb as <-.
      rewrite (returnToIdleTimeout_frame timers) by stable. exact Hdues.
  - destruct Ho as [Hle Hiff].
    destruct cb; cbn in Hle.
    + destruct Horb as [-> ->]. split; [|exact Hiff].
      destruct Hzs as [E | (_ & Hhit & Hal & ->)].
      * cbn in Hcb. injection Hcb as <-. unfold checkHitTimeout in *.
        destruct (checkHit s0); [|exact Hle].
        rewrite killZombie_zombieStateRef in E. cbn in E.
        rewrite killZombie_timers. cbn. rewrite <- E. exact Hle.
      * destruct (Ha Hal) as (_ & Hn & Hdues). cbn in Hdues.
        rewrite killZombie_timers. cbn. rewrite Hal.
        apply checkHit_present in Hhit as (_ & [p Hpz] & _). cbn in Hpz. rewrite Hpz.
        rewrite orbDues_enqueue_orb by exact Hdues. cbn. lia.
    + destruct Horb as [-> ->]. split; [|exact Hiff].
      cbn in Hcb. injection Hcb as <-.
      rewrite (returnToIdleTimeout_frame timers) by stable. exact Hle.
    + destruct Horb as (p & _ & -> & ->).
      cbn in Hcb. unfold createOrbTimeout in Hcb.
      destruct (zombieRef s0); [|discriminate]. injection Hcb as <-.
      rewrite (createGlowingOrb_frame timers) by stable. cbn.
      split; [lia|]. split; discriminate.
  - exact Hat'.
  - eapply callback_loading; eassumption.
  - eapply callback_unclamped; eassumption.
Qed.

Lemma Inv_step (s s' : State) (st : Step) : Inv s → step s st = Some s' → Inv s'.
Proof.
  intros HI. destruct st as [|t e]; cbn.
  - destruct (timers s) as [|[due cb] rest] eqn:Ht.
    + intros [= <-]. exact HI.
    + intros H. eapply Inv_expire; eassumption.
  - intros [= <-]. apply Inv_dispatch.
    destruct HI. split; assumption.
Qed.

Lemma Inv_run (steps : list Step) (s s' : State) :
  Inv s → run s steps = Some s' → Inv s'.
Proof.
  revert s. induction steps as [|st steps IH]; intros s HI; cbn.
  - intros [= <-]. exact HI.
  - destruct (step s st) as [s1|] eqn:E; cbn; [|discriminate].
    apply IH. eapply Inv_step; eassumption.
Qed.

Lemma reachable_Inv (s : State) : reachable s → Inv s.
Proof. intros [steps H]. eapply Inv_run; [apply Inv_init | exact H]. Qed.


(** ** The zombie's life *)

Lemma transitions_cons (a b : ZombieState) (l : list ZombieState) :
  transitions (a :: b :: l)
  = if changed a b then (a, b) :: transitions (b :: l) else transitions (b :: l).
Proof. reflexivity. Qed.

Lemma transitions_states (s s' : State) (st : Step) (steps : list Step) :
  step s st = Some s' →
  transitions (zombieStateRef <$> s :: states s (st :: steps))
  = if changed (zombieStateRef s) (zombieStateRef s')
    then (zombieStateRef s, zombieStateRef s')
         :: transitions (zombieStateRef <$> s' :: states s' steps)
    else transitions (zombieStateRef <$> s' :: states s' steps).
Proof. intros E. cbn [states]. rewrite E. reflexivity. Qed.

Lemma dead_stays_dead (steps : list Step) (s : State) :
  zombieStateRef s = dead →
  Forall (λ s', zombieStateRef s' = dead) (states s steps)
  ∧ transitions (zombieStateRef <$> s :: states s steps) = [].
Proof.
  revert s. induction steps as [|st steps IH]; intros s Hd.
  - split; [constructor | reflexivity].
  - destruct (step s st) as [s'|] eqn:E.
    + assert (Hd' : zombieStateRef s' = dead).
      { destruct (step_zombieStateRef s s' st E) as [-> | (Ha & _)]; congruence. }
      destruct (IH s' Hd') as [IH1 IH2]. split.
      * cbn [states]. rewrite E. constructor; assumption.
      * rewrite (transitions_states s s' st steps E), Hd, Hd'. exact IH2.
    + cbn [states]. rewrite E. split; [constructor | reflexivity].
Qed.

(** C5.  Along any run from any state the zombie's state changes at most
    once, and the one change there can be is from alive to dead; after
    [killZombie] it is dead in every later state. *)
Theorem zombie_dies_once (s : State) (steps : list Step) :
  (transitions (zombieStateRef <$> s :: states s steps) = []
   ∨ transitions (zombieStateRef <$> s :: states s steps) = [(alive, dead)])
  ∧ Forall (λ s', zombieStateRef s' = dead) (states (killZombie s) steps).
Proof.
  split; [|apply dead_stays_dead, killZombie_zombieStateRef].
  revert s. induction steps as [|st steps IH]; intros s; [left; reflexivity|].
  destruct (step s st) as [s'|] eqn:E.
  - rewrite (transitions_states s s' st steps E).
    destruct (step_zombieStateRef s s' st E) as [Heq | (Ha & Hd & _)].
    + rewrite Heq. replace (changed _ _) with false by (destruct (zombieStateRef s); reflexivity).
      apply IH.
    + right. destruct (dead_stays_dead steps s' Hd) as [_ Ht].
      rewrite Ha, Hd, Ht. reflexivity.
  - cbn [states]. rewrite E. left. reflexivity.
Qed.

Example kill_changes_once :
  transitions (zombieStateRef <$> init :: states init kill) = [(alive, dead)].
Proof. vm_compute. reflexivity. Qed.

(** The player reference is present in every reachable state: the group is
    created with the scene, before any model has loaded. *)
Lemma reachable_playerRef (s : State) : reachable s → is_Some (playerRef s).
Proof. intros H. apply reachable_Inv in H. apply H. Qed.

(** The player group moves and hits from the start: here the zombie is
    killed before any of the player's own files has arrived. *)
Lemma hit_without_player_files :
  ∃ s, run init earlyKill = Some s
       ∧ loadedAnimations s = 0%nat ∧ zombieStateRef s = dead.
Proof. eexists. vm_compute. repeat split. Qed.

Lemma checkHitTimeout_absent (s : State) :
  playerRef s = None ∨ zombieRef s = None → checkHitTimeout s = s.
Proof. intros H. unfold checkHitTimeout. rewrite checkHit_absent by exact H. reflexivity. Qed.

(** C10, as the code has it.  If the player or the zombie reference is
    absent when the hit check runs, [checkHit] answers false instead of
    failing and the hit timeout leaves the state as it is.  In a reachable
    state the player reference is always present, it is the group and not
    the model; the zombie reference is absent until the zombie's model has
    loaded, and until then the zombie is alive: no hit has been
    registered. *)
Theorem checkHit_before_load (s : State) :
  (playerRef s = None ∨ zombieRef s = None →
   checkHit s = false ∧ callback CheckHitTimeout s = Some s)
  ∧ (reachable s →
     is_Some (playerRef s) ∧ (zombieRef s = None → zombieStateRef s = alive)).
Proof.
  split.
  - intros H. split; [apply checkHit_absent; exact H|].
    cbn. rewrite checkHitTimeout_absent by exact H. reflexivity.
  - intros Hr. pose proof (reachable_Inv s Hr) as HI.
    split; [apply (inv_player s HI)|]. intros Hz.
    destruct (zombieStateRef s) eqn:E; [reflexivity|]. exfalso.
    destruct (inv_dead s HI E) as [p Hp]. congruence.
Qed.

Lemma checkHit_before_load_witness :
  (checkHit init = false ∧ callback CheckHitTimeout init = Some init)
  ∧ is_Some (playerRef init) ∧ zombieStateRef init = alive.
Proof.
  destruct (checkHit_before_load init) as [H1 H2].
  split; [apply H1; right; reflexivity|].
  destruct H2 as [Hp Hz]; [exists []; reflexivity|].
  split; [exact Hp | apply Hz; reflexivity].
Defined.

(** ** The timeouts' targets *)





(** The return-to-idle timeout tests the track before it touches it:
    without one it ends the attack and does nothing else. *)
Lemma returnToIdleTimeout_guard (s : State) :
  actionsRef s !! resumeState s = None →
  returnToIdleTimeout s = set_isAttackingRef false s.
Proof.
  intros H. rewrite returnToIdleTimeout_request. apply playAnimation_absent. exact H.
Qed.


(** Taken out of every run and put where no run gets, the orb timeout in a
    state without a zombie, the read of the position would raise. *)
Remark createOrbTimeout_unchecked : callback CreateOrbTimeout init = None.
Proof. reflexivity. Qed.



(** ** Single-shot tracks *)

(** The table [forEach] builds from a list of clips. *)
Lemma fresh_lookup (clips : list string) (m : gmap string AnimationAction.t)
    (name : string) :
  foldl (λ acc n, <[n := AnimationAction.clipAction]> acc) m clips !! name
  = if decide (name ∈ clips) then Some AnimationAction.clipAction else m !! name.
Proof.
  revert m. induction clips as [|c clips IH]; intros m; cbn.
  - rewrite decide_False by (intros H; inversion H). reflexivity.
  - rewrite IH. destruct (decide (name ∈ clips)) as [Hin | Hnin].
    + rewrite decide_True by (right; exact Hin). reflexivity.
    + destruct (decide (name = c)) as [-> | Hne].
      * rewrite decide_True by left. apply lookup_insert_eq.
      * rewrite decide_False
          by (intros H; apply elem_of_cons in H as [? | ?]; contradiction).
        apply lookup_insert_ne. congruence.
Qed.


Lemma killZombie_death_track (s : State) (a : AnimationAction.t) :
  zombieStateRef s = alive →
  zombieActionsRef s !! "zombieDeath" = Some a →
  zombieActionsRef (killZombie s) !! "zombieDeath"
  = Some (AnimationAction.play
            (AnimationAction.set_clampWhenFinished true
               (AnimationAction.setLoop AnimationAction.LoopOnce
                  (AnimationAction.Times 1)
                  (AnimationAction.fadeIn 0.2 (AnimationAction.reset a))))).
Proof.
  intros E H. unfold killZombie. rewrite E. cbn.
  assert (Hne : "zombieIdle" ≠ "zombieDeath") by discriminate.
  destruct (zombieRef s); rewrite ?(setTimeout_frame zombieActionsRef) by stable; cbn;
    rewrite lookup_alter_eq, lookup_alter_ne, H by exact Hne; reflexivity.
Qed.

Lemma playAnimation_track (name : string) (loop : bool) (s : State)
    (a : AnimationAction.t) :
  actionsRef s !! name = Some a → currentActionRef s ≠ name →
  actionsRef (playAnimation name loop s) !! name
  = Some (AnimationAction.play
            (AnimationAction.setLoop
               (if loop then AnimationAction.LoopRepeat else AnimationAction.LoopOnce)
               AnimationAction.Infinity
               (AnimationAction.fadeIn 0.2 (AnimationAction.reset a)))).
Proof.
  intros H Hne. unfold playAnimation.
  rewrite bool_decide_eq_true_2 by (rewrite H; eauto).
  rewrite bool_decide_eq_true_2 by exact Hne. cbn.
  rewrite lookup_alter_eq, lookup_alter_ne, H by exact Hne. reflexivity.
Qed.

Lemma handleMouseClick_attack (s : State) (a : AnimationAction.t) :
  listening s = true → isAttackingRef s = false →
  actionsRef s !! "attack" = Some a → currentActionRef s ≠ "attack" →
  currentActionRef (dispatch (MouseDown 0) s) = "attack"
  ∧ actionsRef (dispatch (MouseDown 0) s) !! "attack"
    = Some (AnimationAction.play
              (AnimationAction.setLoop AnimationAction.LoopOnce AnimationAction.Infinity
                 (AnimationAction.fadeIn 0.2 (AnimationAction.reset a)))).
Proof.
  intros Hl Ha H Hne. cbn [dispatch]. rewrite Hl. unfold handleMouseClick. rewrite Ha.
  rewrite bool_decide_eq_true_2 by reflexivity. cbn [andb negb].
  rewrite !(setTimeout_frame currentActionRef), !(setTimeout_frame actionsRef) by stable.
  split.
  - apply playAnimation_current. cbn. rewrite H. eauto.
  - apply (playAnimation_track "attack" false); assumption.
Qed.

(** The attack track of the fully loaded scene, once an attack has started:
    single-shot, and not held at its last frame. *)
Lemma attack_track_resets :
  ∃ a, currentActionRef (dispatch (MouseDown 0) loaded) = "attack"
       ∧ actionsRef (dispatch (MouseDown 0) loaded) !! "attack" = Some a
       ∧ AnimationAction.loop a = AnimationAction.LoopOnce
       ∧ AnimationAction.holdsFinalPose a = false.
Proof. eexists. vm_compute. repeat split. Qed.

Lemma resumeState_not_attack (s : State) : resumeState s ≠ "attack".
Proof.
  unfold resumeState.
  destruct (forwardHeld s), (backHeld s), (leftHeld s), (rightHeld s); discriminate.
Qed.

(** Once both of the zombie's files have arrived, the death file with its
    clip, the zombie has a death track, whichever file came first. *)
Lemma zombie_death_track_loaded (idleClip : bool) (s : State) :
  loadedCount s = 0%nat →
  zombieActionsRef (zombieDeathLoaded true (zombieIdleLoaded idleClip s)) !! "zombieDeath"
  = Some AnimationAction.clipAction
  ∧ zombieActionsRef (zombieIdleLoaded idleClip (zombieDeathLoaded true s)) !! "zombieDeath"
    = Some AnimationAction.clipAction.
Proof.
  intros H0.
  assert (E1 : bool_decide (1%nat = 2%nat) = false) by reflexivity.
  assert (E2 : bool_decide (2%nat = 2%nat) = true) by reflexivity.
  assert (Hne : "zombieIdle" ≠ "zombieDeath") by discriminate.
  unfold zombieDeathLoaded, zombieIdleLoaded, setupZombieAnimations, totalZombieAnimations.
  destruct idleClip; repeat (cbn; rewrite ?H0, ?E1, ?E2).
  all: split; rewrite lookup_alter_ne by exact Hne; rewrite fresh_lookup;
    apply decide_True; rewrite ?elem_of_app, ?list_elem_of_singleton; auto.
Qed.

(** C2, as the code has it.  [killZombie] starts the death track, when the
    zombie has one, single-shot with [clampWhenFinished] set, so it holds
    its final pose; the zombie has one once both of its files have arrived,
    the death file with its clip, and without one a kill starts nothing.
    An attack starts the attack track single-shot too, but [playAnimation]
    never sets the clamp flag, and no player action of a reachable state
    has it: the attack track is not held at its final pose.  The
    return-to-idle timeout fades the attack track out and starts the track
    to resume, looping, when there is one; when there is none it leaves the
    attack track and the current animation as they are. *)
Theorem single_shot_tracks :
  (∀ s a,
     zombieStateRef s = alive → zombieActionsRef s !! "zombieDeath" = Some a →
     ∃ a', zombieActionsRef (killZombie s) !! "zombieDeath" = Some a'
           ∧ AnimationAction.scheduled a' = true
           ∧ AnimationAction.loop a' = AnimationAction.LoopOnce
           ∧ AnimationAction.repetitions a' = AnimationAction.Times 1
           ∧ AnimationAction.holdsFinalPose a' = true)
  ∧ (∀ s idleClip,
       loadedCount s = 0%nat →
       zombieActionsRef (zombieDeathLoaded true (zombieIdleLoaded idleClip s))
         !! "zombieDeath" = Some AnimationAction.clipAction
       ∧ zombieActionsRef (zombieIdleLoaded idleClip (zombieDeathLoaded true s))
           !! "zombieDeath" = Some AnimationAction.clipAction)
  ∧ (∀ s,
       zombieActionsRef s !! "zombieDeath" = None →
       zombieActionsRef (killZombie s) !! "zombieDeath" = None)
  ∧ (∀ s a,
       reachable s → listening s = true → isAttackingRef s = false →
       actionsRef s !! "attack" = Some a → currentActionRef s ≠ "attack" →
       ∃ a', currentActionRef (dispatch (MouseDown 0) s) = "attack"
             ∧ actionsRef (dispatch (MouseDown 0) s) !! "attack" = Some a'
             ∧ AnimationAction.scheduled a' = true
             ∧ AnimationAction.loop a' = AnimationAction.LoopOnce
             ∧ AnimationAction.holdsFinalPose a' = false)
  ∧ (∀ s name a,
       reachable s → actionsRef s !! name = Some a →
       AnimationAction.holdsFinalPose a = false)
  ∧ (∀ s a r,
       currentActionRef s = "attack" → actionsRef s !! "attack" = Some a →
       actionsRef s !! resumeState s = Some r →
       currentActionRef (returnToIdleTimeout s) = resumeState s
       ∧ actionsRef (returnToIdleTimeout s) !! "attack"
         = Some (AnimationAction.fadeOut 0.2 a)
       ∧ ∃ r', actionsRef (returnToIdleTimeout s) !! resumeState s = Some r'
               ∧ AnimationAction.scheduled r' = true
               ∧ AnimationAction.loop r' = AnimationAction.LoopRepeat)
  ∧ (∀ s,
       actionsRef s !! resumeState s = None →
       currentActionRef (returnToIdleTimeout s) = currentActionRef s
       ∧ actionsRef (returnToIdleTimeout s) = actionsRef s).
Proof.
  split; [|split; [|split; [|split; [|split; [|split]]]]].
  - intros s a E H. eexists. split; [apply killZombie_death_track; eassumption|].
    repeat split.
  - intros s idleClip. apply zombie_death_track_loaded.
  - intros s H. unfold killZombie. destruct (zombieStateRef s); [|exact H].
    assert (Hne : "zombieIdle" ≠ "zombieDeath") by discriminate.
    cbn. destruct (zombieRef s); rewrite ?(setTimeout_frame zombieActionsRef) by stable; cbn;
      rewrite alter_id' by (rewrite lookup_alter_ne by exact Hne; exact H);
      rewrite lookup_alter_ne by exact Hne; exact H.
  - intros s a Hr Hl Ha H Hne.
    destruct (handleMouseClick_attack s a Hl Ha H Hne) as [Hc Ht].
    eexists. split; [exact Hc|]. split; [exact Ht|]. split; [reflexivity|].
    split; [reflexivity|].
    unfold AnimationAction.holdsFinalPose. cbn.
    exact (inv_clamp s (reachable_Inv s Hr) _ _ H).
  - intros s name a Hr H. unfold AnimationAction.holdsFinalPose.
    exact (inv_clamp s (reachable_Inv s Hr) _ _ H).
  - intros s a r Hc Ha Hres.
    pose proof (resumeState_not_attack s) as Hne.
    split; [apply returnToIdleTimeout_resume; rewrite Hres; eauto|].
    rewrite returnToIdleTimeout_request.
    set (s0 := set_isAttackingRef false s).
    assert (Hc0 : currentActionRef s0 = "attack") by exact Hc.
    split.
    + unfold playAnimation.
      rewrite bool_decide_eq_true_2 by (change (actionsRef s0) with (actionsRef s);
                                        rewrite Hres; eauto).
      rewrite bool_decide_eq_true_2 by (rewrite Hc0; congruence).
      cbn [andb actionsRef set_currentActionRef set_actionsRef].
      rewrite lookup_alter_ne by exact Hne.
      rewrite Hc0, lookup_alter_eq.
      change (actionsRef s0) with (actionsRef s). rewrite Ha. reflexivity.
    + eexists. split.
      * apply (playAnimation_track (resumeState s) true s0 r); [exact Hres|].
        rewrite Hc0. congruence.
      * split; reflexivity.
  - intros s H. rewrite returnToIdleTimeout_guard by exact H. split; reflexivity.
Qed.

Lemma single_shot_tracks_witness :
  (∃ a', zombieActionsRef (killZombie loaded) !! "zombieDeath" = Some a'
         ∧ AnimationAction.scheduled a' = true
         ∧ AnimationAction.loop a' = AnimationAction.LoopOnce
         ∧ AnimationAction.repetitions a' = AnimationAction.Times 1
         ∧ AnimationAction.holdsFinalPose a' = true)
  ∧ zombieActionsRef (killZombie zombieOnly) !! "zombieDeath" = None
  ∧ (∃ a', currentActionRef (dispatch (MouseDown 0) loaded) = "attack"
           ∧ actionsRef (dispatch (MouseDown 0) loaded) !! "attack" = Some a'
           ∧ AnimationAction.scheduled a' = true
           ∧ AnimationAction.loop a' = AnimationAction.LoopOnce
           ∧ AnimationAction.holdsFinalPose a' = false)
  ∧ AnimationAction.holdsFinalPose
      (AnimationAction.play
         (AnimationAction.setLoop AnimationAction.LoopOnce AnimationAction.Infinity
            (AnimationAction.fadeIn 0.2
               (AnimationAction.reset AnimationAction.clipAction))))
    = false
  ∧ currentActionRef (returnToIdleTimeout beforeDeath) = resumeState beforeDeath
  ∧ currentActionRef (returnToIdleTimeout midAttack) = currentActionRef midAttack.
Proof.
  destruct single_shot_tracks as (H1 & _ & H3 & H4 & H5 & H6 & H7).
  split; [|split; [|split; [|split; [|split]]]].
  - apply (H1 loaded AnimationAction.clipAction); vm_compute; reflexivity.
  - apply (H3 zombieOnly). vm_compute. reflexivity.
  - apply (H4 loaded AnimationAction.clipAction).
    + exists allLoaded. vm_compute. reflexivity.
    + vm_compute. reflexivity.
    + vm_compute. reflexivity.
    + vm_compute. reflexivity.
    + vm_compute. discriminate.
  - apply (H5 beforeDeath "attack").
    + exists (allLoaded ++ approach ++ [ Deliver 1000 (MouseDown 0) ])%list.
      vm_compute. reflexivity.
    + vm_compute. reflexivity.
  - eapply (H6 beforeDeath); vm_compute; reflexivity.
  - apply (H7 midAttack). vm_compute. reflexivity.
Defined.

(** ** The player's state machine *)

Lemma movement_attacking (player : Vector3.t) (s : State) :
  isAttackingRef s = true →
  movement player s = {| position := player; moved := false; currentMovement := "" |}.
Proof. intros H. unfold movement. rewrite H. reflexivity. Qed.

(** Outside an attack every held direction moves the player, and the name
    left in [currentMovement] is that of the last held direction. *)
Lemma movement_free (player : Vector3.t) (s : State) :
  isAttackingRef s = false →
  currentMovement (movement player s) = lastHeld s
  ∧ moved (movement player s) = forwardHeld s || backHeld s || leftHeld s || rightHeld s
  ∧ position (movement player s)
    = (let p := player in
       let p := if forwardHeld s
                then Vector3.mk (Vector3.x p) (Vector3.y p) (Vector3.z p - moveSpeed)%float
                else p in
       let p := if backHeld s
                then Vector3.mk (Vector3.x p) (Vector3.y p) (Vector3.z p + moveSpeed)%float
                else p in
       let p := if leftHeld s
                then Vector3.mk (Vector3.x p - moveSpeed)%float (Vector3.y p) (Vector3.z p)
                else p in
       let p := if rightHeld s
                then Vector3.mk (Vector3.x p + moveSpeed)%float (Vector3.y p) (Vector3.z p)
                else p in
       p).
Proof.
  intros H. unfold movement, lastHeld, forwardHeld, backHeld, leftHeld, rightHeld.
  rewrite H. cbn [negb]. unfold moveIf.
  destruct (held "KeyW" s || held "ArrowUp" s), (held "KeyS" s || held "ArrowDown" s),
    (held "KeyA" s || held "ArrowLeft" s), (held "KeyD" s || held "ArrowRight" s);
    repeat split.
Qed.

(** The state in which [animate] reaches its movement block. *)
Lemma animate_unfold (sinTime : float) (s : State) :
  ∃ s1, animate sinTime s
        = match playerRef s1 with
          | Some player =>
              let currentAction := currentActionRef s1 in
              let m := movement player s1 in
              let s2 := set_playerRef (Some (position m)) s1 in
              let s3 :=
                if negb (isAttackingRef s2) then
                  if moved m && bool_decide (currentAction ≠ "attack") then
                    if bool_decide (currentAction ≠ currentMovement m)
                    then playAnimation (currentMovement m) true s2
                    else s2
                  else if negb (moved m) && bool_decide (currentAction ≠ "attack") then
                    if bool_decide (currentAction ≠ "idle")
                    then playAnimation "idle" true s2
                    else s2
                  else s2
                else s2 in
              set_showPickupPrompt (checkOrbProximity s3) s3
          | None => s1
          end
        ∧ playerRef s1 = playerRef s ∧ keysRef s1 = keysRef s
        ∧ isAttackingRef s1 = isAttackingRef s
        ∧ actionsRef s1 = actionsRef s ∧ currentActionRef s1 = currentActionRef s.
Proof.
  unfold animate.
  destruct (glowingOrbRef s); eexists; (split; [reflexivity|]); repeat split.
Qed.

Lemma animate_attacking (sinTime : float) (s : State) :
  isAttackingRef s = true →
  isAttackingRef (animate sinTime s) = true
  ∧ currentActionRef (animate sinTime s) = currentActionRef s
  ∧ playerRef (animate sinTime s) = playerRef s.
Proof.
  intros H. split; [rewrite <- H; frame|]. split.
  - destruct (animate_unfold sinTime s) as (s1 & -> & _ & _ & Ha & _ & Hc).
    rewrite <- Hc. destruct (playerRef s1); [|reflexivity].
    cbn. rewrite Ha, H. reflexivity.
  - rewrite animate_playerRef. destruct (playerRef s) eqn:E; [|reflexivity].
    rewrite movement_attacking by exact H. reflexivity.
Qed.

(** What a frame selects outside an attack: with a direction held, the
    animation of the last held direction; with none, idle. *)
Lemma animate_selection (sinTime : float) (s : State) :
  is_Some (playerRef s) → isAttackingRef s = false → currentActionRef s ≠ "attack" →
  (forwardHeld s || backHeld s || leftHeld s || rightHeld s = true →
   is_Some (actionsRef s !! lastHeld s) →
   currentActionRef (animate sinTime s) = lastHeld s)
  ∧ (forwardHeld s || backHeld s || leftHeld s || rightHeld s = false →
     is_Some (actionsRef s !! "idle") →
     currentActionRef (animate sinTime s) = "idle").
Proof.
  intros [player Hp] Ha Hne.
  destruct (animate_unfold sinTime s) as (s1 & -> & Hp1 & Hk1 & Ha1 & Hact & Hc).
  rewrite Hp1, Hp. cbn zeta.
  rewrite (movement_frame player s s1) by assumption.
  destruct (movement_free player s Ha) as (Hm & Hmv & _).
  cbn [isAttackingRef set_playerRef currentActionRef set_showPickupPrompt].
  rewrite Ha1, Ha, Hc, Hm, Hmv. cbn [negb].
  rewrite (bool_decide_eq_true_2 _ Hne).
  split; intros Hheld Hsome; rewrite Hheld; cbn [andb negb].
  - case_bool_decide as Hd.
    + apply playAnimation_current. cbn. rewrite Hact. exact Hsome.
    + cbn. congruence.
  - case_bool_decide as Hd.
    + apply playAnimation_current. cbn. rewrite Hact. exact Hsome.
    + cbn. congruence.
Qed.

(** C3.  With every track loaded, no attack going on and both W and D
    held, a frame moves the player along both axes, but the animation it
    selects is the one of the last held direction, strafeRight, where the
    resume rule gives priority to the first, walkForward. *)
Theorem animate_diagonal :
  isAttackingRef diagonal = false
  ∧ forwardHeld diagonal = true ∧ rightHeld diagonal = true
  ∧ resumeState diagonal = "walkForward"
  ∧ currentActionRef (animate 0 diagonal) = "strafeRight"
  ∧ playerRef (animate 0 diagonal)
    = Some (Vector3.mk (0 + moveSpeed)%float 0 (0 - moveSpeed)%float).
Proof. vm_compute. repeat split. Qed.

(** The two rules at work on the same keys: the return-to-idle timeout
    resumes with walkForward, and the next frame replaces it. *)
Example resume_then_frame :
  currentActionRef (returnToIdleTimeout (handleMouseClick 0 diagonal)) = "walkForward"
  ∧ currentActionRef (animate 0 (returnToIdleTimeout (handleMouseClick 0 diagonal)))
    = "strafeRight".
Proof. vm_compute. split; reflexivity. Qed.

(** *** The attack window *)

Lemma handleMouseClick_attacking (button : Z) (s : State) :
  isAttackingRef s = true → handleMouseClick button s = s.
Proof. intros H. unfold handleMouseClick. rewrite H, andb_false_r. reflexivity. Qed.

Lemma setupAnimations_currentActionRef (clips : list string) (s : State) :
  currentActionRef (setupAnimations clips s) = "idle"
  ∨ currentActionRef (setupAnimations clips s) = currentActionRef s.
Proof. unfold setupAnimations. case_bool_decide; [left | right]; reflexivity. Qed.

Lemma loadAnimation_currentActionRef (a : PlayerAsset) (hasClip : bool) (s : State) :
  ((loadedAnimations s < totalAnimations)%nat → currentActionRef s = "idle") →
  currentActionRef (loadAnimation a hasClip s) = currentActionRef s.
Proof.
  intros Hl. unfold loadAnimation.
  case_bool_decide as E; [|destruct hasClip; reflexivity].
  assert (Hc : currentActionRef s = "idle").
  { apply Hl. unfold totalAnimations in *. destruct hasClip; cbn in E; lia. }
  match goal with
  | |- context [setupAnimations ?clips ?t] =>
      destruct (setupAnimations_currentActionRef clips t) as [-> | ->]
  end; destruct hasClip; cbn; congruence.
Qed.

Lemma dispatch_attacking (e : Event) (s : State) :
  ((loadedAnimations s < totalAnimations)%nat → currentActionRef s = "idle") →
  isAttackingRef s = true →
  isAttackingRef (dispatch e s) = true
  ∧ currentActionRef (dispatch e s) = currentActionRef s
  ∧ playerRef (dispatch e s) = playerRef s.
Proof.
  intros Hl H.
  destruct e; cbn [dispatch]; if_listening;
    try (split; [rewrite <- H; frame | split; frame]).
  - rewrite handleMouseClick_attacking by exact H. auto.
  - apply animate_attacking. exact H.
  - split; [rewrite <- H; frame|]. split; [|frame].
    apply loadAnimation_currentActionRef. exact Hl.
Qed.

Lemma callback_attacking (cb : Callback) (s s' : State) :
  callback cb s = Some s' → cb ≠ ReturnToIdleTimeout →
  isAttackingRef s' = isAttackingRef s
  ∧ currentActionRef s' = currentActionRef s
  ∧ playerRef s' = playerRef s.
Proof.
  destruct cb; cbn; [| congruence |].
  - intros [= <-] _. repeat split; frame.
  - unfold createOrbTimeout. destruct (zombieRef s); [|discriminate].
    intros [= <-] _. repeat split; frame.
Qed.

Lemma step_attacking (s s' : State) (st : Step) :
  reachable s → isAttackingRef s = true → step s st = Some s' →
  (∃ due rest, st = Expire ∧ timers s = (due, ReturnToIdleTimeout) :: rest)
  ∨ (isAttackingRef s' = true
     ∧ currentActionRef s' = currentActionRef s
     ∧ playerRef s' = playerRef s).
Proof.
  intros Hr H. pose proof (reachable_Inv s Hr) as HI.
  destruct st as [|t e]; cbn.
  - destruct (timers s) as [|[due cb] rest] eqn:Ht.
    + intros [= <-]. right. auto.
    + destruct (decide (cb = ReturnToIdleTimeout)) as [-> | Hcb]; [left; eauto|].
      intros Hs. right.
      destruct (callback_attacking cb _ s' Hs Hcb) as (H1 & H2 & H3).
      rewrite H1, H2, H3. auto.
  - intros [= <-]. right.
    apply (dispatch_attacking e (set_now (Z.max (now s) t) s)); [|exact H].
    intros Hn. apply (inv_loading s HI Hn).
Qed.

(** The resume rule presupposes the track.  Before the player's files have
    arrived, an attack with W held ends in idle, not in walkForward; and in
    the scene whose idle file came without a clip, an attack with no key
    held ends in attack, not in idle.  Both runs keep the host's
    discipline. *)
Lemma resume_without_track :
  (run_ok init earlyAttack = true
   ∧ ∃ s, run init earlyAttack = Some s
          ∧ isAttackingRef s = false ∧ resumeState s = "walkForward"
          ∧ currentActionRef s = "idle")
  ∧ (run_ok init (noIdle ++ [ Deliver 1000 (MouseDown 0); Expire; Expire ])%list = true
     ∧ run init (noIdle ++ [ Deliver 1000 (MouseDown 0); Expire; Expire ])%list
       = Some stuck
     ∧ isAttackingRef stuck = false ∧ resumeState stuck = "idle"
     ∧ currentActionRef stuck = "attack").
Proof.
  split.
  - split; [vm_compute; reflexivity|]. eexists.
    split; [vm_compute; reflexivity|]. vm_compute. repeat split.
  - vm_compute. repeat split.
Qed.

(** C4, as the code has it.  While an attack is going on a click starts
    nothing (an attack starts only from a click outside one, which
    registers the return to idle 1000 ms ahead); every step other than the
    expiry of the return-to-idle timeout leaves the attack on, the current
    animation as it is and the player where it stands, whatever keys are
    held; exactly one such timeout is pending during an attack; and it
    clears the flag and asks for the animation of the first held direction
    in the order Forward, Back, Left, Right, or idle when no direction is
    held.  That animation is the current one afterwards when it has a
    track; when it has none the current animation stays what it was. *)
Theorem attack_window :
  (∀ s button, isAttackingRef s = true → handleMouseClick button s = s)
  ∧ (∀ s,
       isAttackingRef s = false →
       isAttackingRef (handleMouseClick 0 s) = true
       ∧ timers (handleMouseClick 0 s)
         = enqueue (now s + 1000, ReturnToIdleTimeout)
             (enqueue (now s + 300, CheckHitTimeout) (timers s)))
  ∧ (∀ s st s',
       reachable s → isAttackingRef s = true → step s st = Some s' →
       (∃ due rest, st = Expire ∧ timers s = (due, ReturnToIdleTimeout) :: rest)
       ∨ (isAttackingRef s' = true
          ∧ currentActionRef s' = currentActionRef s
          ∧ playerRef s' = playerRef s))
  ∧ (∀ s,
       reachable s → isAttackingRef s = true →
       ∃ due, resumeDues (timers s) = [due])
  ∧ (∀ s,
       returnToIdleTimeout s
       = playAnimation (resumeState s) true (set_isAttackingRef false s)
       ∧ isAttackingRef (returnToIdleTimeout s) = false
       ∧ (is_Some (actionsRef s !! resumeState s) →
          currentActionRef (returnToIdleTimeout s) = resumeState s)
       ∧ (actionsRef s !! resumeState s = None →
          currentActionRef (returnToIdleTimeout s) = currentActionRef s)).
Proof.
  split; [exact (λ s b, handleMouseClick_attacking b s)|]. split; [|split; [|split]].
  - intros s H. split.
    + unfold handleMouseClick. rewrite H.
      rewrite bool_decide_eq_true_2 by reflexivity. cbn [andb negb].
      rewrite !(setTimeout_frame isAttackingRef) by stable.
      rewrite (playAnimation_frame isAttackingRef) by stable. reflexivity.
    + rewrite handleMouseClick_timers, H. reflexivity.
  - intros s st s'. apply step_attacking.
  - intros s Hr H. pose proof (inv_attack s (reachable_Inv s Hr)) as Hl.
    rewrite H in Hl. destruct (resumeDues (timers s)) as [|due [|? ?]]; try discriminate Hl.
    eauto.
  - intros s. split; [apply returnToIdleTimeout_request|].
    split; [apply returnToIdleTimeout_isAttackingRef|].
    split; [apply returnToIdleTimeout_resume|].
    intros H. rewrite returnToIdleTimeout_guard by exact H. reflexivity.
Qed.

Lemma attack_window_witness :
  handleMouseClick 0 beforeDeath = beforeDeath
  ∧ (isAttackingRef (handleMouseClick 0 diagonal) = true
     ∧ timers (handleMouseClick 0 diagonal)
       = enqueue (now diagonal + 1000, ReturnToIdleTimeout)
           (enqueue (now diagonal + 300, CheckHitTimeout) (timers diagonal)))
  ∧ ((∃ due rest,
        Deliver 1100 (KeyDown "KeyW") = Expire
        ∧ timers beforeDeath = (due, ReturnToIdleTimeout) :: rest)
     ∨ (isAttackingRef (dispatch (KeyDown "KeyW") (set_now 1100 beforeDeath)) = true
        ∧ currentActionRef (dispatch (KeyDown "KeyW") (set_now 1100 beforeDeath))
          = currentActionRef beforeDeath
        ∧ playerRef (dispatch (KeyDown "KeyW") (set_now 1100 beforeDeath))
          = playerRef beforeDeath))
  ∧ (∃ due, resumeDues (timers beforeDeath) = [due])
  ∧ currentActionRef (returnToIdleTimeout diagonal) = resumeState diagonal
  ∧ currentActionRef (returnToIdleTimeout midAttack) = currentActionRef midAttack.
Proof.
  destruct attack_window as (H1 & H2 & H3 & H5 & H4).
  split; [apply (H1 beforeDeath 0); vm_compute; reflexivity|].
  split; [apply (H2 diagonal); vm_compute; reflexivity|].
  split.
  - apply (H3 beforeDeath (Deliver 1100 (KeyDown "KeyW"))).
    + exists (allLoaded ++ approach ++ [ Deliver 1000 (MouseDown 0) ])%list.
      vm_compute. reflexivity.
    + vm_compute. reflexivity.
    + vm_compute. reflexivity.
  - split; [|split].
    + apply (H5 beforeDeath); [|vm_compute; reflexivity].
      exists (allLoaded ++ approach ++ [ Deliver 1000 (MouseDown 0) ])%list.
      vm_compute. reflexivity.
    + destruct (H4 diagonal) as (_ & _ & H & _). apply H. vm_compute. eauto.
    + destruct (H4 midAttack) as (_ & _ & _ & H). apply H. vm_compute. reflexivity.
Defined.

(** ** From the zombie's death to the pickup *)

Lemma orbDues_elem (d : Z) (q : list (Z * Callback)) :
  d ∈ orbDues q → (d, CreateOrbTimeout) ∈ q.
Proof.
  induction q as [|[due cb] q IH]; cbn; [intros H; inversion H|].
  destruct cb; try (intros H; right; apply IH; exact H).
  intros H. apply elem_of_cons in H as [-> | H]; [left | right; apply IH; exact H].
Qed.

Lemma checkHit_dead (s : State) : zombieStateRef s = dead → checkHit s = false.
Proof.
  intros H. unfold checkHit. rewrite H. destruct (playerRef s), (zombieRef s); reflexivity.
Qed.

Lemma callback_now (cb : Callback) (s s' : State) :
  callback cb s = Some s' → now s' = now s.
Proof.
  destruct cb; cbn.
  - intros [= <-]. frame.
  - intros [= <-]. frame.
  - unfold createOrbTimeout. destruct (zombieRef s); [|discriminate].
    intros [= <-]. frame.
Qed.

(** The clock never runs backwards. *)
Lemma step_now_mono (s s' : State) (st : Step) :
  step s st = Some s' → now s ≤ now s'.
Proof.
  destruct st as [|t e]; cbn.
  - destruct (timers s) as [|[due cb] rest].
    + intros [= <-]. lia.
    + intros H. apply callback_now in H. rewrite H. cbn. lia.
  - intros [= <-]. rewrite dispatch_now. cbn. lia.
Qed.

(** Under the host's discipline no step carries the clock past a pending
    timeout. *)
Lemma step_now_due (s s' : State) (st : Step) (tm : Z * Callback) :
  step_ok s st = true → queued (timers s) → step s st = Some s' →
  tm ∈ timers s → now s ≤ tm.1 → now s' ≤ tm.1.
Proof.
  intros Hok Hq Hs Hin Hle. destruct st as [|t e]; cbn in Hok, Hs.
  - destruct (timers s) as [|[due cb] rest] eqn:Ht.
    + injection Hs as <-. exact Hle.
    + apply callback_now in Hs. rewrite Hs. cbn.
      assert (due ≤ tm.1).
      { apply elem_of_cons in Hin as [-> | Hin]; [cbn; lia|].
        inversion Hq as [|? ? _ Hall]; subst.
        rewrite Forall_forall in Hall. apply (Hall tm Hin). }
      lia.
  - injection Hs as <-. rewrite dispatch_now. cbn.
    apply andb_prop in Hok as [_ Hall].
    rewrite forallb_forall in Hall.
    specialize (Hall tm). rewrite <- list_elem_of_In in Hall.
    specialize (Hall Hin). apply Z.ltb_lt in Hall. lia.
Qed.

(** What a step does to the orb once the zombie is dead: it is the orb
    timeout and puts the orb above the zombie; or it leaves the pending orb
    timeouts alone, and then it removes the orb if it is the player's
    collecting and changes nothing about the orb if it is not. *)
Lemma step_dead_orb (s s' : State) (st : Step) :
  zombieStateRef s = dead → step s st = Some s' →
  (∃ due rest p,
     timers s = (due, CreateOrbTimeout) :: rest ∧ zombieRef s = Some p
     ∧ now s' = Z.max (now s) due ∧ timers s' = rest
     ∧ glowingOrbRef s' = Some (above p) ∧ sceneOrbs s' = S (sceneOrbs s)
     ∧ collects s st = false)
  ∨ (orbDues (timers s') = orbDues (timers s)
     ∧ ((collects s st = false ∧ sceneOrbs s' = sceneOrbs s
         ∧ (glowingOrbRef s' = None ↔ glowingOrbRef s = None))
        ∨ (collects s st = true ∧ is_Some (glowingOrbRef s)
           ∧ glowingOrbRef s' = None
           ∧ sceneOrbs s' = Nat.pred (sceneOrbs s)))).
Proof.
  intros Hd. destruct st as [|t e]; cbn [step].
  - destruct (timers s) as [|[due cb] rest] eqn:Ht.
    + intros [= <-]. right. rewrite Ht. split; [reflexivity|]. left. repeat split; auto.
    + destruct cb; cbn.
      * intros [= <-]. right. unfold checkHitTimeout.
        rewrite checkHit_dead by exact Hd. cbn. split; [reflexivity|]. left. repeat split; auto.
      * intros [= <-]. right.
        rewrite (returnToIdleTimeout_frame timers),
          (returnToIdleTimeout_frame sceneOrbs),
          (returnToIdleTimeout_frame glowingOrbRef) by stable.
        cbn. split; [reflexivity|]. left. repeat split; auto.
      * unfold createOrbTimeout. cbn. destruct (zombieRef s) as [p|] eqn:Hz; [|discriminate].
        intros [= <-]. left. exists due, rest, p. repeat split.
  - intros [= <-]. right. rewrite dispatch_orbDues. split; [reflexivity|].
    set (s0 := set_now (Z.max (now s) t) s).
    destruct e;
      try (left; split; [reflexivity|];
           match goal with
           | |- context [dispatch ?e s0] =>
               destruct (dispatch_orb e s0) as [H | (_ & _ & _ & He)];
               [exact H | discriminate He]
           end).
    cbn [dispatch collects]. change (listening s0) with (listening s).
    destruct (listening s).
    + rewrite handleKeyDown_pickup. cbn zeta.
      change (checkOrbProximity s0) with (checkOrbProximity s).
      rewrite andb_true_r.
      destruct (bool_decide (code = "KeyE")); cbn [andb]; [|left; repeat split; auto].
      destruct (checkOrbProximity s) eqn:Ep; [|left; repeat split; auto].
      right. destruct (checkOrbProximity_orb s Ep) as [o Ho].
      split; [reflexivity|]. split; [eauto|].
      unfold pickupOrb. cbn. rewrite Ho. split; reflexivity.
    + rewrite andb_false_r. left. repeat split; auto.
Qed.

Lemma step_dead (s s' : State) (st : Step) :
  zombieStateRef s = dead → step s st = Some s' → zombieStateRef s' = dead.
Proof.
  intros Hd Hs. destruct (step_zombieStateRef s s' st Hs) as [-> | (Ha & _)]; congruence.
Qed.

Lemma awaited_step (T : Z) (s s' : State) (st : Step) :
  Inv s → zombieStateRef s = dead → Awaited T s → step s st = Some s' →
  collects s st = false
  ∧ ((Awaited T s' ∧ sceneOrbs s' = sceneOrbs s)
     ∨ (Present T s' ∧ now s' = Z.max (now s) (T + 2000)
        ∧ glowingOrbRef s' = Some (above zombieHome)
        ∧ sceneOrbs s = 0%nat ∧ sceneOrbs s' = 1%nat)).
Proof.
  intros HI Hd [Hdue Horb Hsc] Hs.
  destruct (step_dead_orb s s' st Hd Hs)
    as [(due & rest & p & Ht & Hz & Hn' & Ht' & Hg' & Hs' & Hc) | (Hdues & Hq)].
  - split; [exact Hc|]. right. rewrite Ht in Hdue. cbn in Hdue. injection Hdue as -> Hrest.
    rewrite (inv_home s HI p Hz) in Hg'.
    split; [|repeat split; try assumption; lia].
    split; [rewrite Ht'; exact Hrest | lia | rewrite Hg'; eauto | lia].
  - destruct Hq as [(Hc & Hsame & Hiff) | (_ & Hsome & _)];
      [|rewrite Horb in Hsome; destruct Hsome; discriminate].
    split; [exact Hc|]. left. split; [|exact Hsame]. split.
    + rewrite Hdues. exact Hdue.
    + apply Hiff. exact Horb.
    + lia.
Qed.

Lemma present_step (T : Z) (s s' : State) (st : Step) :
  zombieStateRef s = dead → Present T s → step s st = Some s' →
  (collects s st = false ∧ Present T s' ∧ sceneOrbs s' = sceneOrbs s)
  ∨ (collects s st = true ∧ Collected T s'
     ∧ sceneOrbs s = 1%nat ∧ sceneOrbs s' = 0%nat).
Proof.
  intros Hd [Hdue Hnow Horb Hsc] Hs.
  pose proof (step_now_mono s s' st Hs) as Hmono.
  destruct (step_dead_orb s s' st Hd Hs)
    as [(due & rest & p & Ht & _) | (Hdues & Hq)].
  - rewrite Ht in Hdue. discriminate Hdue.
  - rewrite <- Hdues in Hdue.
    destruct Hq as [(Hc & Hsame & Hiff) | (Hc & _ & Hnone & Hpred)].
    + left. split; [exact Hc|]. split; [|exact Hsame].
      split; [assumption | lia | | lia].
      destruct (glowingOrbRef s') eqn:E; [eauto|].
      destruct Horb as [o Ho]. rewrite (proj1 Hiff eq_refl) in Ho. discriminate.
    + right. split; [exact Hc|]. split; [|lia].
      split; [assumption | lia | assumption | lia].
Qed.

Lemma collected_step (T : Z) (s s' : State) (st : Step) :
  zombieStateRef s = dead → Collected T s → step s st = Some s' →
  collects s st = false ∧ Collected T s' ∧ sceneOrbs s' = sceneOrbs s.
Proof.
  intros Hd [Hdue Hnow Horb Hsc] Hs.
  pose proof (step_now_mono s s' st Hs) as Hmono.
  destruct (step_dead_orb s s' st Hd Hs)
    as [(due & rest & p & Ht & _) | (Hdues & Hq)].
  - rewrite Ht in Hdue. discriminate Hdue.
  - rewrite <- Hdues in Hdue.
    destruct Hq as [(Hc & Hsame & Hiff) | (_ & Hsome & _)];
      [|rewrite Horb in Hsome; destruct Hsome; discriminate].
    split; [exact Hc|]. split; [|exact Hsame].
    split; [assumption | lia | apply Hiff; exact Horb | lia].
Qed.

Lemma spawns_cons (s s' : State) (st : Step) (steps : list Step) :
  step s st = Some s' →
  spawns s (st :: steps)
  = ((if (sceneOrbs s <? sceneOrbs s')%nat then [(now s', glowingOrbRef s')] else [])
     ++ spawns s' steps)%list.
Proof. intros E. cbn [spawns]. rewrite E. reflexivity. Qed.

Lemma pickups_cons (s s' : State) (st : Step) (steps : list Step) :
  step s st = Some s' →
  pickups s (st :: steps)
  = ((if (sceneOrbs s' <? sceneOrbs s)%nat then [now s'] else [])
     ++ pickups s' steps)%list.
Proof. intros E. cbn [pickups]. rewrite E. reflexivity. Qed.

Lemma collections_cons (s s' : State) (st : Step) (steps : list Step) :
  step s st = Some s' →
  collections s (st :: steps)
  = ((if collects s st then [now s'] else []) ++ collections s' steps)%list.
Proof. intros E. cbn [collections]. rewrite E. reflexivity. Qed.

Lemma run_cons (s s2 : State) (st : Step) (steps : list Step) :
  run s (st :: steps) = Some s2 →
  ∃ s', step s st = Some s' ∧ run s' steps = Some s2.
Proof. cbn. destruct (step s st) as [s'|]; cbn; [eauto | discriminate]. Qed.

Lemma run_ok_cons (s s' : State) (st : Step) (steps : list Step) :
  step s st = Some s' → run_ok s (st :: steps) = true →
  step_ok s st = true ∧ run_ok s' steps = true.
Proof. cbn. intros ->. intros H. apply andb_prop in H. exact H. Qed.

(** Once collected, the orb is gone for good. *)
Lemma collected_run (T : Z) (steps : list Step) (s s2 : State) :
  zombieStateRef s = dead → Collected T s → run s steps = Some s2 →
  spawns s steps = [] ∧ pickups s steps = [] ∧ collections s steps = []
  ∧ Collected T s2.
Proof.
  revert s. induction steps as [|st steps IH]; intros s Hd Hc Hr.
  - injection Hr as <-. auto.
  - destruct (run_cons s s2 st steps Hr) as (s' & Hs & Hr').
    destruct (collected_step T s s' st Hd Hc Hs) as (Hno & Hc' & Hsame).
    destruct (IH s' (step_dead s s' st Hd Hs) Hc' Hr') as (Hsp & Hpk & Hco & Hfin).
    rewrite (spawns_cons s s' st steps Hs), (pickups_cons s s' st steps Hs),
      (collections_cons s s' st steps Hs).
    rewrite Hsame, Nat.ltb_irrefl, Hno, Hsp, Hpk, Hco. auto.
Qed.

(** While the orb is in the scene no other enters; it leaves when the
    player collects, and at no other step. *)
Lemma present_run (T : Z) (steps : list Step) (s s2 : State) :
  zombieStateRef s = dead → Present T s → run s steps = Some s2 →
  spawns s steps = [] ∧ pickups s steps = collections s steps
  ∧ ((collections s steps = [] ∧ Present T s2)
     ∨ (∃ t, collections s steps = [t] ∧ now s ≤ t ∧ Collected T s2)).
Proof.
  revert s. induction steps as [|st steps IH]; intros s Hd Hp Hr.
  - injection Hr as <-. auto.
  - destruct (run_cons s s2 st steps Hr) as (s' & Hs & Hr').
    pose proof (step_dead s s' st Hd Hs) as Hd'.
    pose proof (step_now_mono s s' st Hs) as Hmono.
    rewrite (spawns_cons s s' st steps Hs), (pickups_cons s s' st steps Hs),
      (collections_cons s s' st steps Hs).
    destruct (present_step T s s' st Hd Hp Hs) as [(Hno & Hp' & Hsame) | (Hyes & Hc' & H1 & H0)].
    + rewrite Hsame, Nat.ltb_irrefl, Hno. cbn [app].
      destruct (IH s' Hd' Hp' Hr') as (Hsp & Hpk & [Hfin | (t & Hco & Ht & Hfin)]).
      * auto.
      * split; [exact Hsp|]. split; [exact Hpk|]. right. exists t.
        split; [exact Hco|]. split; [lia | exact Hfin].
    + destruct (collected_run T steps s' s2 Hd' Hc' Hr') as (Hsp & Hpk & Hco & Hfin).
      rewrite H1, H0, Hyes, Hsp, Hpk, Hco. cbn. split; [reflexivity|].
      split; [reflexivity|]. right. exists (now s'). auto.
Qed.

Lemma awaited_run (T : Z) (steps : list Step) (s s2 : State) :
  Inv s → zombieStateRef s = dead → Awaited T s → run s steps = Some s2 →
  pickups s steps = collections s steps
  ∧ OrbHistory T (above zombieHome) (spawns s steps) (collections s steps) s2.
Proof.
  revert s. induction steps as [|st steps IH]; intros s HI Hd Ha Hr.
  - injection Hr as <-. split; [reflexivity|]. apply OnItsWay; auto.
  - destruct (run_cons s s2 st steps Hr) as (s' & Hs & Hr').
    pose proof (step_dead s s' st Hd Hs) as Hd'.
    rewrite (spawns_cons s s' st steps Hs), (pickups_cons s s' st steps Hs),
      (collections_cons s s' st steps Hs).
    destruct (awaited_step T s s' st HI Hd Ha Hs)
      as (Hno & [[Ha' Hsame] | (Hp' & Hn & Hg & H0 & H1)]); rewrite Hno.
    + rewrite Hsame, Nat.ltb_irrefl. cbn [app].
      apply (IH s'); try assumption. eapply Inv_step; eassumption.
    + rewrite H0, H1, Hg. cbn.
      destruct (present_run T steps s' s2 Hd' Hp' Hr')
        as (-> & -> & [(-> & Hfin) | (t & -> & Ht & Hfin)]); (split; [reflexivity|]).
      * apply (InTheScene _ _ _ _ _ (now s')); auto. lia.
      * apply (PickedUp _ _ _ _ _ (now s') t); auto. lia.
Qed.

(** A host that runs every timeout when it is due puts the orb into the
    scene at the very time it was registered for. *)
Lemma spawns_on_time (T : Z) (steps : list Step) (s s2 : State) :
  Inv s → zombieStateRef s = dead → Awaited T s → now s ≤ T + 2000 →
  run_ok s steps = true → run s steps = Some s2 →
  ∀ t o, (t, o) ∈ spawns s steps → t = T + 2000.
Proof.
  revert s. induction steps as [|st steps IH]; intros s HI Hd Ha Hnow Hok Hr t o Hin.
  - cbn in Hin. inversion Hin.
  - destruct (run_cons s s2 st steps Hr) as (s' & Hs & Hr').
    destruct (run_ok_cons s s' st steps Hs Hok) as [Hok1 Hok'].
    pose proof (step_dead s s' st Hd Hs) as Hd'.
    rewrite (spawns_cons s s' st steps Hs) in Hin.
    destruct (awaited_step T s s' st HI Hd Ha Hs)
      as (_ & [[Ha' Hsame] | (Hp' & Hn & Hg & H0 & H1)]).
    + rewrite Hsame, Nat.ltb_irrefl in Hin. cbn [app] in Hin.
      assert (Hnow' : now s' ≤ T + 2000).
      { apply (step_now_due s s' st (T + 2000, CreateOrbTimeout) Hok1 (inv_queued s HI) Hs);
          [|exact Hnow].
        apply orbDues_elem. rewrite (aw_dues T s Ha). left. }
      exact (IH s' (Inv_step s s' st HI Hs) Hd' Ha' Hnow' Hok' Hr' t o Hin).
    + destruct (present_run T steps s' s2 Hd' Hp' Hr') as (Hsp & _).
      rewrite H0, H1, Hsp in Hin. cbn in Hin.
      apply list_elem_of_singleton in Hin. injection Hin as -> _. lia.
Qed.

(** C8, as the code has it.  Before the zombie dies there is no orb.  The
    step that kills it, at time [T], registers one orb timeout, due at
    [T + 2000].  Any run from there on, of a host on time or late, has seen
    this much of the orb: nothing yet; or one orb, put into the scene not
    before [T + 2000] one unit above the zombie, and still there; or that
    one orb and one collection by the player, E going down in reach while
    the component is mounted, after which no orb exists.  The orb leaves the
    scene at the player's collections and at no other step.  A host that
    runs every timeout when it is due puts the orb into the scene at
    [T + 2000] exactly. *)
Theorem orb_after_death (s s1 s2 : State) (st : Step) (steps : list Step) :
  reachable s → zombieStateRef s = alive →
  step s st = Some s1 → zombieStateRef s1 = dead →
  run s1 steps = Some s2 →
  (glowingOrbRef s = None ∧ sceneOrbs s = 0%nat)
  ∧ ∃ p, zombieRef s1 = Some p
         ∧ orbDues (timers s1) = [now s1 + 2000]
         ∧ OrbHistory (now s1) (above p) (spawns s1 steps) (collections s1 steps) s2
         ∧ pickups s1 steps = collections s1 steps
         ∧ (run_ok s1 steps = true →
            ∀ t o, (t, o) ∈ spawns s1 steps → t = now s1 + 2000).
Proof.
  intros Hr Halive Hs Hd Hrun.
  pose proof (reachable_Inv s Hr) as HI.
  pose proof (Inv_step s s1 st HI Hs) as HI1.
  destruct (inv_alive s HI Halive) as (Hg & Hn & Hdues).
  split; [auto|].
  destruct (inv_dead s1 HI1 Hd) as [p Hp]. exists p. split; [exact Hp|].
  rewrite (inv_home s1 HI1 p Hp).
  assert (Ha : Awaited (now s1) s1).
  { destruct (step_zombieStateRef s s1 st Hs)
      as [E | (_ & _ & due & rest & _ & Ht & Hs1 & Hhit)]; [congruence|].
    destruct (killZombie_orb (set_now (Z.max (now s) due) (set_timers rest s))) as [Hg1 Hn1].
    rewrite Ht in Hdues. cbn in Hdues.
    apply checkHit_present in Hhit as (_ & [q Hq] & _).
    split; rewrite Hs1.
    - rewrite killZombie_timers. cbn. rewrite Halive, Hq.
      rewrite (killZombie_frame now) by stable. cbn.
      apply orbDues_enqueue_orb. exact Hdues.
    - rewrite Hg1. exact Hg.
    - rewrite Hn1. exact Hn. }
  split; [exact (aw_dues _ _ Ha)|].
  destruct (awaited_run (now s1) steps s1 s2 HI1 Hd Ha Hrun) as [Hpk Hh].
  split; [exact Hh|]. split; [exact Hpk|].
  intros Hok. apply (spawns_on_time (now s1) steps s1 s2); try assumption. lia.
Qed.

(** Scenario D of the specification: the zombie dies at 1300, the orb
    appears at 3300 one unit above it, and E collects it at 3500. *)
Example scenario_D :
  now killed = 1300
  ∧ spawns killed afterDeath = [(3300, Some (Vector3.mk (-5) 1 (-5)))]
  ∧ collections killed afterDeath = [3500]
  ∧ pickups killed afterDeath = [3500]
  ∧ glowingOrbRef collected = None ∧ showPickupPrompt collected = false.
Proof. vm_compute. repeat split. Qed.

(** A timeout runs no earlier than it is due, but it may run later: here
    the host delivers a frame at 5000 while the orb timeout of the zombie
    that died at 1300 is still pending, and the orb enters the scene at
    5000, not at 3300. *)
Lemma orb_spawns_late :
  run init kill = Some killed ∧ zombieStateRef killed = dead ∧ now killed = 1300
  ∧ orbDues (timers killed) = [3300]
  ∧ spawns killed lateOrb = [(5000, Some (Vector3.mk (-5) 1 (-5)))].
Proof. vm_compute. repeat split. Qed.

Lemma orb_after_death_witness :
  (glowingOrbRef beforeDeath = None ∧ sceneOrbs beforeDeath = 0%nat)
  ∧ ∃ p, zombieRef killed = Some p
         ∧ orbDues (timers killed) = [now killed + 2000]
         ∧ OrbHistory (now killed) (above p)
             (spawns killed afterDeath) (collections killed afterDeath) collected
         ∧ pickups killed afterDeath = collections killed afterDeath
         ∧ (run_ok killed afterDeath = true →
            ∀ t o, (t, o) ∈ spawns killed afterDeath → t = now killed + 2000).
Proof.
  apply (orb_after_death beforeDeath killed collected Expire afterDeath).
  - exists (allLoaded ++ approach ++ [ Deliver 1000 (MouseDown 0) ])%list.
    vm_compute. reflexivity.
  - vm_compute. reflexivity.
  - vm_compute. reflexivity.
  - vm_compute. reflexivity.
  - vm_compute. reflexivity.
Defined.


(** ** The action table that loading builds *)

(** [setupAnimations] leaves a table with one action per clip name and
    nothing else: each action is the engine's fresh one, the idle action
    started.  Nothing of the old table survives. *)
Lemma setupAnimations_table (clips : list string) (s : State) (name : string) :
  actionsRef (setupAnimations clips s) !! name
  = (if decide (name ∈ clips)
     then Some (if decide (name = "idle")
                then AnimationAction.play AnimationAction.clipAction
                else AnimationAction.clipAction)
     else None)
  ∧ currentActionRef (setupAnimations clips s)
    = (if decide ("idle" ∈ clips) then "idle" else currentActionRef s)
  ∧ mixerRef (setupAnimations clips s) = true.
Proof.
  unfold setupAnimations.
  assert (Hidle : is_Some (foldl (λ acc n, <[n := AnimationAction.clipAction]> acc)
                             (∅ : gmap string AnimationAction.t) clips !! "idle")
                  ↔ "idle" ∈ clips).
  { rewrite fresh_lookup, lookup_empty.
    destruct (decide ("idle" ∈ clips)); split; intros H; eauto; try contradiction.
    destruct H; discriminate. }
  case_bool_decide as E; cbn.
  - apply Hidle in E. rewrite (decide_True _ _ E). split; [|auto].
    rewrite lookup_alter.
    destruct (decide ("idle" = name)) as [<- | Hne];
      rewrite fresh_lookup, lookup_empty.
    + rewrite !(decide_True _ _ E). rewrite decide_True by reflexivity. reflexivity.
    + destruct (decide (name ∈ clips)); [|reflexivity].
      rewrite decide_False by congruence. reflexivity.
  - rewrite Hidle in E. rewrite (decide_False _ _ E). split; [|auto].
    rewrite fresh_lookup, lookup_empty.
    destruct (decide (name ∈ clips)) as [Hin|]; [|reflexivity].
    rewrite decide_False by (intros ->; contradiction). reflexivity.
Qed.

Lemma clipNames_Permutation (files files' : list (PlayerAsset * bool)) :
  files ≡ₚ files' → clipNames files ≡ₚ clipNames files'.
Proof.
  induction 1 as [|[a h] l l' _ IH|[a h] [b k] l|l1 l2 l3 _ IH1 _ IH2]; cbn.
  - reflexivity.
  - destruct h; [constructor|]; exact IH.
  - destruct h, k; try reflexivity. apply perm_swap.
  - etransitivity; eassumption.
Qed.

Lemma clipNames_app (files files' : list (PlayerAsset * bool)) :
  clipNames (files ++ files') = (clipNames files ++ clipNames files')%list.
Proof.
  induction files as [|[a h] files IH]; cbn; [reflexivity|].
  destruct h; cbn; rewrite IH; reflexivity.
Qed.

(** Before the sixth callback the files only pile up. *)
Lemma loadAll_early (files : list (PlayerAsset * bool)) (s : State) :
  (loadedAnimations s + length files < totalAnimations)%nat →
  loadedAnimations (loadAll files s) = (loadedAnimations s + length files)%nat
  ∧ animationClips (loadAll files s) = (animationClips s ++ clipNames files)%list
  ∧ actionsRef (loadAll files s) = actionsRef s
  ∧ currentActionRef (loadAll files s) = currentActionRef s
  ∧ mixerRef (loadAll files s) = mixerRef s.
Proof.
  revert s. induction files as [|[a h] files IH]; intros s Hlt.
  - cbn. rewrite Nat.add_0_r, app_nil_r. auto.
  - change (loadAll ((a, h) :: files) s) with (loadAll files (loadAnimation a h s)).
    cbn [length] in Hlt.
    specialize (IH (loadAnimation a h s)).
    rewrite loadAnimation_loadedAnimations in IH.
    destruct IH as (H1 & H2 & H3 & H4 & H5); [lia|].
    destruct (loadAnimation_early a h s) as [Ha Hc]; [unfold totalAnimations in *; lia|].
    rewrite H1, H2, H3, H4, H5, Ha, Hc. cbn [length clipNames].
    unfold loadAnimation.
    rewrite bool_decide_eq_false_2
      by (destruct h; cbn; unfold totalAnimations in *; lia).
    destruct h; cbn; rewrite <- ?app_assoc; repeat split; lia.
Qed.

(** When the sixth callback runs, the table is set up from the clips that
    have piled up. *)
Lemma loadAll_six (files : list (PlayerAsset * bool)) (s : State) :
  loadedAnimations s = 0%nat → length files = totalAnimations →
  ∃ s', loadAll files s
        = setupAnimations (animationClips s ++ clipNames files)%list s'
        ∧ currentActionRef s' = currentActionRef s.
Proof.
  intros H0 Hlen.
  destruct (exists_last (l := files)) as (front & [a h] & ->).
  { intros ->. discriminate Hlen. }
  rewrite length_app in Hlen. cbn in Hlen.
  unfold loadAll. rewrite foldl_app. cbn [foldl]. fold (loadAll front s).
  destruct (loadAll_early front s) as (H1 & H2 & _ & H4 & _);
    [unfold totalAnimations in *; lia|].
  unfold loadAnimation at 1.
  rewrite bool_decide_eq_true_2
    by (destruct h; cbn; rewrite H1; unfold totalAnimations in *; lia).
  eexists. split.
  - f_equal. destruct h; cbn; rewrite H2, clipNames_app; cbn;
      rewrite <- ?app_assoc, ?app_nil_r; reflexivity.
  - destruct h; cbn; exact H4.
Qed.

(** X1.  Once the six callbacks of the player's files have run, in
    whatever order, the action table holds exactly one action for each file
    that came with a clip, under that file's animation name: a fresh action
    of the engine, started for idle and for no other.  The current
    animation is idle if the idle file had a clip, and the mixer exists. *)
Theorem loaded_table (files : list (PlayerAsset * bool)) (s : State) (name : string) :
  loadedAnimations s = 0%nat → animationClips s = [] →
  length files = totalAnimations →
  actionsRef (loadAll files s) !! name
  = (if decide (name ∈ clipNames files)
     then Some (if decide (name = "idle")
                then AnimationAction.play AnimationAction.clipAction
                else AnimationAction.clipAction)
     else None)
  ∧ currentActionRef (loadAll files s)
    = (if decide ("idle" ∈ clipNames files) then "idle" else currentActionRef s)
  ∧ mixerRef (loadAll files s) = true.
Proof.
  intros H0 Hc Hlen.
  destruct (loadAll_six files s H0 Hlen) as (s' & -> & Hcur).
  rewrite Hc. cbn [app].
  destruct (setupAnimations_table (clipNames files) s' name) as (-> & -> & ->).
  rewrite Hcur. auto.
Qed.

Lemma loaded_table_witness :
  actionsRef (loadAll sixFiles init) !! "walkBack"
  = (if decide ("walkBack" ∈ clipNames sixFiles)
     then Some (if decide ("walkBack" = "idle")
                then AnimationAction.play AnimationAction.clipAction
                else AnimationAction.clipAction)
     else None)
  ∧ currentActionRef (loadAll sixFiles init)
    = (if decide ("idle" ∈ clipNames sixFiles) then "idle" else currentActionRef init)
  ∧ mixerRef (loadAll sixFiles init) = true.
Proof. apply (loaded_table sixFiles init "walkBack"); reflexivity. Defined.

(** X2.  The order in which the six files arrive does not matter: any two
    orders of the same six arrivals leave the same action table, the same
    current animation and a mixer. *)
Theorem loading_order (files files' : list (PlayerAsset * bool)) (s : State) :
  files ≡ₚ files' → loadedAnimations s = 0%nat → length files = totalAnimations →
  actionsRef (loadAll files s) = actionsRef (loadAll files' s)
  ∧ currentActionRef (loadAll files s) = currentActionRef (loadAll files' s)
  ∧ mixerRef (loadAll files s) = mixerRef (loadAll files' s).
Proof.
  intros Hp H0 Hlen.
  assert (Hlen' : length files' = totalAnimations)
    by (rewrite <- Hlen; symmetry; apply Permutation_length; exact Hp).
  destruct (loadAll_six files s H0 Hlen) as (s1 & -> & Hc1).
  destruct (loadAll_six files' s H0 Hlen') as (s2 & -> & Hc2).
  assert (Hin : ∀ n, n ∈ (animationClips s ++ clipNames files)%list
                     ↔ n ∈ (animationClips s ++ clipNames files')%list).
  { intros n. rewrite !elem_of_app.
    rewrite (clipNames_Permutation files files' Hp). reflexivity. }
  split; [|split].
  - apply map_eq. intros n.
    destruct (setupAnimations_table (animationClips s ++ clipNames files)%list s1 n)
      as (-> & _).
    destruct (setupAnimations_table (animationClips s ++ clipNames files')%list s2 n)
      as (-> & _).
    destruct (decide (n ∈ (animationClips s ++ clipNames files)%list)) as [H | H],
      (decide (n ∈ (animationClips s ++ clipNames files')%list)) as [H' | H'];
      first [reflexivity | exfalso; apply Hin in H; contradiction
            | exfalso; apply Hin in H'; contradiction].
  - destruct (setupAnimations_table (animationClips s ++ clipNames files)%list s1 "")
      as (_ & -> & _).
    destruct (setupAnimations_table (animationClips s ++ clipNames files')%list s2 "")
      as (_ & -> & _).
    rewrite Hc1, Hc2.
    destruct (decide ("idle" ∈ (animationClips s ++ clipNames files)%list)) as [H | H],
      (decide ("idle" ∈ (animationClips s ++ clipNames files')%list)) as [H' | H'];
      first [reflexivity | exfalso; apply Hin in H; contradiction
            | exfalso; apply Hin in H'; contradiction].
  - destruct (setupAnimations_table (animationClips s ++ clipNames files)%list s1 "")
      as (_ & _ & ->).
    destruct (setupAnimations_table (animationClips s ++ clipNames files')%list s2 "")
      as (_ & _ & ->). reflexivity.
Qed.

Lemma loading_order_witness :
  actionsRef (loadAll sixFiles init) = actionsRef (loadAll sixFiles' init)
  ∧ currentActionRef (loadAll sixFiles init) = currentActionRef (loadAll sixFiles' init)
  ∧ mixerRef (loadAll sixFiles init) = mixerRef (loadAll sixFiles' init).
Proof.
  apply (loading_order sixFiles sixFiles' init); [|reflexivity|reflexivity].
  apply (bool_decide_unpack (sixFiles ≡ₚ sixFiles')). vm_compute. exact I.
Defined.

(** ** What the handlers keep, step by step *)

(** *** Mixers *)

Lemma dispatch_mixer (e : Event) (s : State) :
  ((loadedAnimations s < totalAnimations)%nat → mixerRef s = false) →
  (loadedAnimations (dispatch e s) < totalAnimations)%nat →
  mixerRef (dispatch e s) = false.
Proof.
  intros IH.
  destruct e; cbn [dispatch]; if_listening;
    try (replace (loadedAnimations _) with (loadedAnimations s) by (symmetry; frame);
         replace (mixerRef _) with (mixerRef s) by (symmetry; frame);
         exact IH).
  rewrite loadAnimation_loadedAnimations. intros Hn.
  unfold loadAnimation.
  rewrite bool_decide_eq_false_2 by (destruct hasClip; cbn; lia).
  destruct hasClip; cbn; apply IH; lia.
Qed.

Lemma callback_mixer (cb : Callback) (s s' : State) :
  callback cb s = Some s' →
  loadedAnimations s' = loadedAnimations s ∧ mixerRef s' = mixerRef s.
Proof.
  destruct cb; cbn.
  - intros [= <-]. split; frame.
  - intros [= <-]. split; frame.
  - unfold createOrbTimeout. destruct (zombieRef s); [|discriminate].
    intros [= <-]. split; frame.
Qed.

Lemma setupZombieAnimations_early (s : State) :
  loadedCount s ≠ totalZombieAnimations ∨ zombieRef s = None →
  setupZombieAnimations s = s.
Proof.
  intros H. unfold setupZombieAnimations.
  destruct H as [H | H].
  - rewrite (bool_decide_eq_false_2 _ H). reflexivity.
  - rewrite H.
    rewrite (bool_decide_eq_false_2 (is_Some None)) by (intros [? ?]; discriminate).
    rewrite andb_false_r. reflexivity.
Qed.

Lemma dispatch_zombie_kept (e : Event) (s : State) :
  ((loadedCount s < totalZombieAnimations)%nat ∨ zombieRef s = None →
   zombieActionsRef s = ∅ ∧ zombieMixerRef s = false) →
  (loadedCount (dispatch e s) < totalZombieAnimations)%nat
  ∨ zombieRef (dispatch e s) = None →
  zombieActionsRef (dispatch e s) = ∅ ∧ zombieMixerRef (dispatch e s) = false.
Proof.
  intros IH.
  destruct e; cbn [dispatch]; if_listening;
    try (replace (loadedCount _) with (loadedCount s) by (symmetry; frame);
         replace (zombieRef _) with (zombieRef s) by (symmetry; frame);
         replace (zombieActionsRef _) with (zombieActionsRef s) by (symmetry; frame);
         replace (zombieMixerRef _) with (zombieMixerRef s) by (symmetry; frame);
         exact IH).
  - (* the zombie's base model *)
    unfold zombieIdleLoaded. intros H.
    rewrite setupZombieAnimations_early in H |- *.
    + destruct hasClip; cbn in *; apply IH; destruct H as [H | H];
        first [discriminate H | left; unfold totalZombieAnimations in *; lia].
    + left. destruct H as [H | H];
        [|rewrite (setupZombieAnimations_frame zombieRef) in H by stable; discriminate H].
      rewrite (setupZombieAnimations_frame loadedCount) in H by stable.
      destruct hasClip; cbn in *; unfold totalZombieAnimations in *; lia.
    + left. destruct H as [H | H];
        [|rewrite (setupZombieAnimations_frame zombieRef) in H by stable; discriminate H].
      rewrite (setupZombieAnimations_frame loadedCount) in H by stable.
      destruct hasClip; cbn in *; unfold totalZombieAnimations in *; lia.
  - (* the zombie's death file *)
    unfold zombieDeathLoaded. intros H.
    rewrite (setupZombieAnimations_frame loadedCount),
      (setupZombieAnimations_frame zombieRef) in H by stable.
    rewrite setupZombieAnimations_early.
    + destruct hasClip; cbn in *; apply IH; destruct H as [H | H];
        first [right; exact H | left; unfold totalZombieAnimations in *; lia].
    + destruct H as [H | H]; [left | right];
        destruct hasClip; cbn in *; unfold totalZombieAnimations in *;
        first [lia | exact H].
  - (* unmounting *)
    rewrite (cleanup_frame loadedCount), (cleanup_frame zombieRef),
      (cleanup_frame zombieMixerRef) by stable.
    intros H. destruct (IH H) as [Ha Hm]. split; [|exact Hm].
    unfold cleanup. cbn [mixerRef set_listening zombieMixerRef].
    destruct (mixerRef s); cbn; rewrite Hm; exact Ha.
Qed.

Lemma callback_zombie_kept (cb : Callback) (s s' : State) :
  callback cb s = Some s' →
  ((loadedCount s < totalZombieAnimations)%nat ∨ zombieRef s = None →
   zombieActionsRef s = ∅ ∧ zombieMixerRef s = false) →
  (loadedCount s' < totalZombieAnimations)%nat ∨ zombieRef s' = None →
  zombieActionsRef s' = ∅ ∧ zombieMixerRef s' = false.
Proof.
  intros Hcb IH. pose proof (callback_zombieRef cb s s' Hcb) as Hz.
  destruct cb; cbn in Hcb.
  - injection Hcb as <-.
    rewrite (checkHitTimeout_frame loadedCount), (checkHitTimeout_frame zombieMixerRef)
      by stable.
    rewrite Hz. intros H. destruct (IH H) as [Ha Hm]. split; [|exact Hm].
    unfold checkHitTimeout. destruct (checkHit s); [|exact Ha].
    unfold killZombie. destruct (zombieStateRef s); [|exact Ha]. cbn.
    destruct (zombieRef s); rewrite ?(setTimeout_frame zombieActionsRef) by stable; cbn;
      rewrite Ha, !alter_empty; reflexivity.
  - injection Hcb as <-.
    rewrite (returnToIdleTimeout_frame loadedCount),
      (returnToIdleTimeout_frame zombieMixerRef),
      (returnToIdleTimeout_frame zombieActionsRef), Hz by stable.
    exact IH.
  - unfold createOrbTimeout in Hcb. destruct (zombieRef s) eqn:E; [|discriminate].
    injection Hcb as <-. cbn. rewrite E. exact IH.
Qed.

(** *** One track at a time *)

Lemma playAnimation_OneTrack (name : string) (loop : bool) (s : State) :
  OneTrack (currentActionRef s) (actionsRef s) →
  OneTrack (currentActionRef (playAnimation name loop s))
           (actionsRef (playAnimation name loop s)).
Proof.
  intros H. unfold playAnimation.
  destruct (bool_decide (is_Some (actionsRef s !! name))
            && bool_decide (currentActionRef s ≠ name)) eqn:E; [|exact H].
  apply andb_prop in E as [_ E]. apply bool_decide_eq_true_1 in E.
  cbn. intros n a Hl.
  apply lookup_alter_Some in Hl as [(-> & x & Hx & ->) | (Hne & Hl)].
  - rewrite decide_True by reflexivity. split; reflexivity.
  - rewrite decide_False by congruence.
    apply lookup_alter_Some in Hl as [(_ & y & Hy & ->) | (Hne2 & Hl)].
    + right. reflexivity.
    + specialize (H n a Hl). rewrite decide_False in H by congruence. exact H.
Qed.

Lemma setupAnimations_OneTrack (clips : list string) (s : State) :
  currentActionRef s = "idle" →
  OneTrack (currentActionRef (setupAnimations clips s))
           (actionsRef (setupAnimations clips s)).
Proof.
  intros Hc n a Hl.
  destruct (setupAnimations_table clips s n) as (Ht & Hcur & _).
  rewrite Ht in Hl. rewrite Hcur, Hc.
  replace (if decide ("idle" ∈ clips) then "idle" else "idle") with "idle"
    by (destruct (decide ("idle" ∈ clips)); reflexivity).
  destruct (decide (n ∈ clips)); [|discriminate Hl].
  destruct (decide (n = "idle")); injection Hl as <-; [split | left]; reflexivity.
Qed.

Lemma dispatch_track (e : Event) (s : State) :
  ((loadedAnimations s < totalAnimations)%nat → currentActionRef s = "idle") →
  (listening s = true → OneTrack (currentActionRef s) (actionsRef s)) →
  listening (dispatch e s) = true →
  OneTrack (currentActionRef (dispatch e s)) (actionsRef (dispatch e s)).
Proof.
  intros Hl IH.
  destruct e; cbn [dispatch];
    try (destruct (listening s) eqn:El; [specialize (IH eq_refl) | intros Hf; congruence]);
    try (replace (currentActionRef _) with (currentActionRef s) by (symmetry; frame);
         replace (actionsRef _) with (actionsRef s) by (symmetry; frame);
         intros _; exact IH).
  - (* a click *)
    intros _. unfold handleMouseClick. destruct (_ && _); [|exact IH].
    rewrite !(setTimeout_frame currentActionRef), !(setTimeout_frame actionsRef) by stable.
    apply playAnimation_OneTrack. exact IH.
  - (* a frame *)
    rewrite (animate_frame listening) by stable. intros Hm. specialize (IH Hm).
    destruct (animate_unfold sinTime s) as (s1 & -> & _ & _ & _ & Hact & Hcur).
    rewrite <- Hact, <- Hcur in IH. clear Hact Hcur.
    destruct (playerRef s1); [|exact IH].
    cbn [actionsRef currentActionRef set_showPickupPrompt].
    repeat case_match; try apply playAnimation_OneTrack; exact IH.
  - (* one of the player's files *)
    rewrite (loadAnimation_frame listening) by stable. intros Hm. specialize (IH Hm).
    unfold loadAnimation. case_bool_decide as E.
    + apply setupAnimations_OneTrack.
      destruct hasClip; cbn in *; apply Hl; unfold totalAnimations in *; lia.
    + destruct hasClip; exact IH.
  - (* the zombie's model *)
    rewrite (zombieIdleLoaded_frame listening), (zombieIdleLoaded_frame currentActionRef),
      (zombieIdleLoaded_frame actionsRef) by stable. exact IH.
  - (* the zombie's death clip *)
    rewrite (zombieDeathLoaded_frame listening), (zombieDeathLoaded_frame currentActionRef),
      (zombieDeathLoaded_frame actionsRef) by stable. exact IH.
  - (* unmounting *)
    intros Hf. exfalso. revert Hf. unfold cleanup. cbn.
    destruct (mixerRef s); cbn; destruct (zombieMixerRef s); cbn; discriminate.
Qed.

Lemma callback_track (cb : Callback) (s s' : State) :
  callback cb s = Some s' →
  (listening s = true → OneTrack (currentActionRef s) (actionsRef s)) →
  listening s' = true → OneTrack (currentActionRef s') (actionsRef s').
Proof.
  destruct cb; cbn.
  - intros [= <-].
    rewrite (checkHitTimeout_frame listening), (checkHitTimeout_frame currentActionRef),
      (checkHitTimeout_frame actionsRef) by stable. auto.
  - intros [= <-]. rewrite (returnToIdleTimeout_frame listening) by stable.
    intros IH Hm. rewrite returnToIdleTimeout_request.
    apply playAnimation_OneTrack. exact (IH Hm).
  - unfold createOrbTimeout. destruct (zombieRef s); [|discriminate]. intros [= <-].
    rewrite (createGlowingOrb_frame listening), (createGlowingOrb_frame currentActionRef),
      (createGlowingOrb_frame actionsRef) by stable. auto.
Qed.

(** *** The prompt *)

(** After a frame that found the player, the prompt is the range test on
    the positions the frame left. *)
Lemma animate_prompt (sinTime : float) (s : State) :
  showPickupPrompt (animate sinTime s)
  = match playerRef s with
    | Some _ => checkOrbProximity (animate sinTime s)
    | None => showPickupPrompt s
    end.
Proof.
  unfold animate.
  set (s1 := match glowingOrbRef s with Some _ => _ | None => s end).
  assert (Hp : playerRef s1 = playerRef s) by (subst s1; destruct (glowingOrbRef s); reflexivity).
  assert (Hs : showPickupPrompt s1 = showPickupPrompt s)
    by (subst s1; destruct (glowingOrbRef s); reflexivity).
  rewrite Hp. destruct (playerRef s); [|exact Hs].
  cbn zeta. reflexivity.
Qed.

Lemma dispatch_prompt (e : Event) (s : State) :
  (showPickupPrompt s = true → checkOrbProximity s = true) →
  showPickupPrompt (dispatch e s) = true → checkOrbProximity (dispatch e s) = true.
Proof.
  intros IH.
  destruct e; cbn [dispatch]; if_listening;
    try (replace (showPickupPrompt _) with (showPickupPrompt s) by (symmetry; frame);
         intros H; rewrite <- (IH H); apply checkOrbProximity_frame; frame).
  - (* a key goes down *)
    unfold handleKeyDown. destruct (_ && _).
    + unfold pickupOrb. cbn. destruct (glowingOrbRef s) eqn:E; cbn; [discriminate|].
      intros H. rewrite <- (IH H). apply checkOrbProximity_frame; reflexivity.
    + cbn. exact IH.
  - (* a frame *)
    rewrite animate_prompt. destruct (playerRef s) eqn:Ep; [trivial|].
    intros H. specialize (IH H). unfold checkOrbProximity in IH.
    rewrite Ep in IH. discriminate IH.
Qed.

Lemma callback_prompt (cb : Callback) (s s' : State) :
  callback cb s = Some s' →
  (cb = CreateOrbTimeout → glowingOrbRef s = None) →
  (showPickupPrompt s = true → checkOrbProximity s = true) →
  showPickupPrompt s' = true → checkOrbProximity s' = true.
Proof.
  destruct cb; cbn.
  - intros [= <-] _ IH. rewrite (checkHitTimeout_frame showPickupPrompt) by stable.
    intros H. rewrite <- (IH H). apply checkOrbProximity_frame; frame.
  - intros [= <-] _ IH. rewrite (returnToIdleTimeout_frame showPickupPrompt) by stable.
    intros H. rewrite <- (IH H). apply checkOrbProximity_frame; frame.
  - unfold createOrbTimeout. destruct (zombieRef s); [|discriminate].
    intros [= <-] Ho IH. rewrite (createGlowingOrb_frame showPickupPrompt) by stable.
    intros H. apply IH, checkOrbProximity_orb in H as [o Hs].
    rewrite Ho in Hs by reflexivity. discriminate Hs.
Qed.

(** *** Where the player and the orb can be *)

Lemma movement_ground (player : Vector3.t) (s : State) :
  Vector3.y (position (movement player s)) = Vector3.y player.
Proof.
  unfold movement, moveIf. destruct (negb (isAttackingRef s)); [|reflexivity].
  destruct (held "KeyW" s || held "ArrowUp" s), (held "KeyS" s || held "ArrowDown" s),
    (held "KeyA" s || held "ArrowLeft" s), (held "KeyD" s || held "ArrowRight" s);
    reflexivity.
Qed.

Lemma dispatch_ground (e : Event) (s : State) :
  (∀ p, playerRef s = Some p → Vector3.y p = 0%float) →
  ∀ p, playerRef (dispatch e s) = Some p → Vector3.y p = 0%float.
Proof.
  intros IH.
  destruct e; cbn [dispatch]; if_listening;
    try (replace (playerRef _) with (playerRef s) by (symmetry; frame); exact IH).
  rewrite animate_playerRef. destruct (playerRef s) as [q|] eqn:Ep; [|discriminate].
  intros p [= <-]. rewrite movement_ground. apply IH. reflexivity.
Qed.

Lemma dispatch_column (e : Event) (s : State) :
  (∀ o, glowingOrbRef s = Some o → aboveHome o) →
  ∀ o, glowingOrbRef (dispatch e s) = Some o → aboveHome o.
Proof.
  intros IH.
  destruct e; cbn [dispatch]; if_listening;
    try (replace (glowingOrbRef _) with (glowingOrbRef s) by (symmetry; frame); exact IH).
  - unfold handleKeyDown. destruct (_ && _); [|exact IH].
    unfold pickupOrb. cbn. destruct (glowingOrbRef s) eqn:E; cbn; [discriminate|].
    rewrite E. discriminate.
  - rewrite animate_glowingOrbRef. destruct (glowingOrbRef s) as [q|]; [|discriminate].
    intros o [= <-]. apply (IH q). reflexivity.
Qed.

Lemma callback_column (cb : Callback) (s s' : State) :
  callback cb s = Some s' →
  (∀ p, zombieRef s = Some p → p = zombieHome) →
  (∀ o, glowingOrbRef s = Some o → aboveHome o) →
  ∀ o, glowingOrbRef s' = Some o → aboveHome o.
Proof.
  intros Hcb Hh IH. pose proof (callback_orb cb s s' Hcb) as Horb.
  destruct cb.
  - destruct Horb as [-> _]. exact IH.
  - destruct Horb as [-> _]. exact IH.
  - destruct Horb as (p & Hp & -> & _). intros o [= <-].
    rewrite (Hh p Hp). split; reflexivity.
Qed.

(** *** The invariant *)

Lemma Kept_init : Kept init.
Proof.
  split.
  - reflexivity.
  - intros _. split; reflexivity.
  - intros _ name a H. cbn in H. rewrite lookup_empty in H. discriminate.
  - discriminate.
  - intros p [= <-]. reflexivity.
  - discriminate.
Qed.

Lemma Kept_dispatch (e : Event) (s : State) : Inv s → Kept s → Kept (dispatch e s).
Proof.
  intros HI [Hm Hz Ht Hp Hg Hc]. split.
  - apply dispatch_mixer. exact Hm.
  - apply dispatch_zombie_kept. exact Hz.
  - apply dispatch_track; [|exact Ht]. intros H. apply (inv_loading s HI H).
  - apply dispatch_prompt. exact Hp.
  - apply dispatch_ground. exact Hg.
  - apply dispatch_column. exact Hc.
Qed.

Lemma Kept_expire (s s' : State) (due : Z) (cb : Callback) (rest : list (Z * Callback)) :
  Inv s → Kept s → timers s = (due, cb) :: rest →
  callback cb (set_now (Z.max (now s) due) (set_timers rest s)) = Some s' →
  Kept s'.
Proof.
  intros HI [Hm Hz Ht Hp Hg Hc] Htm Hcb.
  set (s0 := set_now (Z.max (now s) due) (set_timers rest s)) in *.
  split.
  - destruct (callback_mixer cb s0 s' Hcb) as [-> ->]. exact Hm.
  - apply (callback_zombie_kept cb s0 s' Hcb). exact Hz.
  - apply (callback_track cb s0 s' Hcb). exact Ht.
  - apply (callback_prompt cb s0 s' Hcb); [|exact Hp].
    intros ->. destruct (inv_orb s HI) as [Hle Hiff]. rewrite Htm in Hle. cbn in Hle.
    apply Hiff. lia.
  - intros p. rewrite (callback_playerRef cb s0 s' Hcb). apply Hg.
  - apply (callback_column cb s0 s' Hcb); [exact (inv_home s HI) | exact Hc].
Qed.

Lemma Kept_step (s s' : State) (st : Step) :
  Inv s → Kept s → step s st = Some s' → Kept s'.
Proof.
  intros HI HK. destruct st as [|t e]; cbn.
  - destruct (timers s) as [|[due cb] rest] eqn:Ht.
    + intros [= <-]. exact HK.
    + intros H. eapply Kept_expire; eassumption.
  - intros [= <-].
    apply Kept_dispatch; [destruct HI | destruct HK]; split; assumption.
Qed.

Lemma Kept_run (steps : list Step) (s s' : State) :
  Inv s → Kept s → run s steps = Some s' → Kept s'.
Proof.
  revert s. induction steps as [|st steps IH]; intros s HI HK; cbn.
  - intros [= <-]. exact HK.
  - destruct (step s st) as [s1|] eqn:E; cbn; [|discriminate].
    apply IH; [eapply Inv_step | eapply Kept_step]; eassumption.
Qed.

Lemma reachable_Kept (s : State) : reachable s → Kept s.
Proof. intros [steps H]. eapply Kept_run; [apply Inv_init | apply Kept_init | exact H]. Qed.

(** ** Loading, as the scene sees it *)



(** X4.  The zombie's two files may arrive in either order: the zombie gets
    the same actions, the same mixer, the same place and the same state. *)
Theorem zombie_files_commute (idleClip deathClip : bool) (s : State) :
  loadedCount s = 0%nat →
  let a := zombieDeathLoaded deathClip (zombieIdleLoaded idleClip s) in
  let b := zombieIdleLoaded idleClip (zombieDeathLoaded deathClip s) in
  zombieActionsRef a = zombieActionsRef b ∧ zombieMixerRef a = zombieMixerRef b
  ∧ zombieRef a = zombieRef b ∧ loadedCount a = loadedCount b
  ∧ zombieStateRef a = zombieStateRef b ∧ zombieMixerRef a = true.
Proof.
  intros H0. cbn zeta.
  assert (E1 : bool_decide (1%nat = 2%nat) = false) by reflexivity.
  assert (E2 : bool_decide (2%nat = 2%nat) = true) by reflexivity.
  unfold zombieDeathLoaded, zombieIdleLoaded, setupZombieAnimations, totalZombieAnimations.
  destruct idleClip, deathClip; repeat (cbn; rewrite ?H0, ?E1, ?E2).
  all: (split; [|repeat split]).
  all: try reflexivity.
  all: f_equal; apply map_eq; intros n; rewrite !fresh_lookup, !lookup_empty;
    repeat case_decide; try reflexivity; exfalso;
    repeat match goal with H : context [_ ∈ _] |- _ => revert H end;
    rewrite ?elem_of_app, ?list_elem_of_singleton; tauto.
Qed.

Lemma zombie_files_commute_witness :
  zombieActionsRef (zombieDeathLoaded true (zombieIdleLoaded true init))
  = zombieActionsRef (zombieIdleLoaded true (zombieDeathLoaded true init)).
Proof. apply (zombie_files_commute true true init). reflexivity. Defined.

(** X5.  Before both of the zombie's files have arrived, or without its
    model, the zombie has no mixer and no action; killing it then plays
    nothing. *)
Theorem zombie_needs_both_files (s : State) :
  reachable s →
  (loadedCount s < totalZombieAnimations)%nat ∨ zombieRef s = None →
  zombieMixerRef s = false ∧ zombieActionsRef s = ∅
  ∧ zombieActionsRef (killZombie s) = ∅.
Proof.
  intros Hr H.
  destruct (kept_zombie s (reachable_Kept s Hr) H) as [Ha Hm].
  repeat split; try assumption.
  unfold killZombie. destruct (zombieStateRef s); [|exact Ha].
  cbn. rewrite Ha.
  destruct (zombieRef s); cbn; rewrite !alter_empty; reflexivity.
Qed.

Lemma zombie_needs_both_files_witness :
  zombieMixerRef zombieOnly = false ∧ zombieActionsRef zombieOnly = ∅
  ∧ zombieActionsRef (killZombie zombieOnly) = ∅.
Proof.
  apply (zombie_needs_both_files zombieOnly).
  - exists (Deliver 10 (ZombieIdleLoaded true) :: approach). vm_compute. reflexivity.
  - left. vm_compute. lia.
Defined.

(** ** The player's tracks *)

(** X6.  While the component is mounted the player has one track at a time:
    in every state a run can reach, the action under the current name, if
    there is one, has been started and is not fading out, and every other
    action either was never started or is fading out. *)
Theorem one_track_at_a_time (s : State) (name : string) (a : AnimationAction.t) :
  reachable s → listening s = true → actionsRef s !! name = Some a →
  (name = currentActionRef s →
   AnimationAction.scheduled a = true ∧ fadingOut a = false)
  ∧ (name ≠ currentActionRef s →
     AnimationAction.scheduled a = false ∨ fadingOut a = true).
Proof.
  intros Hr Hm Hl.
  pose proof (kept_track s (reachable_Kept s Hr) Hm name a Hl) as H.
  destruct (decide (name = currentActionRef s)); split; intros; first [assumption | contradiction].
Qed.

Lemma one_track_at_a_time_witness :
  fadingOut (default AnimationAction.clipAction (actionsRef beforeDeath !! "idle")) = true.
Proof.
  destruct (one_track_at_a_time beforeDeath "idle"
              (default AnimationAction.clipAction (actionsRef beforeDeath !! "idle")))
    as [_ H].
  - exists (allLoaded ++ approach ++ [ Deliver 1000 (MouseDown 0) ])%list.
    vm_compute. reflexivity.
  - vm_compute. reflexivity.
  - vm_compute. reflexivity.
  - destruct H as [H | H]; [vm_compute; discriminate | | exact H].
    vm_compute in H. discriminate H.
Defined.

Lemma animate_attack_pose (sinTime : float) (s : State) :
  currentActionRef s = "attack" →
  currentActionRef (animate sinTime s) = "attack"
  ∧ actionsRef (animate sinTime s) = actionsRef s.
Proof.
  intros Hc.
  destruct (animate_unfold sinTime s) as (s1 & -> & _ & _ & _ & Ha1 & Hc1).
  destruct (playerRef s1); [|split; congruence].
  cbn. rewrite Hc1, Hc.
  rewrite (bool_decide_eq_false_2 ("attack" ≠ "attack")) by (intros H; apply H; reflexivity).
  rewrite !andb_false_r.
  destruct (isAttackingRef s1); cbn; (split; [rewrite Hc1; exact Hc | exact Ha1]).
Qed.

Lemma handleMouseClick_attack_pose (button : Z) (s : State) :
  currentActionRef s = "attack" →
  currentActionRef (handleMouseClick button s) = "attack"
  ∧ actionsRef (handleMouseClick button s) = actionsRef s.
Proof.
  intros Hc. unfold handleMouseClick. destruct (_ && _); [|auto].
  rewrite !(setTimeout_frame currentActionRef), !(setTimeout_frame actionsRef) by stable.
  replace "attack" with (currentActionRef (set_isAttackingRef true s)) by exact Hc.
  rewrite playAnimation_same. auto.
Qed.

(** With attack as the current animation, no input and no frame changes
    the animation or touches an action. *)
Lemma input_attack_pose (s s' : State) (st : Step) :
  currentActionRef s = "attack" → inputOrFrame st = true → step s st = Some s' →
  currentActionRef s' = "attack" ∧ actionsRef s' = actionsRef s.
Proof.
  intros Hc Hi Hs. destruct st as [|t e]; [discriminate Hi|].
  cbn in Hs. injection Hs as <-.
  set (s0 := set_now (Z.max (now s) t) s).
  assert (Hc0 : currentActionRef s0 = "attack") by exact Hc.
  change (actionsRef s) with (actionsRef s0).
  destruct e; try discriminate Hi; cbn [dispatch]; if_listening; auto.
  - rewrite (handleKeyDown_frame currentActionRef), (handleKeyDown_frame actionsRef)
      by stable. auto.
  - apply handleMouseClick_attack_pose. exact Hc0.
  - apply animate_attack_pose. exact Hc0.
Qed.

(** X7.  When the return-to-idle timeout finds no track to resume, the
    attack is over but attack stays the current animation.  From any state
    with attack as the current animation, no sequence of key events, clicks
    and frames changes the current animation or any action: whatever keys
    are held the player keeps the attack pose, and a click registers an
    attack without restarting the attack track.  In a reachable state the
    only step that leaves attack is a return-to-idle timeout that finds its
    track; an unmount stops the actions and leaves the name. *)
Theorem attack_pose_stuck :
  (∀ s,
     currentActionRef s = "attack" → actionsRef s !! resumeState s = None →
     isAttackingRef (returnToIdleTimeout s) = false
     ∧ currentActionRef (returnToIdleTimeout s) = "attack"
     ∧ actionsRef (returnToIdleTimeout s) = actionsRef s)
  ∧ (∀ steps s s',
       currentActionRef s = "attack" →
       Forall (λ st, inputOrFrame st = true) steps → run s steps = Some s' →
       currentActionRef s' = "attack" ∧ actionsRef s' = actionsRef s)
  ∧ (∀ s st s',
       reachable s → currentActionRef s = "attack" → step s st = Some s' →
       (currentActionRef s' = "attack"
        ∧ (actionsRef s' = actionsRef s ∨ ∃ t, st = Deliver t Unmount))
       ∨ (∃ due rest,
            st = Expire ∧ timers s = (due, ReturnToIdleTimeout) :: rest
            ∧ is_Some (actionsRef s !! resumeState s)
            ∧ currentActionRef s' = resumeState s)).
Proof.
  split; [|split].
  - intros s Hc Hn. rewrite returnToIdleTimeout_guard by exact Hn. auto.
  - induction steps as [|st steps IH]; intros s s' Hc Hall Hrun.
    + injection Hrun as <-. auto.
    + destruct (run_cons s s' st steps Hrun) as (s1 & Hs & Hr1).
      apply Forall_cons in Hall as [Hi Hall].
      destruct (input_attack_pose s s1 st Hc Hi Hs) as [Hc1 Ha1].
      destruct (IH s1 s' Hc1 Hall Hr1) as [Hc' Ha'].
      split; [exact Hc' | congruence].
  - intros s st s' Hr Hc Hs.
    destruct st as [|t e]; cbn in Hs.
    + destruct (timers s) as [|[due cb] rest] eqn:Ht.
      * injection Hs as <-. left. auto.
      * set (s0 := set_now (Z.max (now s) due) (set_timers rest s)) in *.
        destruct cb; cbn in Hs.
        -- injection Hs as <-. left.
           rewrite (checkHitTimeout_frame currentActionRef),
             (checkHitTimeout_frame actionsRef) by stable. auto.
        -- injection Hs as <-.
           change (actionsRef s) with (actionsRef s0).
           change (resumeState s) with (resumeState s0).
           destruct (actionsRef s0 !! resumeState s0) as [r|] eqn:E.
           ++ right. exists due, rest. repeat split; [eauto|].
              apply returnToIdleTimeout_resume. rewrite E. eauto.
           ++ left. rewrite returnToIdleTimeout_guard by exact E. auto.
        -- unfold createOrbTimeout in Hs. destruct (zombieRef s0); [|discriminate].
           injection Hs as <-. left.
           rewrite (createGlowingOrb_frame currentActionRef),
             (createGlowingOrb_frame actionsRef) by stable. auto.
    + injection Hs as <-.
      set (s0 := set_now (Z.max (now s) t) s).
      assert (Hc0 : currentActionRef s0 = "attack") by exact Hc.
      change (actionsRef s) with (actionsRef s0). left.
      destruct e; cbn [dispatch]; if_listening; auto.
      * rewrite (handleKeyDown_frame currentActionRef), (handleKeyDown_frame actionsRef)
          by stable. auto.
      * destruct (handleMouseClick_attack_pose button s0 Hc0). auto.
      * destruct (animate_attack_pose sinTime s0 Hc0). auto.
      * assert (Hl : S (loadedAnimations s0) ≠ totalAnimations).
        { intros E. unfold totalAnimations in E.
          destruct (inv_loading s (reachable_Inv s Hr)) as [_ Hidle];
            [change (loadedAnimations s) with (loadedAnimations s0);
             unfold totalAnimations; lia|].
          rewrite Hidle in Hc. discriminate Hc. }
        destruct (loadAnimation_early a hasClip s0 Hl) as [-> ->]. auto.
      * rewrite (zombieIdleLoaded_frame currentActionRef),
          (zombieIdleLoaded_frame actionsRef) by stable. auto.
      * rewrite (zombieDeathLoaded_frame currentActionRef),
          (zombieDeathLoaded_frame actionsRef) by stable. auto.
      * rewrite (cleanup_frame currentActionRef) by stable. split; [exact Hc0|].
        right. eauto.
Qed.

Lemma attack_pose_stuck_witness :
  (isAttackingRef (returnToIdleTimeout midAttack) = false
   ∧ currentActionRef (returnToIdleTimeout midAttack) = "attack")
  ∧ (∃ s', run stuck whileStuck = Some s'
           ∧ forwardHeld s' = true ∧ isAttackingRef s' = true
           ∧ currentActionRef s' = "attack" ∧ actionsRef s' = actionsRef stuck).
Proof.
  destruct attack_pose_stuck as (H1 & H2 & _).
  split.
  - destruct (H1 midAttack) as (Ha & Hc & _); [vm_compute; reflexivity ..|].
    split; [exact Ha | exact Hc].
  - eexists. split; [vm_compute; reflexivity|].
    split; [vm_compute; reflexivity|]. split; [vm_compute; reflexivity|].
    apply (H2 whileStuck stuck).
    + vm_compute. reflexivity.
    + repeat constructor.
    + vm_compute. reflexivity.
Defined.

(** X8.  With two or more directions held, the animation a frame selects
    and the animation the end of an attack resumes are different; with one
    direction held they are the same.  The frame selects the last held
    direction in the order Forward, Back, Left, Right, the end of an attack
    the first. *)
Theorem selection_rules_differ (player : Vector3.t) (s : State) :
  isAttackingRef s = false → moved (movement player s) = true →
  returnToIdleTimeout s
  = playAnimation (resumeState s) true (set_isAttackingRef false s)
  ∧ (resumeState s = currentMovement (movement player s)
     ↔ heldDirections s = 1%nat).
Proof.
  intros Ha Hm.
  destruct (movement_free player s Ha) as (Hcm & Hmv & _).
  rewrite Hmv in Hm. rewrite Hcm. split.
  - apply returnToIdleTimeout_request.
  - unfold resumeState, lastHeld, heldDirections.
    destruct (forwardHeld s), (backHeld s), (leftHeld s), (rightHeld s);
      cbn in *; split; intros H; first [reflexivity | discriminate].
Qed.

Lemma selection_rules_differ_witness :
  resumeState diagonal = currentMovement (movement (Vector3.mk 0 0 0) diagonal)
  ↔ heldDirections diagonal = 1%nat.
Proof.
  apply (selection_rules_differ (Vector3.mk 0 0 0) diagonal); vm_compute; reflexivity.
Defined.

(** ** The pickup *)

(** X9.  While the component is mounted, a frame that finds the player
    leaves the prompt equal to the range test on the positions that frame
    produced: the player after this frame's movement and the orb after this
    frame's bob, at most 2.5 apart; without an orb the prompt is off.
    (After the unmount React ignores the setter, and the frames that still
    run show nothing.) *)
Theorem prompt_after_frame (sinTime : float) (s : State) (player : Vector3.t) :
  listening s = true → playerRef s = Some player →
  showPickupPrompt (animate sinTime s)
  = match glowingOrbRef s with
    | Some orb =>
        (Vector3.distanceTo
           (position (movement player s))
           (Vector3.mk (Vector3.x orb) (Vector3.y orb + sinTime * 0.002)%float
                       (Vector3.z orb))
         <=? interactionRange)%float
    | None => false
    end.
Proof.
  intros _ Hp. rewrite animate_prompt, Hp. unfold checkOrbProximity.
  rewrite animate_playerRef, animate_glowingOrbRef, Hp.
  destruct (glowingOrbRef s); reflexivity.
Qed.

Lemma prompt_after_frame_witness :
  showPickupPrompt (animate 0 nearOrb) = true.
Proof.
  rewrite (prompt_after_frame 0 nearOrb
             (default (Vector3.mk 0 0 0) (playerRef nearOrb))).
  - vm_compute. reflexivity.
  - vm_compute. reflexivity.
  - vm_compute. reflexivity.
Defined.

(** X10.  Whenever the prompt is shown the zombie is dead, the orb is in
    reach, and pressing E collects it: the orb leaves the scene and the
    prompt goes. *)
Theorem prompt_means_pickup (s : State) :
  reachable s → listening s = true → showPickupPrompt s = true →
  zombieStateRef s = dead ∧ checkOrbProximity s = true
  ∧ let s' := dispatch (KeyDown "KeyE") s in
    glowingOrbRef s' = None ∧ showPickupPrompt s' = false ∧ sceneOrbs s' = 0%nat.
Proof.
  intros Hr Hm Hs.
  pose proof (reachable_Inv s Hr) as HI.
  pose proof (kept_prompt s (reachable_Kept s Hr) Hs) as Hn.
  destruct (checkOrbProximity_orb s Hn) as [o Ho].
  split; [|split; [exact Hn|]].
  - destruct (zombieStateRef s) eqn:E; [|reflexivity].
    destruct (inv_alive s HI E) as (Hnone & _). congruence.
  - cbn [dispatch]. rewrite Hm. unfold handleKeyDown.
    rewrite bool_decide_eq_true_2 by reflexivity. cbn [andb].
    rewrite (checkOrbProximity_frame s (set_keysRef _ s)) by reflexivity.
    rewrite Hn. unfold pickupOrb. cbn. rewrite Ho. cbn.
    repeat split.
    destruct (inv_orb s HI) as [Hle _]. lia.
Qed.

Lemma prompt_means_pickup_witness :
  glowingOrbRef (dispatch (KeyDown "KeyE") nearOrb) = None.
Proof.
  apply (prompt_means_pickup nearOrb).
  - exists (kill ++ [ Expire; Deliver 2100 (KeyDown "KeyW"); Deliver 2100 (KeyDown "KeyA") ]
            ++ repeat (Deliver 2200 (AnimationFrame 0)) 10
            ++ [ Expire; Deliver 3400 (AnimationFrame 0) ])%list.
    vm_compute. reflexivity.
  - vm_compute. reflexivity.
  - vm_compute. reflexivity.
Defined.

(** X11.  The orb leaves the scene in one way only: a step after which an
    orb that was there is gone is an E key going down while the component
    is mounted and the orb is in reach, and that step switches the prompt
    off. *)
Theorem orb_leaves_by_pickup (s s' : State) (st : Step) :
  step s st = Some s' → is_Some (glowingOrbRef s) → glowingOrbRef s' = None →
  (∃ t, st = Deliver t (KeyDown "KeyE"))
  ∧ listening s = true ∧ checkOrbProximity s = true
  ∧ showPickupPrompt s' = false.
Proof.
  intros Hst [o Ho] Hgone. destruct st as [|t e]; cbn in Hst.
  - exfalso. destruct (timers s) as [|[due cb] rest].
    + injection Hst as <-. congruence.
    + pose proof (callback_orb cb _ s' Hst) as H.
      destruct cb; cbn in H.
      * destruct H as [H _]. congruence.
      * destruct H as [H _]. congruence.
      * destruct H as (p & _ & H & _). congruence.
  - injection Hst as <-.
    set (s0 := set_now (Z.max (now s) t) s) in *.
    assert (Ho0 : glowingOrbRef s0 = Some o) by exact Ho.
    destruct e; cbn [dispatch] in *;
      try (exfalso; revert Hgone; if_listening;
           replace (glowingOrbRef _) with (glowingOrbRef s0) by (symmetry; frame);
           congruence).
    + change (listening s0) with (listening s) in *.
      destruct (listening s); [|congruence].
      rewrite handleKeyDown_pickup in *.
      change (checkOrbProximity s0) with (checkOrbProximity s) in *.
      case_bool_decide as Hc; cbn [andb] in *; [|cbn in Hgone; congruence].
      destruct (checkOrbProximity s); [|cbn in Hgone; congruence].
      subst code. repeat split; [eauto|].
      unfold pickupOrb. cbn. rewrite Ho. reflexivity.
    + exfalso. rewrite animate_glowingOrbRef, Ho0 in Hgone. discriminate Hgone.
Qed.

Lemma orb_leaves_by_pickup_witness : checkOrbProximity nearOrb = true.
Proof.
  refine (proj1 (proj2 (proj2
    (orb_leaves_by_pickup nearOrb _ (Deliver 3500 (KeyDown "KeyE")) eq_refl _ _)))).
  - vm_compute. eauto.
  - vm_compute. reflexivity.
Defined.

(** X12.  The player group never leaves the plane y = 0, and the orb stays
    on the vertical line through the place where the zombie was loaded:
    movement changes x and z only, the orb's bob changes its height only. *)
Theorem positions_kept (s : State) :
  reachable s →
  (∀ p, playerRef s = Some p → Vector3.y p = 0%float)
  ∧ (∀ o, glowingOrbRef s = Some o →
          Vector3.x o = Vector3.x zombieHome ∧ Vector3.z o = Vector3.z zombieHome).
Proof.
  intros Hr. pose proof (reachable_Kept s Hr) as HK. split.
  - apply (kept_ground s HK).
  - apply (kept_column s HK).
Qed.

Lemma positions_kept_witness :
  (∀ p, playerRef nearOrb = Some p → Vector3.y p = 0%float)
  ∧ (∀ o, glowingOrbRef nearOrb = Some o →
          Vector3.x o = Vector3.x zombieHome ∧ Vector3.z o = Vector3.z zombieHome).
Proof.
  apply (positions_kept nearOrb).
  exists (kill ++ [ Expire; Deliver 2100 (KeyDown "KeyW"); Deliver 2100 (KeyDown "KeyA") ]
          ++ repeat (Deliver 2200 (AnimationFrame 0)) 10
          ++ [ Expire; Deliver 3400 (AnimationFrame 0) ])%list.
  vm_compute. reflexivity.
Defined.

(** ** After the unmount *)

Lemma step_unmounted (s s' : State) (st : Step) :
  listening s = false → step s st = Some s' →
  listening s' = false ∧ keysRef s' = keysRef s
  ∧ (isAttackingRef s' = true → isAttackingRef s = true)
  ∧ (is_Some (glowingOrbRef s) → is_Some (glowingOrbRef s')).
Proof.
  intros Hm. destruct st as [|t e]; cbn.
  - destruct (timers s) as [|[due cb] rest]; [intros [= <-]; auto|].
    intros Hcb. pose proof (callback_orb cb _ s' Hcb) as Horb.
    destruct cb; cbn in Hcb, Horb.
    + injection Hcb as <-. destruct Horb as [Ho _]. rewrite Ho.
      rewrite (checkHitTimeout_frame listening), (checkHitTimeout_frame keysRef),
        (checkHitTimeout_frame isAttackingRef) by stable. auto.
    + injection Hcb as <-. destruct Horb as [Ho _]. rewrite Ho.
      rewrite (returnToIdleTimeout_frame listening), (returnToIdleTimeout_frame keysRef)
        by stable.
      rewrite returnToIdleTimeout_isAttackingRef.
      repeat split; [exact Hm | discriminate | auto].
    + destruct Horb as (p & _ & Ho & _). rewrite Ho.
      unfold createOrbTimeout in Hcb. destruct (zombieRef _); [|discriminate].
      injection Hcb as <-.
      rewrite (createGlowingOrb_frame listening), (createGlowingOrb_frame keysRef),
        (createGlowingOrb_frame isAttackingRef) by stable.
      repeat split; [exact Hm | auto | eauto].
  - intros [= <-].
    set (s0 := set_now (Z.max (now s) t) s).
    assert (Hm0 : listening s0 = false) by exact Hm.
    destruct e; cbn [dispatch]; rewrite ?Hm0; try (repeat split; auto; fail).
    + rewrite (animate_frame listening), (animate_frame keysRef),
        (animate_frame isAttackingRef) by stable.
      rewrite animate_glowingOrbRef.
      repeat split; [exact Hm | auto |].
      change (glowingOrbRef s0) with (glowingOrbRef s).
      intros [o ->]. eauto.
    + rewrite (loadAnimation_frame listening), (loadAnimation_frame keysRef),
        (loadAnimation_frame isAttackingRef), (loadAnimation_frame glowingOrbRef) by stable.
      auto.
    + rewrite (zombieIdleLoaded_frame listening), (zombieIdleLoaded_frame keysRef),
        (zombieIdleLoaded_frame isAttackingRef), (zombieIdleLoaded_frame glowingOrbRef)
        by stable.
      auto.
    + rewrite (zombieDeathLoaded_frame listening), (zombieDeathLoaded_frame keysRef),
        (zombieDeathLoaded_frame isAttackingRef), (zombieDeathLoaded_frame glowingOrbRef)
        by stable.
      auto.
    + rewrite (cleanup_frame keysRef), (cleanup_frame isAttackingRef),
        (cleanup_frame glowingOrbRef) by stable.
      repeat split; auto.
      unfold cleanup. cbn. destruct (mixerRef s); cbn; destruct (zombieMixerRef s); reflexivity.
Qed.

(** X13.  After the unmount the listeners are gone for good: whatever the
    host delivers and whichever timeouts still run, the keys keep the
    values they had, no attack starts, and an orb in the scene is never
    collected.  Frames and pending timeouts go on. *)
Theorem unmounted_ignores_input (steps : list Step) (s s' : State) :
  listening s = false → run s steps = Some s' →
  listening s' = false ∧ keysRef s' = keysRef s
  ∧ (isAttackingRef s' = true → isAttackingRef s = true)
  ∧ (is_Some (glowingOrbRef s) → is_Some (glowingOrbRef s')).
Proof.
  revert s. induction steps as [|st steps IH]; intros s Hm; cbn.
  - intros [= <-]. auto.
  - destruct (step s st) as [s1|] eqn:E; cbn; [|discriminate].
    intros Hrun.
    destruct (step_unmounted s s1 st Hm E) as (Hm1 & Hk1 & Ha1 & Ho1).
    destruct (IH s1 Hm1 Hrun) as (Hm' & Hk' & Ha' & Ho').
    repeat split; [exact Hm' | congruence | auto | auto].
Qed.

Lemma unmounted_ignores_input_witness :
  ∃ s', run tornDown afterUnmount = Some s'
        ∧ keysRef s' = keysRef tornDown ∧ isAttackingRef s' = false
        ∧ is_Some (glowingOrbRef s').
Proof.
  eexists. split; [vm_compute; reflexivity|].
  split; [|split; [vm_compute; reflexivity | vm_compute; eauto]].
  apply (unmounted_ignores_input afterUnmount tornDown); vm_compute; reflexivity.
Defined.

(** ** The loading overlay *)






(** The page is not mounted again: once the listeners are gone, they are
    gone in every later state, so a run that ends mounted was mounted in
    each of its states. *)
Lemma pageRun_unmounted (steps : list PageStep) (p p' : Page) :
  listening (scene p) = false → pageRun p steps = Some p' →
  listening (scene p') = false.
Proof.
  revert p. induction steps as [|st steps IH]; intros p Hm Hrun; cbn in Hrun.
  - injection Hrun as <-. exact Hm.
  - destruct (pageStep p st) as [p1|] eqn:E; cbn in Hrun; [|discriminate].
    apply (IH p1); [|exact Hrun].
    destruct st as [st| t | t | t | t |]; cbn in E.
    + destruct (step (scene p) st) as [s'|] eqn:Es; [|discriminate]. cbn in E.
      injection E as <-.
      destruct (step_unmounted (scene p) s' st Hm Es) as [Hm' _].
      destruct (reports st); exact Hm'.
    + injection E as <-. exact Hm.
    + injection E as <-. exact Hm.
    + injection E as <-. exact Hm.
    + injection E as <-. exact Hm.
    + destruct (hideTimers p); injection E as <-; exact Hm.
Qed.



(** ** From the click to the hit *)

Lemma attackCalls_enqueue_orb (due : Z) (q : list (Z * Callback)) :
  attackCalls (enqueue (due, CreateOrbTimeout) q) = attackCalls q.
Proof.
  induction q as [|[d c] q IH]; cbn; [reflexivity|].
  destruct (due <? d); cbn; [reflexivity|].
  destruct c; cbn; rewrite IH; reflexivity.
Qed.

Lemma attackCalls_enqueue_one (due : Z) (cb : Callback) (q : list (Z * Callback)) :
  cb ≠ CreateOrbTimeout → attackCalls q = [] →
  attackCalls (enqueue (due, cb) q) = [cb].
Proof.
  intros Hcb. induction q as [|[d c] q IH]; cbn.
  - destruct cb; try reflexivity. contradiction.
  - intros H. destruct c; try discriminate H.
    destruct (due <? d); cbn.
    + rewrite H. destruct cb; try reflexivity. contradiction.
    + apply IH. exact H.
Qed.

Lemma attackCalls_click (n : Z) (q : list (Z * Callback)) :
  attackCalls q = [] →
  attackCalls (enqueue (n + 1000, ReturnToIdleTimeout)
                 (enqueue (n + 300, CheckHitTimeout) q))
  = [CheckHitTimeout; ReturnToIdleTimeout].
Proof.
  induction q as [|[d c] q IH]; cbn.
  - intros _. rewrite (proj2 (Z.ltb_ge _ _)) by lia. reflexivity.
  - intros H. destruct c; try discriminate H.
    destruct (n + 300 <? d) eqn:E; cbn.
    + rewrite (proj2 (Z.ltb_ge (n + 1000) (n + 300))) by lia. cbn. f_equal.
      apply (attackCalls_enqueue_one (n + 1000) ReturnToIdleTimeout ((d, CreateOrbTimeout) :: q));
        [discriminate | exact H].
    + apply Z.ltb_ge in E.
      rewrite (proj2 (Z.ltb_ge (n + 1000) d)) by lia. cbn. apply IH. exact H.
Qed.

Lemma attackCalls_none (q : list (Z * Callback)) :
  attackCalls q = [] → orbDues q = [] → q = [].
Proof. destruct q as [|[d c] q]; [reflexivity|]. destruct c; cbn; discriminate. Qed.

Lemma Armed_init : Armed init.
Proof. reflexivity. Qed.

Lemma dispatch_armed (e : Event) (s : State) : Armed s → Armed (dispatch e s).
Proof.
  unfold Armed. intros H.
  destruct e; cbn [dispatch]; if_listening;
    try (replace (timers _) with (timers s) by (symmetry; frame);
         replace (isAttackingRef _) with (isAttackingRef s) by (symmetry; frame);
         exact H).
  rewrite handleMouseClick_timers. unfold handleMouseClick.
  destruct (bool_decide (button = 0) && negb (isAttackingRef s)) eqn:E; [|exact H].
  rewrite !(setTimeout_frame isAttackingRef) by stable.
  rewrite (playAnimation_frame isAttackingRef) by stable. cbn.
  apply andb_prop in E as [_ E]. destruct (isAttackingRef s); [discriminate E|].
  left. apply attackCalls_click. exact H.
Qed.

Lemma callback_armed (due : Z) (cb : Callback) (rest : list (Z * Callback))
    (s s' : State) :
  timers s = (due, cb) :: rest →
  callback cb (set_now (Z.max (now s) due) (set_timers rest s)) = Some s' →
  Armed s → Armed s'.
Proof.
  unfold Armed. intros Ht Hcb H. rewrite Ht in H. destruct cb; cbn in Hcb, H.
  - injection Hcb as <-.
    rewrite (checkHitTimeout_frame isAttackingRef) by stable. cbn.
    assert (Hr : attackCalls (timers (checkHitTimeout
                   (set_now (Z.max (now s) due) (set_timers rest s))))
                 = attackCalls rest).
    { unfold checkHitTimeout. destruct (checkHit _); [|reflexivity].
      rewrite killZombie_timers. cbn.
      destruct (zombieStateRef s), (zombieRef s);
        rewrite ?attackCalls_enqueue_orb; reflexivity. }
    rewrite Hr. destruct (isAttackingRef s); [|discriminate H].
    destruct H as [H | H]; [|discriminate H]. right. congruence.
  - injection Hcb as <-.
    rewrite (returnToIdleTimeout_frame timers) by stable.
    rewrite returnToIdleTimeout_isAttackingRef. cbn.
    destruct (isAttackingRef s); [|discriminate H].
    destruct H as [H | H]; [discriminate H | congruence].
  - unfold createOrbTimeout in Hcb. cbn in Hcb.
    destruct (zombieRef s); [|discriminate]. injection Hcb as <-. exact H.
Qed.

Lemma Armed_run (steps : list Step) (s s' : State) :
  Armed s → run s steps = Some s' → Armed s'.
Proof.
  revert s. induction steps as [|st steps IH]; intros s HA; cbn.
  - intros [= <-]. exact HA.
  - destruct (step s st) as [s1|] eqn:E; cbn; [|discriminate].
    apply IH. destruct st as [|t e]; cbn in E.
    + destruct (timers s) as [|[due cb] rest] eqn:Ht.
      * injection E as <-. exact HA.
      * eapply callback_armed; eassumption.
    + injection E as <-. apply dispatch_armed. exact HA.
Qed.

Lemma reachable_Armed (s : State) : reachable s → Armed s.
Proof. intros [steps H]. eapply Armed_run; [apply Armed_init | exact H]. Qed.

Lemma checkHit_frame (s s' : State) :
  playerRef s' = playerRef s → zombieRef s' = zombieRef s →
  zombieStateRef s' = zombieStateRef s → checkHit s' = checkHit s.
Proof. intros Hp Hz Hs. unfold checkHit. rewrite Hp, Hz, Hs. reflexivity. Qed.

(** X15.  A click outside an attack, while the zombie lives, is resolved by
    the next timeout to run, 300 ms after the click: the zombie dies exactly
    when the player stood within 3.0 of it at the click, and then the orb is
    due 2000 ms after the hit.  No other timeout is pending in between, and
    the attack is still going on. *)
Theorem attack_resolves (s : State) (t : Z) :
  reachable s → listening s = true → isAttackingRef s = false →
  zombieStateRef s = alive →
  ∃ s', run s [Deliver t (MouseDown 0); Expire] = Some s'
        ∧ now s' = Z.max (now s) t + 300
        ∧ isAttackingRef s' = true
        ∧ zombieStateRef s' = (if checkHit s then dead else alive)
        ∧ orbDues (timers s') = (if checkHit s then [now s' + 2000] else []).
Proof.
  intros Hr Hm Ha Hal.
  pose proof (reachable_Armed s Hr) as HA. unfold Armed in HA. rewrite Ha in HA.
  destruct (inv_alive s (reachable_Inv s Hr) Hal) as (_ & _ & Ho).
  pose proof (attackCalls_none _ HA Ho) as Ht.
  set (n := Z.max (now s) t).
  set (s0 := set_now n s).
  set (s1 := handleMouseClick 0 s0).
  assert (Hn1 : now s1 = n) by (subst s1; rewrite (handleMouseClick_frame now) by stable; reflexivity).
  assert (Ht1 : timers s1 = [(n + 300, CheckHitTimeout); (n + 1000, ReturnToIdleTimeout)]).
  { subst s1. rewrite handleMouseClick_timers.
    change (isAttackingRef s0) with (isAttackingRef s). rewrite Ha.
    change (timers s0) with (timers s). rewrite Ht. cbn.
    rewrite (proj2 (Z.ltb_ge _ _)) by lia. reflexivity. }
  assert (Ha1 : isAttackingRef s1 = true).
  { subst s1. unfold handleMouseClick.
    change (isAttackingRef s0) with (isAttackingRef s). rewrite Ha. cbn [negb andb bool_decide].
    rewrite bool_decide_eq_true_2 by reflexivity. cbn [andb].
    rewrite !(setTimeout_frame isAttackingRef) by stable.
    rewrite (playAnimation_frame isAttackingRef) by stable. reflexivity. }
  set (s2 := set_now (Z.max (now s1) (n + 300))
               (set_timers [(n + 1000, ReturnToIdleTimeout)] s1)).
  assert (Hhit : checkHit s2 = checkHit s).
  { apply checkHit_frame; subst s2 s1; cbn;
      rewrite ?(handleMouseClick_frame playerRef), ?(handleMouseClick_frame zombieRef),
        ?(handleMouseClick_frame zombieStateRef) by stable; reflexivity. }
  assert (Hn2 : now s2 = n + 300) by (subst s2; cbn; rewrite Hn1; lia).
  exists (checkHitTimeout s2). split.
  - cbn [run step]. change (listening (set_now _ s)) with (listening s).
    cbn [dispatch]. change (listening (set_now (Z.max (now s) t) s)) with (listening s).
    rewrite Hm. cbn [mbind option_bind].
    fold n. fold s0. fold s1. rewrite Ht1. reflexivity.
  - rewrite (checkHitTimeout_frame now), (checkHitTimeout_frame isAttackingRef) by stable.
    split; [exact Hn2|]. split; [exact Ha1|].
    unfold checkHitTimeout. rewrite Hhit.
    destruct (checkHit s) eqn:E.
    + split; [apply killZombie_zombieStateRef|].
      rewrite killZombie_timers.
      apply checkHit_present in E as (_ & [z Hz] & _).
      replace (zombieStateRef s2) with alive by (symmetry; rewrite <- Hal; subst s2 s1; cbn;
        rewrite (handleMouseClick_frame zombieStateRef) by stable; reflexivity).
      replace (zombieRef s2) with (Some z) by (symmetry; rewrite <- Hz; subst s2 s1; cbn;
        rewrite (handleMouseClick_frame zombieRef) by stable; reflexivity).
      rewrite orbDues_enqueue_orb by reflexivity. reflexivity.
    + split; [|reflexivity].
      rewrite <- Hal. subst s2 s1. cbn.
      rewrite (handleMouseClick_frame zombieStateRef) by stable. reflexivity.
Qed.

Lemma attack_resolves_witness :
  ∃ s', run zombieOnly [Deliver 1000 (MouseDown 0); Expire] = Some s'
        ∧ now s' = 1300 ∧ zombieStateRef s' = dead ∧ orbDues (timers s') = [3300].
Proof.
  destruct (attack_resolves zombieOnly 1000) as (s' & Hrun & Hn & _ & Hz & Ho).
  - exists (Deliver 10 (ZombieIdleLoaded true) :: approach). vm_compute. reflexivity.
  - vm_compute. reflexivity.
  - vm_compute. reflexivity.
  - vm_compute. reflexivity.
  - exists s'. split; [exact Hrun|].
    assert (Hh : checkHit zombieOnly = true) by (vm_compute; reflexivity).
    rewrite Hh in Hz, Ho. rewrite Hn in Ho.
    split; [exact Hn|]. split; [exact Hz | exact Ho].
Defined.
